(** * CUER BMU v3.1: safety supervisor and contactor sequencer

    A shallow embedding of [src/src/main.cpp] (with [src/include/bmu.h]):
    the CAN receive interrupt routine, the safety evaluator [check_cells],
    the status encoder [update_BMU_status_array], the precharge / discharge
    sequences and the main loop, followed by the properties of the
    specification that concern them.

    Conventions.
    - The globals of the firmware are the fields of one record [State];
      the structs of [bmu.h] are records with the same field names.
    - [int] is 32 bits wide; [char] is an 8-bit pattern kept in [0, 256);
      [unsigned long] is 32 bits wide (the target is a 32-bit mbed board).
    - The main thread is a list of statements run one at a time by a
      machine; interrupts (CAN receive, CAN transmit complete, the 1 Hz
      ticker) and the passing of time are events that may occur between
      any two statements of the main thread.
    - An array access out of range makes the routine return [None]. *)

From Stdlib Require Import ZArith Lia Bool List.
From Stdlib Require Import Floats.PrimFloat Numbers.Cyclic.Int63.Uint63.
From stdpp Require Import base tactics option list numbers.

Local Open Scope Z_scope.

(** ** Machine integers *)

(** Conversion to [int] (two's complement, 32 bits). *)
Definition to_int32 (z : Z) : Z := (z + 2 ^ 31) mod 2 ^ 32 - 2 ^ 31.

(** Conversion to [char] / [uint8_t]. *)
Definition to_char (z : Z) : Z := Z.land z 255.

(** Conversion to [uint16_t]. *)
Definition to_uint16 (z : Z) : Z := Z.land z 65535.

(** Conversion to [unsigned long]. *)
Definition to_ulong (z : Z) : Z := z mod 2 ^ 32.

(** [b |= 1 << k] and [b &= ~(1 << k)] on a [char]. *)
Definition set_bit (k : Z) (b : Z) : Z := to_char (Z.lor b (Z.shiftl 1 k)).
Definition clear_bit (k : Z) (b : Z) : Z := to_char (Z.land b (Z.lnot (Z.shiftl 1 k))).

(** Conversion of an [int] to [double]; exact for 32-bit values. *)
Definition double_of_int (z : Z) : float :=
  if z <? 0 then PrimFloat.opp (PrimFloat.of_uint63 (Uint63.of_Z (- z)))
  else PrimFloat.of_uint63 (Uint63.of_Z z).

(** The [double] literal [0.1]. *)
Definition double_0_1 : float := 0x1.999999999999ap-4%float.

(** ** Arrays *)

(** [a[i]] and [a[i] = v] with an [int] index; [None] outside the array. *)
Definition array_load {A} (a : list A) (i : Z) : option A :=
  if bool_decide (0 <= i) then a !! Z.to_nat i else None.

Definition array_store {A} (a : list A) (i : Z) (v : A) : option (list A) :=
  if bool_decide (0 <= i < Z.of_nat (length a)) then Some (<[Z.to_nat i := v]> a) else None.

(** [for (int i = start; ...; i++)] with [n] iterations of a fallible body. *)
Fixpoint for_loop {S} (n : nat) (i : Z) (body : Z -> S -> option S) (s : S) : option S :=
  match n with
  | O => Some s
  | S n' => s' ← body i s; for_loop n' (i + 1) body s'
  end.

(** ** Data model *)

(** mbed's [CANMessage]: identifier, payload [data[8]] and length. *)
Module CANMessage.
Record t := mk { id : Z; data : list Z; len : Z }.

(** A frame as the CAN peripheral delivers it: eight payload bytes. *)
Definition wf (m : t) : Prop :=
  length (data m) = 8%nat /\ Forall (fun b => 0 <= b < 256) (data m).
End CANMessage.

(** mbed's [Timer]: microseconds accumulated while running. *)
Record Timer := Build_Timer { running : bool; elapsed_us : Z }.

Definition timer_start (t : Timer) : Timer := {| running := true; elapsed_us := elapsed_us t |}.
Definition timer_stop (t : Timer) : Timer := {| running := false; elapsed_us := elapsed_us t |}.
Definition timer_reset (t : Timer) : Timer := {| running := running t; elapsed_us := 0 |}.
Definition timer_advance (d : Z) (t : Timer) : Timer :=
  if running t then {| running := true; elapsed_us := elapsed_us t + d |} else t.

(** [duration_cast<milliseconds>(t.elapsed_time()).count()] *)
Definition elapsed_ms (t : Timer) : Z := elapsed_us t / 1000.

(** The structs of [bmu.h]. *)
Record ivt_state_t := Build_ivt_state {
  current : Z;
  voltage1 : Z;
  voltage2 : Z;
  voltage3 : Z;
  temperature : Z;
  power : Z;
  charge : Z;
  energy : Z
}.

Definition set_current (v : Z) (r : ivt_state_t) : ivt_state_t :=
  {| current := v; voltage1 := voltage1 r; voltage2 := voltage2 r; voltage3 := voltage3 r;
  temperature := temperature r; power := power r; charge := charge r; energy := energy r |}.
Definition set_voltage1 (v : Z) (r : ivt_state_t) : ivt_state_t :=
  {| current := current r; voltage1 := v; voltage2 := voltage2 r; voltage3 := voltage3 r;
  temperature := temperature r; power := power r; charge := charge r; energy := energy r |}.
Definition set_temperature (v : Z) (r : ivt_state_t) : ivt_state_t :=
  {| current := current r; voltage1 := voltage1 r; voltage2 := voltage2 r; voltage3 := voltage3 r;
  temperature := v; power := power r; charge := charge r; energy := energy r |}.
Definition set_power (v : Z) (r : ivt_state_t) : ivt_state_t :=
  {| current := current r; voltage1 := voltage1 r; voltage2 := voltage2 r; voltage3 := voltage3 r;
  temperature := temperature r; power := v; charge := charge r; energy := energy r |}.
Definition set_charge (v : Z) (r : ivt_state_t) : ivt_state_t :=
  {| current := current r; voltage1 := voltage1 r; voltage2 := voltage2 r; voltage3 := voltage3 r;
  temperature := temperature r; power := power r; charge := v; energy := energy r |}.
Definition set_energy (v : Z) (r : ivt_state_t) : ivt_state_t :=
  {| current := current r; voltage1 := voltage1 r; voltage2 := voltage2 r; voltage3 := voltage3 r;
  temperature := temperature r; power := power r; charge := charge r; energy := v |}.

Record bmu_state_t := Build_bmu_state {
  over_current : bool;
  under_voltage : bool;
  over_voltage : bool;
  under_temperature : bool;
  over_temperature : bool;
  safe_to_drive : bool;
  charging_state : bool;
  precharge_state : bool;
  discharge_state : bool;
  contactor_state : bool;
  fan1_state : Z;
  fan2_state : Z;
  fan3_state : Z;
  fan4_state : Z
}.

Definition set_over_current (v : bool) (r : bmu_state_t) : bmu_state_t :=
  {| over_current := v; under_voltage := under_voltage r; over_voltage := over_voltage r;
  under_temperature := under_temperature r; over_temperature := over_temperature r; safe_to_drive :=
  safe_to_drive r; charging_state := charging_state r; precharge_state := precharge_state r;
  discharge_state := discharge_state r; contactor_state := contactor_state r; fan1_state :=
  fan1_state r; fan2_state := fan2_state r; fan3_state := fan3_state r; fan4_state := fan4_state r
  |}.
Definition set_under_voltage (v : bool) (r : bmu_state_t) : bmu_state_t :=
  {| over_current := over_current r; under_voltage := v; over_voltage := over_voltage r;
  under_temperature := under_temperature r; over_temperature := over_temperature r; safe_to_drive :=
  safe_to_drive r; charging_state := charging_state r; precharge_state := precharge_state r;
  discharge_state := discharge_state r; contactor_state := contactor_state r; fan1_state :=
  fan1_state r; fan2_state := fan2_state r; fan3_state := fan3_state r; fan4_state := fan4_state r
  |}.
Definition set_over_voltage (v : bool) (r : bmu_state_t) : bmu_state_t :=
  {| over_current := over_current r; under_voltage := under_voltage r; over_voltage := v;
  under_temperature := under_temperature r; over_temperature := over_temperature r; safe_to_drive :=
  safe_to_drive r; charging_state := charging_state r; precharge_state := precharge_state r;
  discharge_state := discharge_state r; contactor_state := contactor_state r; fan1_state :=
  fan1_state r; fan2_state := fan2_state r; fan3_state := fan3_state r; fan4_state := fan4_state r
  |}.
Definition set_under_temperature (v : bool) (r : bmu_state_t) : bmu_state_t :=
  {| over_current := over_current r; under_voltage := under_voltage r; over_voltage := over_voltage
  r; under_temperature := v; over_temperature := over_temperature r; safe_to_drive := safe_to_drive
  r; charging_state := charging_state r; precharge_state := precharge_state r; discharge_state :=
  discharge_state r; contactor_state := contactor_state r; fan1_state := fan1_state r; fan2_state :=
  fan2_state r; fan3_state := fan3_state r; fan4_state := fan4_state r |}.
Definition set_over_temperature (v : bool) (r : bmu_state_t) : bmu_state_t :=
  {| over_current := over_current r; under_voltage := under_voltage r; over_voltage := over_voltage
  r; under_temperature := under_temperature r; over_temperature := v; safe_to_drive := safe_to_drive
  r; charging_state := charging_state r; precharge_state := precharge_state r; discharge_state :=
  discharge_state r; contactor_state := contactor_state r; fan1_state := fan1_state r; fan2_state :=
  fan2_state r; fan3_state := fan3_state r; fan4_state := fan4_state r |}.
Definition set_safe_to_drive (v : bool) (r : bmu_state_t) : bmu_state_t :=
  {| over_current := over_current r; under_voltage := under_voltage r; over_voltage := over_voltage
  r; under_temperature := under_temperature r; over_temperature := over_temperature r; safe_to_drive
  := v; charging_state := charging_state r; precharge_state := precharge_state r; discharge_state :=
  discharge_state r; contactor_state := contactor_state r; fan1_state := fan1_state r; fan2_state :=
  fan2_state r; fan3_state := fan3_state r; fan4_state := fan4_state r |}.
Definition set_charging_state (v : bool) (r : bmu_state_t) : bmu_state_t :=
  {| over_current := over_current r; under_voltage := under_voltage r; over_voltage := over_voltage
  r; under_temperature := under_temperature r; over_temperature := over_temperature r; safe_to_drive
  := safe_to_drive r; charging_state := v; precharge_state := precharge_state r; discharge_state :=
  discharge_state r; contactor_state := contactor_state r; fan1_state := fan1_state r; fan2_state :=
  fan2_state r; fan3_state := fan3_state r; fan4_state := fan4_state r |}.
Definition set_precharge_state (v : bool) (r : bmu_state_t) : bmu_state_t :=
  {| over_current := over_current r; under_voltage := under_voltage r; over_voltage := over_voltage
  r; under_temperature := under_temperature r; over_temperature := over_temperature r; safe_to_drive
  := safe_to_drive r; charging_state := charging_state r; precharge_state := v; discharge_state :=
  discharge_state r; contactor_state := contactor_state r; fan1_state := fan1_state r; fan2_state :=
  fan2_state r; fan3_state := fan3_state r; fan4_state := fan4_state r |}.
Definition set_discharge_state (v : bool) (r : bmu_state_t) : bmu_state_t :=
  {| over_current := over_current r; under_voltage := under_voltage r; over_voltage := over_voltage
  r; under_temperature := under_temperature r; over_temperature := over_temperature r; safe_to_drive
  := safe_to_drive r; charging_state := charging_state r; precharge_state := precharge_state r;
  discharge_state := v; contactor_state := contactor_state r; fan1_state := fan1_state r; fan2_state
  := fan2_state r; fan3_state := fan3_state r; fan4_state := fan4_state r |}.

(** The digital outputs: relay drivers, indicator LEDs and the solar enable. *)
Record DigitalOuts := Build_DigitalOuts {
  prechg_enable : bool;
  dischg_disable : bool;
  hvdc_enable : bool;
  safe_indic : bool;
  contactor_indic : bool;
  solar_indic : bool;
  charge_indic : bool;
  solar_enable : bool
}.

Definition set_prechg_enable (v : bool) (r : DigitalOuts) : DigitalOuts :=
  {| prechg_enable := v; dischg_disable := dischg_disable r; hvdc_enable := hvdc_enable r;
  safe_indic := safe_indic r; contactor_indic := contactor_indic r; solar_indic := solar_indic r;
  charge_indic := charge_indic r; solar_enable := solar_enable r |}.
Definition set_dischg_disable (v : bool) (r : DigitalOuts) : DigitalOuts :=
  {| prechg_enable := prechg_enable r; dischg_disable := v; hvdc_enable := hvdc_enable r; safe_indic
  := safe_indic r; contactor_indic := contactor_indic r; solar_indic := solar_indic r; charge_indic
  := charge_indic r; solar_enable := solar_enable r |}.
Definition set_hvdc_enable (v : bool) (r : DigitalOuts) : DigitalOuts :=
  {| prechg_enable := prechg_enable r; dischg_disable := dischg_disable r; hvdc_enable := v;
  safe_indic := safe_indic r; contactor_indic := contactor_indic r; solar_indic := solar_indic r;
  charge_indic := charge_indic r; solar_enable := solar_enable r |}.
Definition set_safe_indic (v : bool) (r : DigitalOuts) : DigitalOuts :=
  {| prechg_enable := prechg_enable r; dischg_disable := dischg_disable r; hvdc_enable :=
  hvdc_enable r; safe_indic := v; contactor_indic := contactor_indic r; solar_indic := solar_indic
  r; charge_indic := charge_indic r; solar_enable := solar_enable r |}.
Definition set_contactor_indic (v : bool) (r : DigitalOuts) : DigitalOuts :=
  {| prechg_enable := prechg_enable r; dischg_disable := dischg_disable r; hvdc_enable :=
  hvdc_enable r; safe_indic := safe_indic r; contactor_indic := v; solar_indic := solar_indic r;
  charge_indic := charge_indic r; solar_enable := solar_enable r |}.
Definition set_solar_indic (v : bool) (r : DigitalOuts) : DigitalOuts :=
  {| prechg_enable := prechg_enable r; dischg_disable := dischg_disable r; hvdc_enable :=
  hvdc_enable r; safe_indic := safe_indic r; contactor_indic := contactor_indic r; solar_indic := v;
  charge_indic := charge_indic r; solar_enable := solar_enable r |}.
Definition set_charge_indic (v : bool) (r : DigitalOuts) : DigitalOuts :=
  {| prechg_enable := prechg_enable r; dischg_disable := dischg_disable r; hvdc_enable :=
  hvdc_enable r; safe_indic := safe_indic r; contactor_indic := contactor_indic r; solar_indic :=
  solar_indic r; charge_indic := v; solar_enable := solar_enable r |}.
Definition set_solar_enable (v : bool) (r : DigitalOuts) : DigitalOuts :=
  {| prechg_enable := prechg_enable r; dischg_disable := dischg_disable r; hvdc_enable :=
  hvdc_enable r; safe_indic := safe_indic r; contactor_indic := contactor_indic r; solar_indic :=
  solar_indic r; charge_indic := charge_indic r; solar_enable := v |}.

(** [BMU_status_array], six [char]s indexed by literals only. *)
Record status_bytes := Build_status_bytes {
  b0 : Z;
  b1 : Z;
  b2 : Z;
  b3 : Z;
  b4 : Z;
  b5 : Z
}.

Definition set_b0 (v : Z) (r : status_bytes) : status_bytes :=
  {| b0 := v; b1 := b1 r; b2 := b2 r; b3 := b3 r; b4 := b4 r; b5 := b5 r |}.
Definition set_b1 (v : Z) (r : status_bytes) : status_bytes :=
  {| b0 := b0 r; b1 := v; b2 := b2 r; b3 := b3 r; b4 := b4 r; b5 := b5 r |}.
Definition set_b2 (v : Z) (r : status_bytes) : status_bytes :=
  {| b0 := b0 r; b1 := b1 r; b2 := v; b3 := b3 r; b4 := b4 r; b5 := b5 r |}.
Definition set_b3 (v : Z) (r : status_bytes) : status_bytes :=
  {| b0 := b0 r; b1 := b1 r; b2 := b2 r; b3 := v; b4 := b4 r; b5 := b5 r |}.
Definition set_b4 (v : Z) (r : status_bytes) : status_bytes :=
  {| b0 := b0 r; b1 := b1 r; b2 := b2 r; b3 := b3 r; b4 := v; b5 := b5 r |}.
Definition set_b5 (v : Z) (r : status_bytes) : status_bytes :=
  {| b0 := b0 r; b1 := b1 r; b2 := b2 r; b3 := b3 r; b4 := b4 r; b5 := v |}.

(** The globals of [main.cpp], with the frames handed to the CAN peripheral
    ([can_tx], oldest first) and the interrupt sources attached so far. *)
Record State := Build_State {
  BMU : bmu_state_t;
  ivt_front : ivt_state_t;
  ivt_rear : ivt_state_t;
  pins : DigitalOuts;
  cell_voltages : list Z;
  cell_temperatures : list (list Z);
  temp_max_battery_pack_voltage_mv : Z;
  temp_min_battery_pack_voltage_mv : Z;
  IVT_timer : Timer;
  IVT_time : Z;
  CAN_data_sent : bool;
  heartbeat_flag : bool;
  error_flag : bool;
  over_voltage_flag : bool;
  under_voltage_flag : bool;
  over_temperature_flag : bool;
  under_temperature_flag : bool;
  ignition_demand : bool;
  previous_ignition_demand : bool;
  solar_demand : bool;
  currently_precharging : bool;
  currently_discharging : bool;
  contactor_array : Z;
  BMU_status_array : status_bytes;
  previous_status : Z;
  can_tx : list CANMessage.t;
  rx_irq_attached : bool;
  ticker_attached : bool
}.

Definition set_BMU (v : bmu_state_t) (r : State) : State :=
  {| BMU := v; ivt_front := ivt_front r; ivt_rear := ivt_rear r; pins := pins r; cell_voltages :=
  cell_voltages r; cell_temperatures := cell_temperatures r; temp_max_battery_pack_voltage_mv :=
  temp_max_battery_pack_voltage_mv r; temp_min_battery_pack_voltage_mv :=
  temp_min_battery_pack_voltage_mv r; IVT_timer := IVT_timer r; IVT_time := IVT_time r;
  CAN_data_sent := CAN_data_sent r; heartbeat_flag := heartbeat_flag r; error_flag := error_flag r;
  over_voltage_flag := over_voltage_flag r; under_voltage_flag := under_voltage_flag r;
  over_temperature_flag := over_temperature_flag r; under_temperature_flag := under_temperature_flag
  r; ignition_demand := ignition_demand r; previous_ignition_demand := previous_ignition_demand r;
  solar_demand := solar_demand r; currently_precharging := currently_precharging r;
  currently_discharging := currently_discharging r; contactor_array := contactor_array r;
  BMU_status_array := BMU_status_array r; previous_status := previous_status r; can_tx := can_tx r;
  rx_irq_attached := rx_irq_attached r; ticker_attached := ticker_attached r |}.
Definition set_ivt_front (v : ivt_state_t) (r : State) : State :=
  {| BMU := BMU r; ivt_front := v; ivt_rear := ivt_rear r; pins := pins r; cell_voltages :=
  cell_voltages r; cell_temperatures := cell_temperatures r; temp_max_battery_pack_voltage_mv :=
  temp_max_battery_pack_voltage_mv r; temp_min_battery_pack_voltage_mv :=
  temp_min_battery_pack_voltage_mv r; IVT_timer := IVT_timer r; IVT_time := IVT_time r;
  CAN_data_sent := CAN_data_sent r; heartbeat_flag := heartbeat_flag r; error_flag := error_flag r;
  over_voltage_flag := over_voltage_flag r; under_voltage_flag := under_voltage_flag r;
  over_temperature_flag := over_temperature_flag r; under_temperature_flag := under_temperature_flag
  r; ignition_demand := ignition_demand r; previous_ignition_demand := previous_ignition_demand r;
  solar_demand := solar_demand r; currently_precharging := currently_precharging r;
  currently_discharging := currently_discharging r; contactor_array := contactor_array r;
  BMU_status_array := BMU_status_array r; previous_status := previous_status r; can_tx := can_tx r;
  rx_irq_attached := rx_irq_attached r; ticker_attached := ticker_attached r |}.
Definition set_ivt_rear (v : ivt_state_t) (r : State) : State :=
  {| BMU := BMU r; ivt_front := ivt_front r; ivt_rear := v; pins := pins r; cell_voltages :=
  cell_voltages r; cell_temperatures := cell_temperatures r; temp_max_battery_pack_voltage_mv :=
  temp_max_battery_pack_voltage_mv r; temp_min_battery_pack_voltage_mv :=
  temp_min_battery_pack_voltage_mv r; IVT_timer := IVT_timer r; IVT_time := IVT_time r;
  CAN_data_sent := CAN_data_sent r; heartbeat_flag := heartbeat_flag r; error_flag := error_flag r;
  over_voltage_flag := over_voltage_flag r; under_voltage_flag := under_voltage_flag r;
  over_temperature_flag := over_temperature_flag r; under_temperature_flag := under_temperature_flag
  r; ignition_demand := ignition_demand r; previous_ignition_demand := previous_ignition_demand r;
  solar_demand := solar_demand r; currently_precharging := currently_precharging r;
  currently_discharging := currently_discharging r; contactor_array := contactor_array r;
  BMU_status_array := BMU_status_array r; previous_status := previous_status r; can_tx := can_tx r;
  rx_irq_attached := rx_irq_attached r; ticker_attached := ticker_attached r |}.
Definition set_pins (v : DigitalOuts) (r : State) : State :=
  {| BMU := BMU r; ivt_front := ivt_front r; ivt_rear := ivt_rear r; pins := v; cell_voltages :=
  cell_voltages r; cell_temperatures := cell_temperatures r; temp_max_battery_pack_voltage_mv :=
  temp_max_battery_pack_voltage_mv r; temp_min_battery_pack_voltage_mv :=
  temp_min_battery_pack_voltage_mv r; IVT_timer := IVT_timer r; IVT_time := IVT_time r;
  CAN_data_sent := CAN_data_sent r; heartbeat_flag := heartbeat_flag r; error_flag := error_flag r;
  over_voltage_flag := over_voltage_flag r; under_voltage_flag := under_voltage_flag r;
  over_temperature_flag := over_temperature_flag r; under_temperature_flag := under_temperature_flag
  r; ignition_demand := ignition_demand r; previous_ignition_demand := previous_ignition_demand r;
  solar_demand := solar_demand r; currently_precharging := currently_precharging r;
  currently_discharging := currently_discharging r; contactor_array := contactor_array r;
  BMU_status_array := BMU_status_array r; previous_status := previous_status r; can_tx := can_tx r;
  rx_irq_attached := rx_irq_attached r; ticker_attached := ticker_attached r |}.
Definition set_cell_voltages (v : list Z) (r : State) : State :=
  {| BMU := BMU r; ivt_front := ivt_front r; ivt_rear := ivt_rear r; pins := pins r; cell_voltages
  := v; cell_temperatures := cell_temperatures r; temp_max_battery_pack_voltage_mv :=
  temp_max_battery_pack_voltage_mv r; temp_min_battery_pack_voltage_mv :=
  temp_min_battery_pack_voltage_mv r; IVT_timer := IVT_timer r; IVT_time := IVT_time r;
  CAN_data_sent := CAN_data_sent r; heartbeat_flag := heartbeat_flag r; error_flag := error_flag r;
  over_voltage_flag := over_voltage_flag r; under_voltage_flag := under_voltage_flag r;
  over_temperature_flag := over_temperature_flag r; under_temperature_flag := under_temperature_flag
  r; ignition_demand := ignition_demand r; previous_ignition_demand := previous_ignition_demand r;
  solar_demand := solar_demand r; currently_precharging := currently_precharging r;
  currently_discharging := currently_discharging r; contactor_array := contactor_array r;
  BMU_status_array := BMU_status_array r; previous_status := previous_status r; can_tx := can_tx r;
  rx_irq_attached := rx_irq_attached r; ticker_attached := ticker_attached r |}.
Definition set_cell_temperatures (v : list (list Z)) (r : State) : State :=
  {| BMU := BMU r; ivt_front := ivt_front r; ivt_rear := ivt_rear r; pins := pins r; cell_voltages
  := cell_voltages r; cell_temperatures := v; temp_max_battery_pack_voltage_mv :=
  temp_max_battery_pack_voltage_mv r; temp_min_battery_pack_voltage_mv :=
  temp_min_battery_pack_voltage_mv r; IVT_timer := IVT_timer r; IVT_time := IVT_time r;
  CAN_data_sent := CAN_data_sent r; heartbeat_flag := heartbeat_flag r; error_flag := error_flag r;
  over_voltage_flag := over_voltage_flag r; under_voltage_flag := under_voltage_flag r;
  over_temperature_flag := over_temperature_flag r; under_temperature_flag := under_temperature_flag
  r; ignition_demand := ignition_demand r; previous_ignition_demand := previous_ignition_demand r;
  solar_demand := solar_demand r; currently_precharging := currently_precharging r;
  currently_discharging := currently_discharging r; contactor_array := contactor_array r;
  BMU_status_array := BMU_status_array r; previous_status := previous_status r; can_tx := can_tx r;
  rx_irq_attached := rx_irq_attached r; ticker_attached := ticker_attached r |}.
Definition set_temp_max_battery_pack_voltage_mv (v : Z) (r : State) : State :=
  {| BMU := BMU r; ivt_front := ivt_front r; ivt_rear := ivt_rear r; pins := pins r; cell_voltages
  := cell_voltages r; cell_temperatures := cell_temperatures r; temp_max_battery_pack_voltage_mv :=
  v; temp_min_battery_pack_voltage_mv := temp_min_battery_pack_voltage_mv r; IVT_timer := IVT_timer
  r; IVT_time := IVT_time r; CAN_data_sent := CAN_data_sent r; heartbeat_flag := heartbeat_flag r;
  error_flag := error_flag r; over_voltage_flag := over_voltage_flag r; under_voltage_flag :=
  under_voltage_flag r; over_temperature_flag := over_temperature_flag r; under_temperature_flag :=
  under_temperature_flag r; ignition_demand := ignition_demand r; previous_ignition_demand :=
  previous_ignition_demand r; solar_demand := solar_demand r; currently_precharging :=
  currently_precharging r; currently_discharging := currently_discharging r; contactor_array :=
  contactor_array r; BMU_status_array := BMU_status_array r; previous_status := previous_status r;
  can_tx := can_tx r; rx_irq_attached := rx_irq_attached r; ticker_attached := ticker_attached r |}.
Definition set_temp_min_battery_pack_voltage_mv (v : Z) (r : State) : State :=
  {| BMU := BMU r; ivt_front := ivt_front r; ivt_rear := ivt_rear r; pins := pins r; cell_voltages
  := cell_voltages r; cell_temperatures := cell_temperatures r; temp_max_battery_pack_voltage_mv :=
  temp_max_battery_pack_voltage_mv r; temp_min_battery_pack_voltage_mv := v; IVT_timer := IVT_timer
  r; IVT_time := IVT_time r; CAN_data_sent := CAN_data_sent r; heartbeat_flag := heartbeat_flag r;
  error_flag := error_flag r; over_voltage_flag := over_voltage_flag r; under_voltage_flag :=
  under_voltage_flag r; over_temperature_flag := over_temperature_flag r; under_temperature_flag :=
  under_temperature_flag r; ignition_demand := ignition_demand r; previous_ignition_demand :=
  previous_ignition_demand r; solar_demand := solar_demand r; currently_precharging :=
  currently_precharging r; currently_discharging := currently_discharging r; contactor_array :=
  contactor_array r; BMU_status_array := BMU_status_array r; previous_status := previous_status r;
  can_tx := can_tx r; rx_irq_attached := rx_irq_attached r; ticker_attached := ticker_attached r |}.
Definition set_IVT_timer (v : Timer) (r : State) : State :=
  {| BMU := BMU r; ivt_front := ivt_front r; ivt_rear := ivt_rear r; pins := pins r; cell_voltages
  := cell_voltages r; cell_temperatures := cell_temperatures r; temp_max_battery_pack_voltage_mv :=
  temp_max_battery_pack_voltage_mv r; temp_min_battery_pack_voltage_mv :=
  temp_min_battery_pack_voltage_mv r; IVT_timer := v; IVT_time := IVT_time r; CAN_data_sent :=
  CAN_data_sent r; heartbeat_flag := heartbeat_flag r; error_flag := error_flag r; over_voltage_flag
  := over_voltage_flag r; under_voltage_flag := under_voltage_flag r; over_temperature_flag :=
  over_temperature_flag r; under_temperature_flag := under_temperature_flag r; ignition_demand :=
  ignition_demand r; previous_ignition_demand := previous_ignition_demand r; solar_demand :=
  solar_demand r; currently_precharging := currently_precharging r; currently_discharging :=
  currently_discharging r; contactor_array := contactor_array r; BMU_status_array :=
  BMU_status_array r; previous_status := previous_status r; can_tx := can_tx r; rx_irq_attached :=
  rx_irq_attached r; ticker_attached := ticker_attached r |}.
Definition set_IVT_time (v : Z) (r : State) : State :=
  {| BMU := BMU r; ivt_front := ivt_front r; ivt_rear := ivt_rear r; pins := pins r; cell_voltages
  := cell_voltages r; cell_temperatures := cell_temperatures r; temp_max_battery_pack_voltage_mv :=
  temp_max_battery_pack_voltage_mv r; temp_min_battery_pack_voltage_mv :=
  temp_min_battery_pack_voltage_mv r; IVT_timer := IVT_timer r; IVT_time := v; CAN_data_sent :=
  CAN_data_sent r; heartbeat_flag := heartbeat_flag r; error_flag := error_flag r; over_voltage_flag
  := over_voltage_flag r; under_voltage_flag := under_voltage_flag r; over_temperature_flag :=
  over_temperature_flag r; under_temperature_flag := under_temperature_flag r; ignition_demand :=
  ignition_demand r; previous_ignition_demand := previous_ignition_demand r; solar_demand :=
  solar_demand r; currently_precharging := currently_precharging r; currently_discharging :=
  currently_discharging r; contactor_array := contactor_array r; BMU_status_array :=
  BMU_status_array r; previous_status := previous_status r; can_tx := can_tx r; rx_irq_attached :=
  rx_irq_attached r; ticker_attached := ticker_attached r |}.
Definition set_CAN_data_sent (v : bool) (r : State) : State :=
  {| BMU := BMU r; ivt_front := ivt_front r; ivt_rear := ivt_rear r; pins := pins r; cell_voltages
  := cell_voltages r; cell_temperatures := cell_temperatures r; temp_max_battery_pack_voltage_mv :=
  temp_max_battery_pack_voltage_mv r; temp_min_battery_pack_voltage_mv :=
  temp_min_battery_pack_voltage_mv r; IVT_timer := IVT_timer r; IVT_time := IVT_time r;
  CAN_data_sent := v; heartbeat_flag := heartbeat_flag r; error_flag := error_flag r;
  over_voltage_flag := over_voltage_flag r; under_voltage_flag := under_voltage_flag r;
  over_temperature_flag := over_temperature_flag r; under_temperature_flag := under_temperature_flag
  r; ignition_demand := ignition_demand r; previous_ignition_demand := previous_ignition_demand r;
  solar_demand := solar_demand r; currently_precharging := currently_precharging r;
  currently_discharging := currently_discharging r; contactor_array := contactor_array r;
  BMU_status_array := BMU_status_array r; previous_status := previous_status r; can_tx := can_tx r;
  rx_irq_attached := rx_irq_attached r; ticker_attached := ticker_attached r |}.
Definition set_heartbeat_flag (v : bool) (r : State) : State :=
  {| BMU := BMU r; ivt_front := ivt_front r; ivt_rear := ivt_rear r; pins := pins r; cell_voltages
  := cell_voltages r; cell_temperatures := cell_temperatures r; temp_max_battery_pack_voltage_mv :=
  temp_max_battery_pack_voltage_mv r; temp_min_battery_pack_voltage_mv :=
  temp_min_battery_pack_voltage_mv r; IVT_timer := IVT_timer r; IVT_time := IVT_time r;
  CAN_data_sent := CAN_data_sent r; heartbeat_flag := v; error_flag := error_flag r;
  over_voltage_flag := over_voltage_flag r; under_voltage_flag := under_voltage_flag r;
  over_temperature_flag := over_temperature_flag r; under_temperature_flag := under_temperature_flag
  r; ignition_demand := ignition_demand r; previous_ignition_demand := previous_ignition_demand r;
  solar_demand := solar_demand r; currently_precharging := currently_precharging r;
  currently_discharging := currently_discharging r; contactor_array := contactor_array r;
  BMU_status_array := BMU_status_array r; previous_status := previous_status r; can_tx := can_tx r;
  rx_irq_attached := rx_irq_attached r; ticker_attached := ticker_attached r |}.
Definition set_error_flag (v : bool) (r : State) : State :=
  {| BMU := BMU r; ivt_front := ivt_front r; ivt_rear := ivt_rear r; pins := pins r; cell_voltages
  := cell_voltages r; cell_temperatures := cell_temperatures r; temp_max_battery_pack_voltage_mv :=
  temp_max_battery_pack_voltage_mv r; temp_min_battery_pack_voltage_mv :=
  temp_min_battery_pack_voltage_mv r; IVT_timer := IVT_timer r; IVT_time := IVT_time r;
  CAN_data_sent := CAN_data_sent r; heartbeat_flag := heartbeat_flag r; error_flag := v;
  over_voltage_flag := over_voltage_flag r; under_voltage_flag := under_voltage_flag r;
  over_temperature_flag := over_temperature_flag r; under_temperature_flag := under_temperature_flag
  r; ignition_demand := ignition_demand r; previous_ignition_demand := previous_ignition_demand r;
  solar_demand := solar_demand r; currently_precharging := currently_precharging r;
  currently_discharging := currently_discharging r; contactor_array := contactor_array r;
  BMU_status_array := BMU_status_array r; previous_status := previous_status r; can_tx := can_tx r;
  rx_irq_attached := rx_irq_attached r; ticker_attached := ticker_attached r |}.
Definition set_over_voltage_flag (v : bool) (r : State) : State :=
  {| BMU := BMU r; ivt_front := ivt_front r; ivt_rear := ivt_rear r; pins := pins r; cell_voltages
  := cell_voltages r; cell_temperatures := cell_temperatures r; temp_max_battery_pack_voltage_mv :=
  temp_max_battery_pack_voltage_mv r; temp_min_battery_pack_voltage_mv :=
  temp_min_battery_pack_voltage_mv r; IVT_timer := IVT_timer r; IVT_time := IVT_time r;
  CAN_data_sent := CAN_data_sent r; heartbeat_flag := heartbeat_flag r; error_flag := error_flag r;
  over_voltage_flag := v; under_voltage_flag := under_voltage_flag r; over_temperature_flag :=
  over_temperature_flag r; under_temperature_flag := under_temperature_flag r; ignition_demand :=
  ignition_demand r; previous_ignition_demand := previous_ignition_demand r; solar_demand :=
  solar_demand r; currently_precharging := currently_precharging r; currently_discharging :=
  currently_discharging r; contactor_array := contactor_array r; BMU_status_array :=
  BMU_status_array r; previous_status := previous_status r; can_tx := can_tx r; rx_irq_attached :=
  rx_irq_attached r; ticker_attached := ticker_attached r |}.
Definition set_under_voltage_flag (v : bool) (r : State) : State :=
  {| BMU := BMU r; ivt_front := ivt_front r; ivt_rear := ivt_rear r; pins := pins r; cell_voltages
  := cell_voltages r; cell_temperatures := cell_temperatures r; temp_max_battery_pack_voltage_mv :=
  temp_max_battery_pack_voltage_mv r; temp_min_battery_pack_voltage_mv :=
  temp_min_battery_pack_voltage_mv r; IVT_timer := IVT_timer r; IVT_time := IVT_time r;
  CAN_data_sent := CAN_data_sent r; heartbeat_flag := heartbeat_flag r; error_flag := error_flag r;
  over_voltage_flag := over_voltage_flag r; under_voltage_flag := v; over_temperature_flag :=
  over_temperature_flag r; under_temperature_flag := under_temperature_flag r; ignition_demand :=
  ignition_demand r; previous_ignition_demand := previous_ignition_demand r; solar_demand :=
  solar_demand r; currently_precharging := currently_precharging r; currently_discharging :=
  currently_discharging r; contactor_array := contactor_array r; BMU_status_array :=
  BMU_status_array r; previous_status := previous_status r; can_tx := can_tx r; rx_irq_attached :=
  rx_irq_attached r; ticker_attached := ticker_attached r |}.
Definition set_over_temperature_flag (v : bool) (r : State) : State :=
  {| BMU := BMU r; ivt_front := ivt_front r; ivt_rear := ivt_rear r; pins := pins r; cell_voltages
  := cell_voltages r; cell_temperatures := cell_temperatures r; temp_max_battery_pack_voltage_mv :=
  temp_max_battery_pack_voltage_mv r; temp_min_battery_pack_voltage_mv :=
  temp_min_battery_pack_voltage_mv r; IVT_timer := IVT_timer r; IVT_time := IVT_time r;
  CAN_data_sent := CAN_data_sent r; heartbeat_flag := heartbeat_flag r; error_flag := error_flag r;
  over_voltage_flag := over_voltage_flag r; under_voltage_flag := under_voltage_flag r;
  over_temperature_flag := v; under_temperature_flag := under_temperature_flag r; ignition_demand :=
  ignition_demand r; previous_ignition_demand := previous_ignition_demand r; solar_demand :=
  solar_demand r; currently_precharging := currently_precharging r; currently_discharging :=
  currently_discharging r; contactor_array := contactor_array r; BMU_status_array :=
  BMU_status_array r; previous_status := previous_status r; can_tx := can_tx r; rx_irq_attached :=
  rx_irq_attached r; ticker_attached := ticker_attached r |}.
Definition set_under_temperature_flag (v : bool) (r : State) : State :=
  {| BMU := BMU r; ivt_front := ivt_front r; ivt_rear := ivt_rear r; pins := pins r; cell_voltages
  := cell_voltages r; cell_temperatures := cell_temperatures r; temp_max_battery_pack_voltage_mv :=
  temp_max_battery_pack_voltage_mv r; temp_min_battery_pack_voltage_mv :=
  temp_min_battery_pack_voltage_mv r; IVT_timer := IVT_timer r; IVT_time := IVT_time r;
  CAN_data_sent := CAN_data_sent r; heartbeat_flag := heartbeat_flag r; error_flag := error_flag r;
  over_voltage_flag := over_voltage_flag r; under_voltage_flag := under_voltage_flag r;
  over_temperature_flag := over_temperature_flag r; under_temperature_flag := v; ignition_demand :=
  ignition_demand r; previous_ignition_demand := previous_ignition_demand r; solar_demand :=
  solar_demand r; currently_precharging := currently_precharging r; currently_discharging :=
  currently_discharging r; contactor_array := contactor_array r; BMU_status_array :=
  BMU_status_array r; previous_status := previous_status r; can_tx := can_tx r; rx_irq_attached :=
  rx_irq_attached r; ticker_attached := ticker_attached r |}.
Definition set_ignition_demand (v : bool) (r : State) : State :=
  {| BMU := BMU r; ivt_front := ivt_front r; ivt_rear := ivt_rear r; pins := pins r; cell_voltages
  := cell_voltages r; cell_temperatures := cell_temperatures r; temp_max_battery_pack_voltage_mv :=
  temp_max_battery_pack_voltage_mv r; temp_min_battery_pack_voltage_mv :=
  temp_min_battery_pack_voltage_mv r; IVT_timer := IVT_timer r; IVT_time := IVT_time r;
  CAN_data_sent := CAN_data_sent r; heartbeat_flag := heartbeat_flag r; error_flag := error_flag r;
  over_voltage_flag := over_voltage_flag r; under_voltage_flag := under_voltage_flag r;
  over_temperature_flag := over_temperature_flag r; under_temperature_flag := under_temperature_flag
  r; ignition_demand := v; previous_ignition_demand := previous_ignition_demand r; solar_demand :=
  solar_demand r; currently_precharging := currently_precharging r; currently_discharging :=
  currently_discharging r; contactor_array := contactor_array r; BMU_status_array :=
  BMU_status_array r; previous_status := previous_status r; can_tx := can_tx r; rx_irq_attached :=
  rx_irq_attached r; ticker_attached := ticker_attached r |}.
Definition set_previous_ignition_demand (v : bool) (r : State) : State :=
  {| BMU := BMU r; ivt_front := ivt_front r; ivt_rear := ivt_rear r; pins := pins r; cell_voltages
  := cell_voltages r; cell_temperatures := cell_temperatures r; temp_max_battery_pack_voltage_mv :=
  temp_max_battery_pack_voltage_mv r; temp_min_battery_pack_voltage_mv :=
  temp_min_battery_pack_voltage_mv r; IVT_timer := IVT_timer r; IVT_time := IVT_time r;
  CAN_data_sent := CAN_data_sent r; heartbeat_flag := heartbeat_flag r; error_flag := error_flag r;
  over_voltage_flag := over_voltage_flag r; under_voltage_flag := under_voltage_flag r;
  over_temperature_flag := over_temperature_flag r; under_temperature_flag := under_temperature_flag
  r; ignition_demand := ignition_demand r; previous_ignition_demand := v; solar_demand :=
  solar_demand r; currently_precharging := currently_precharging r; currently_discharging :=
  currently_discharging r; contactor_array := contactor_array r; BMU_status_array :=
  BMU_status_array r; previous_status := previous_status r; can_tx := can_tx r; rx_irq_attached :=
  rx_irq_attached r; ticker_attached := ticker_attached r |}.
Definition set_solar_demand (v : bool) (r : State) : State :=
  {| BMU := BMU r; ivt_front := ivt_front r; ivt_rear := ivt_rear r; pins := pins r; cell_voltages
  := cell_voltages r; cell_temperatures := cell_temperatures r; temp_max_battery_pack_voltage_mv :=
  temp_max_battery_pack_voltage_mv r; temp_min_battery_pack_voltage_mv :=
  temp_min_battery_pack_voltage_mv r; IVT_timer := IVT_timer r; IVT_time := IVT_time r;
  CAN_data_sent := CAN_data_sent r; heartbeat_flag := heartbeat_flag r; error_flag := error_flag r;
  over_voltage_flag := over_voltage_flag r; under_voltage_flag := under_voltage_flag r;
  over_temperature_flag := over_temperature_flag r; under_temperature_flag := under_temperature_flag
  r; ignition_demand := ignition_demand r; previous_ignition_demand := previous_ignition_demand r;
  solar_demand := v; currently_precharging := currently_precharging r; currently_discharging :=
  currently_discharging r; contactor_array := contactor_array r; BMU_status_array :=
  BMU_status_array r; previous_status := previous_status r; can_tx := can_tx r; rx_irq_attached :=
  rx_irq_attached r; ticker_attached := ticker_attached r |}.
Definition set_currently_precharging (v : bool) (r : State) : State :=
  {| BMU := BMU r; ivt_front := ivt_front r; ivt_rear := ivt_rear r; pins := pins r; cell_voltages
  := cell_voltages r; cell_temperatures := cell_temperatures r; temp_max_battery_pack_voltage_mv :=
  temp_max_battery_pack_voltage_mv r; temp_min_battery_pack_voltage_mv :=
  temp_min_battery_pack_voltage_mv r; IVT_timer := IVT_timer r; IVT_time := IVT_time r;
  CAN_data_sent := CAN_data_sent r; heartbeat_flag := heartbeat_flag r; error_flag := error_flag r;
  over_voltage_flag := over_voltage_flag r; under_voltage_flag := under_voltage_flag r;
  over_temperature_flag := over_temperature_flag r; under_temperature_flag := under_temperature_flag
  r; ignition_demand := ignition_demand r; previous_ignition_demand := previous_ignition_demand r;
  solar_demand := solar_demand r; currently_precharging := v; currently_discharging :=
  currently_discharging r; contactor_array := contactor_array r; BMU_status_array :=
  BMU_status_array r; previous_status := previous_status r; can_tx := can_tx r; rx_irq_attached :=
  rx_irq_attached r; ticker_attached := ticker_attached r |}.
Definition set_currently_discharging (v : bool) (r : State) : State :=
  {| BMU := BMU r; ivt_front := ivt_front r; ivt_rear := ivt_rear r; pins := pins r; cell_voltages
  := cell_voltages r; cell_temperatures := cell_temperatures r; temp_max_battery_pack_voltage_mv :=
  temp_max_battery_pack_voltage_mv r; temp_min_battery_pack_voltage_mv :=
  temp_min_battery_pack_voltage_mv r; IVT_timer := IVT_timer r; IVT_time := IVT_time r;
  CAN_data_sent := CAN_data_sent r; heartbeat_flag := heartbeat_flag r; error_flag := error_flag r;
  over_voltage_flag := over_voltage_flag r; under_voltage_flag := under_voltage_flag r;
  over_temperature_flag := over_temperature_flag r; under_temperature_flag := under_temperature_flag
  r; ignition_demand := ignition_demand r; previous_ignition_demand := previous_ignition_demand r;
  solar_demand := solar_demand r; currently_precharging := currently_precharging r;
  currently_discharging := v; contactor_array := contactor_array r; BMU_status_array :=
  BMU_status_array r; previous_status := previous_status r; can_tx := can_tx r; rx_irq_attached :=
  rx_irq_attached r; ticker_attached := ticker_attached r |}.
Definition set_contactor_array (v : Z) (r : State) : State :=
  {| BMU := BMU r; ivt_front := ivt_front r; ivt_rear := ivt_rear r; pins := pins r; cell_voltages
  := cell_voltages r; cell_temperatures := cell_temperatures r; temp_max_battery_pack_voltage_mv :=
  temp_max_battery_pack_voltage_mv r; temp_min_battery_pack_voltage_mv :=
  temp_min_battery_pack_voltage_mv r; IVT_timer := IVT_timer r; IVT_time := IVT_time r;
  CAN_data_sent := CAN_data_sent r; heartbeat_flag := heartbeat_flag r; error_flag := error_flag r;
  over_voltage_flag := over_voltage_flag r; under_voltage_flag := under_voltage_flag r;
  over_temperature_flag := over_temperature_flag r; under_temperature_flag := under_temperature_flag
  r; ignition_demand := ignition_demand r; previous_ignition_demand := previous_ignition_demand r;
  solar_demand := solar_demand r; currently_precharging := currently_precharging r;
  currently_discharging := currently_discharging r; contactor_array := v; BMU_status_array :=
  BMU_status_array r; previous_status := previous_status r; can_tx := can_tx r; rx_irq_attached :=
  rx_irq_attached r; ticker_attached := ticker_attached r |}.
Definition set_BMU_status_array (v : status_bytes) (r : State) : State :=
  {| BMU := BMU r; ivt_front := ivt_front r; ivt_rear := ivt_rear r; pins := pins r; cell_voltages
  := cell_voltages r; cell_temperatures := cell_temperatures r; temp_max_battery_pack_voltage_mv :=
  temp_max_battery_pack_voltage_mv r; temp_min_battery_pack_voltage_mv :=
  temp_min_battery_pack_voltage_mv r; IVT_timer := IVT_timer r; IVT_time := IVT_time r;
  CAN_data_sent := CAN_data_sent r; heartbeat_flag := heartbeat_flag r; error_flag := error_flag r;
  over_voltage_flag := over_voltage_flag r; under_voltage_flag := under_voltage_flag r;
  over_temperature_flag := over_temperature_flag r; under_temperature_flag := under_temperature_flag
  r; ignition_demand := ignition_demand r; previous_ignition_demand := previous_ignition_demand r;
  solar_demand := solar_demand r; currently_precharging := currently_precharging r;
  currently_discharging := currently_discharging r; contactor_array := contactor_array r;
  BMU_status_array := v; previous_status := previous_status r; can_tx := can_tx r; rx_irq_attached
  := rx_irq_attached r; ticker_attached := ticker_attached r |}.
Definition set_previous_status (v : Z) (r : State) : State :=
  {| BMU := BMU r; ivt_front := ivt_front r; ivt_rear := ivt_rear r; pins := pins r; cell_voltages
  := cell_voltages r; cell_temperatures := cell_temperatures r; temp_max_battery_pack_voltage_mv :=
  temp_max_battery_pack_voltage_mv r; temp_min_battery_pack_voltage_mv :=
  temp_min_battery_pack_voltage_mv r; IVT_timer := IVT_timer r; IVT_time := IVT_time r;
  CAN_data_sent := CAN_data_sent r; heartbeat_flag := heartbeat_flag r; error_flag := error_flag r;
  over_voltage_flag := over_voltage_flag r; under_voltage_flag := under_voltage_flag r;
  over_temperature_flag := over_temperature_flag r; under_temperature_flag := under_temperature_flag
  r; ignition_demand := ignition_demand r; previous_ignition_demand := previous_ignition_demand r;
  solar_demand := solar_demand r; currently_precharging := currently_precharging r;
  currently_discharging := currently_discharging r; contactor_array := contactor_array r;
  BMU_status_array := BMU_status_array r; previous_status := v; can_tx := can_tx r; rx_irq_attached
  := rx_irq_attached r; ticker_attached := ticker_attached r |}.
Definition set_can_tx (v : list CANMessage.t) (r : State) : State :=
  {| BMU := BMU r; ivt_front := ivt_front r; ivt_rear := ivt_rear r; pins := pins r; cell_voltages
  := cell_voltages r; cell_temperatures := cell_temperatures r; temp_max_battery_pack_voltage_mv :=
  temp_max_battery_pack_voltage_mv r; temp_min_battery_pack_voltage_mv :=
  temp_min_battery_pack_voltage_mv r; IVT_timer := IVT_timer r; IVT_time := IVT_time r;
  CAN_data_sent := CAN_data_sent r; heartbeat_flag := heartbeat_flag r; error_flag := error_flag r;
  over_voltage_flag := over_voltage_flag r; under_voltage_flag := under_voltage_flag r;
  over_temperature_flag := over_temperature_flag r; under_temperature_flag := under_temperature_flag
  r; ignition_demand := ignition_demand r; previous_ignition_demand := previous_ignition_demand r;
  solar_demand := solar_demand r; currently_precharging := currently_precharging r;
  currently_discharging := currently_discharging r; contactor_array := contactor_array r;
  BMU_status_array := BMU_status_array r; previous_status := previous_status r; can_tx := v;
  rx_irq_attached := rx_irq_attached r; ticker_attached := ticker_attached r |}.
Definition set_rx_irq_attached (v : bool) (r : State) : State :=
  {| BMU := BMU r; ivt_front := ivt_front r; ivt_rear := ivt_rear r; pins := pins r; cell_voltages
  := cell_voltages r; cell_temperatures := cell_temperatures r; temp_max_battery_pack_voltage_mv :=
  temp_max_battery_pack_voltage_mv r; temp_min_battery_pack_voltage_mv :=
  temp_min_battery_pack_voltage_mv r; IVT_timer := IVT_timer r; IVT_time := IVT_time r;
  CAN_data_sent := CAN_data_sent r; heartbeat_flag := heartbeat_flag r; error_flag := error_flag r;
  over_voltage_flag := over_voltage_flag r; under_voltage_flag := under_voltage_flag r;
  over_temperature_flag := over_temperature_flag r; under_temperature_flag := under_temperature_flag
  r; ignition_demand := ignition_demand r; previous_ignition_demand := previous_ignition_demand r;
  solar_demand := solar_demand r; currently_precharging := currently_precharging r;
  currently_discharging := currently_discharging r; contactor_array := contactor_array r;
  BMU_status_array := BMU_status_array r; previous_status := previous_status r; can_tx := can_tx r;
  rx_irq_attached := v; ticker_attached := ticker_attached r |}.
Definition set_ticker_attached (v : bool) (r : State) : State :=
  {| BMU := BMU r; ivt_front := ivt_front r; ivt_rear := ivt_rear r; pins := pins r; cell_voltages
  := cell_voltages r; cell_temperatures := cell_temperatures r; temp_max_battery_pack_voltage_mv :=
  temp_max_battery_pack_voltage_mv r; temp_min_battery_pack_voltage_mv :=
  temp_min_battery_pack_voltage_mv r; IVT_timer := IVT_timer r; IVT_time := IVT_time r;
  CAN_data_sent := CAN_data_sent r; heartbeat_flag := heartbeat_flag r; error_flag := error_flag r;
  over_voltage_flag := over_voltage_flag r; under_voltage_flag := under_voltage_flag r;
  over_temperature_flag := over_temperature_flag r; under_temperature_flag := under_temperature_flag
  r; ignition_demand := ignition_demand r; previous_ignition_demand := previous_ignition_demand r;
  solar_demand := solar_demand r; currently_precharging := currently_precharging r;
  currently_discharging := currently_discharging r; contactor_array := contactor_array r;
  BMU_status_array := BMU_status_array r; previous_status := previous_status r; can_tx := can_tx r;
  rx_irq_attached := rx_irq_attached r; ticker_attached := v |}.

Definition upd_BMU (f : bmu_state_t -> bmu_state_t) (s : State) : State := set_BMU (f (BMU s)) s.
Definition upd_ivt_front (f : ivt_state_t -> ivt_state_t) (s : State) : State :=
  set_ivt_front (f (ivt_front s)) s.
Definition upd_ivt_rear (f : ivt_state_t -> ivt_state_t) (s : State) : State :=
  set_ivt_rear (f (ivt_rear s)) s.
Definition upd_pins (f : DigitalOuts -> DigitalOuts) (s : State) : State := set_pins (f (pins s)) s.
Definition upd_status (f : status_bytes -> status_bytes) (s : State) : State :=
  set_BMU_status_array (f (BMU_status_array s)) s.
Definition upd_IVT_timer (f : Timer -> Timer) (s : State) : State :=
  set_IVT_timer (f (IVT_timer s)) s.

(** Statements are state transformers; [f >=> g] runs [f] then [g]. *)
Definition stmt := State -> State.
Definition seq (f g : stmt) : stmt := fun s => g (f s).
Definition ite (c : State -> bool) (f g : stmt) : stmt := fun s => if c s then f s else g s.
Definition when (c : State -> bool) (f : stmt) : stmt := fun s => if c s then f s else s.
Definition skip : stmt := fun s => s.

Notation "f >=> g" := (seq f g) (at level 61, left associativity).

(** ** Constants of the firmware *)

Definition MAX_DISCHARGE_MAH : Z := 100000.
Definition MAX_CHARGE_MAH : Z := -100000.
Definition MAX_BATTERY_PACK_VOTAGE_MV : Z := 67040.
Definition MIN_BATTERY_PACK_VOLTAGE_MV : Z := 48000.
Definition BATTERY_PACK_VOLTAGE_HYSTERESIS : Z := 160.
Definition MAX_IVT_TEMPERATURE : Z := 75.
Definition MIN_IVT_TEMPERATURE : Z := 2.
Definition IVT_TEMPERATURE_HYSTERESIS : Z := 1.
Definition CAN_TIMEOUT_MS : Z := 100.
Definition IVT_TIMEOUT_MS : Z := 1000.

Definition BMU_CAN_ID : Z := 0x400.
Definition DRIVER_CONTROLS_ID : Z := 0x500.
Definition CELL_VOLTAGES_BASE_ID : Z := 0x360.

Definition max_battery_pack_voltage_mv : Z := MAX_BATTERY_PACK_VOTAGE_MV.
Definition min_battery_pack_voltage_mv : Z := MIN_BATTERY_PACK_VOLTAGE_MV.
Definition battery_pack_hysteresis : Z := BATTERY_PACK_VOLTAGE_HYSTERESIS.
Definition max_current : Z := MAX_DISCHARGE_MAH.
Definition max_charging_current : Z := MAX_CHARGE_MAH.

(** The IVT configuration frames, all sent to 0x411. *)
Definition stop_msg := CANMessage.mk 0x411 [0x34; 0x00; 0x00; 0x00; 0x00] 5.
Definition start_msg := CANMessage.mk 0x411 [0x34; 0x01; 0x01; 0x00; 0x00] 5.
Definition current_setup_msg := CANMessage.mk 0x411 [0x20; 0x02; 0x00; 0x19] 4.
Definition voltage1_setup_msg := CANMessage.mk 0x411 [0x21; 0x02; 0x03; 0xE8] 4.
Definition voltage2_setup_msg := CANMessage.mk 0x411 [0x22; 0x00; 0x03; 0xE8] 4.
Definition voltage3_setup_msg := CANMessage.mk 0x411 [0x23; 0x00; 0x03; 0xE8] 4.
Definition temperature_setup_msg := CANMessage.mk 0x411 [0x24; 0x02; 0x03; 0xE8] 4.
Definition charge_setup_msg := CANMessage.mk 0x411 [0x25; 0x02; 0x03; 0xE8] 4.
Definition power_setup_msg := CANMessage.mk 0x411 [0x26; 0x02; 0x03; 0xE8] 4.
Definition energy_setup_msg := CANMessage.mk 0x411 [0x27; 0x02; 0x03; 0xE8] 4.

(** ** Helpers of [main.cpp] *)

Definition ivt_max_current (s : State) : Z :=
  if current (ivt_front s) >? current (ivt_rear s)
  then current (ivt_front s) else current (ivt_rear s).

(** As in the source, the comparison is the one of [ivt_max_current]. *)
Definition ivt_min_current (s : State) : Z :=
  if current (ivt_front s) >? current (ivt_rear s)
  then current (ivt_front s) else current (ivt_rear s).

Definition ivt_max_voltage1 (s : State) : Z :=
  if voltage1 (ivt_front s) >? voltage1 (ivt_rear s)
  then voltage1 (ivt_front s) else voltage1 (ivt_rear s).

Definition ivt_min_voltage1 (s : State) : Z :=
  if voltage1 (ivt_front s) <? voltage1 (ivt_rear s)
  then voltage1 (ivt_front s) else voltage1 (ivt_rear s).

(** [wait_us(n)]: a busy delay; the only clock of the model is [IVT_timer]. *)
Definition wait_us (n : Z) : stmt := upd_IVT_timer (timer_advance n).

(** [can_send(msg)]: the frame is handed to the peripheral and the routine
    waits, for at most [CAN_TIMEOUT_MS], for [CANDataSentCallback] to set
    [CAN_data_sent].  The frame is recorded in [can_tx]; the flag is set by
    the transmit-complete event.  No caller reads the returned boolean. *)
Definition can_send (msg : CANMessage.t) : stmt :=
  set_CAN_data_sent false >=> (fun s => set_can_tx (can_tx s ++ [msg]) s).

Definition CANDataSentCallback : stmt := set_CAN_data_sent true.

Definition set_heartbeat_flag_isr : stmt := set_heartbeat_flag true.

Definition config_IVT : stmt :=
  can_send stop_msg >=> wait_us 50 >=>
  can_send current_setup_msg >=> wait_us 50 >=>
  can_send voltage1_setup_msg >=> wait_us 50 >=>
  can_send voltage2_setup_msg >=> wait_us 50 >=>
  can_send voltage3_setup_msg >=> wait_us 50 >=>
  can_send temperature_setup_msg >=> wait_us 50 >=>
  can_send charge_setup_msg >=> wait_us 50 >=>
  can_send power_setup_msg >=> wait_us 50 >=>
  can_send energy_setup_msg >=> wait_us 50 >=>
  can_send start_msg >=> wait_us 50.

(** ** The CAN receive interrupt routine *)

(** [(data[5]) | (data[4] << 8) | (data[3] << 16) | (data[2] << 24)] as [int]. *)
Definition ivt_word (d : list Z) : option Z :=
  d2 ← array_load d 2; d3 ← array_load d 3; d4 ← array_load d 4; d5 ← array_load d 5;
  Some (to_int32 (Z.lor (Z.lor (Z.lor d5 (Z.shiftl d4 8)) (Z.shiftl d3 16)) (Z.shiftl d2 24))).

(** The freshness bookkeeping of the two current frames. *)
Definition ivt_timer_snapshot : stmt :=
  upd_IVT_timer timer_stop >=>
  (fun s => set_IVT_time (to_ulong (elapsed_ms (IVT_timer s))) s) >=>
  upd_IVT_timer timer_reset >=>
  upd_IVT_timer timer_start.

(** One iteration of the cell-voltage loop of frames 0x360..0x367. *)
Definition cell_voltage_body (msg : CANMessage.t) (i : Z) (s : State) : option State :=
  let index := to_int32 ((CANMessage.id msg - CELL_VOLTAGES_BASE_ID) * 4 + i) in
  lo ← array_load (CANMessage.data msg) (i * 2);
  hi ← array_load (CANMessage.data msg) (i * 2 + 1);
  cv ← array_store (cell_voltages s) index (to_uint16 (Z.lor lo (Z.shiftl hi 8)));
  Some (set_cell_voltages cv s).

(** One iteration of the loops of frames 0x550 (row 0) and 0x562 (row 1). *)
Definition cell_temperature_body (msg : CANMessage.t) (row : Z) (i : Z) (s : State)
  : option State :=
  b ← array_load (CANMessage.data msg) i;
  r ← array_load (cell_temperatures s) row;
  r' ← array_store r i b;
  ct ← array_store (cell_temperatures s) row r';
  Some (set_cell_temperatures ct s).

Definition driver_controls (d0 : Z) : stmt :=
  let ig := negb (Z.land d0 0x01 =? 0) in
  when (fun s => negb (eqb (ignition_demand s) ig))
       ((fun s => set_previous_ignition_demand (ignition_demand s) s) >=> set_ignition_demand ig) >=>
  set_solar_demand (negb (Z.land d0 0x08 =? 0)).

Definition CANRecieveRoutine (msg : CANMessage.t) (s : State) : option State :=
  let id := CANMessage.id msg in
  let d := CANMessage.data msg in
  if (CELL_VOLTAGES_BASE_ID <=? id) && (id <=? CELL_VOLTAGES_BASE_ID + 0x7) then
    for_loop 4 0 (cell_voltage_body msg) s
  else if id =? DRIVER_CONTROLS_ID then
    d0 ← array_load d 0; Some (driver_controls d0 s)
  else if id =? 0x520 then
    w ← ivt_word d; Some ((upd_ivt_front (set_current w) >=> ivt_timer_snapshot) s)
  else if id =? 0x521 then w ← ivt_word d; Some (upd_ivt_front (set_voltage1 w) s)
  else if (0x522 <=? id) && (id <=? 0x523) then Some (config_IVT s)
  else if id =? 0x524 then w ← ivt_word d; Some (upd_ivt_front (set_temperature w) s)
  else if id =? 0x525 then w ← ivt_word d; Some (upd_ivt_front (set_power w) s)
  else if id =? 0x526 then w ← ivt_word d; Some (upd_ivt_front (set_charge w) s)
  else if id =? 0x527 then w ← ivt_word d; Some (upd_ivt_front (set_energy w) s)
  else if id =? 0x530 then
    w ← ivt_word d; Some ((upd_ivt_rear (set_current w) >=> ivt_timer_snapshot) s)
  else if id =? 0x531 then w ← ivt_word d; Some (upd_ivt_rear (set_voltage1 w) s)
  else if (0x532 <=? id) && (id <=? 0x533) then Some (config_IVT s)
  else if id =? 0x534 then w ← ivt_word d; Some (upd_ivt_rear (set_temperature w) s)
  else if id =? 0x535 then w ← ivt_word d; Some (upd_ivt_rear (set_power w) s)
  else if id =? 0x536 then w ← ivt_word d; Some (upd_ivt_rear (set_charge w) s)
  else if id =? 0x537 then w ← ivt_word d; Some (upd_ivt_rear (set_energy w) s)
  else if id =? 0x550 then for_loop 8 0 (cell_temperature_body msg 0) s
  else if id =? 0x562 then for_loop 8 0 (cell_temperature_body msg 1) s
  else Some s.

(** ** The safety evaluator *)

(** [(t*0.1) > bound] and [(t*0.1) < bound] in [double] arithmetic. *)
Definition celsius (t : Z) : float := PrimFloat.mul (double_of_int t) double_0_1.
Definition temp_above (t bound : Z) : bool := PrimFloat.ltb (double_of_int bound) (celsius t).
Definition temp_below (t bound : Z) : bool := PrimFloat.ltb (celsius t) (double_of_int bound).

(** The four parts of [check_cells], in the order of the source. *)

(** Check whether we are charging. *)
Definition check_charging : stmt :=
  ite (fun s => ivt_max_current s <? 0)
      (upd_BMU (set_charging_state true) >=> upd_pins (set_charge_indic true))
      (upd_BMU (set_charging_state false) >=> upd_pins (set_charge_indic false)).

(** Check the max current in both directions. *)
Definition check_current : stmt :=
  ite (fun s => (ivt_max_current s >=? max_current) || (ivt_min_current s <? max_charging_current))
      (upd_BMU (set_over_current true))
      (upd_BMU (set_over_current false)).

(** The thresholds of this pass, from the flags of the previous pass; then
    the voltage of the front IVT and of the rear IVT. *)
Definition check_pack_voltage : stmt :=
  ite over_voltage_flag
      (set_temp_max_battery_pack_voltage_mv (max_battery_pack_voltage_mv + battery_pack_hysteresis))
      (set_temp_max_battery_pack_voltage_mv max_battery_pack_voltage_mv) >=>
  ite under_voltage_flag
      (set_temp_min_battery_pack_voltage_mv (min_battery_pack_voltage_mv - battery_pack_hysteresis))
      (set_temp_min_battery_pack_voltage_mv min_battery_pack_voltage_mv) >=>
  set_over_voltage_flag false >=>
  set_under_voltage_flag false >=>
  when (fun s => voltage1 (ivt_front s) >? temp_max_battery_pack_voltage_mv s)
       (set_over_voltage_flag true >=> upd_BMU (set_over_voltage true)) >=>
  when (fun s => voltage1 (ivt_front s) <? temp_min_battery_pack_voltage_mv s)
       (set_under_voltage_flag true >=> upd_BMU (set_under_voltage true)) >=>
  when (fun s => voltage1 (ivt_rear s) >? temp_max_battery_pack_voltage_mv s)
       (set_over_voltage_flag true >=> upd_BMU (set_over_voltage true)) >=>
  when (fun s => voltage1 (ivt_rear s) <? temp_min_battery_pack_voltage_mv s)
       (set_under_voltage_flag true >=> upd_BMU (set_under_voltage true)) >=>
  when (fun s => eqb (over_voltage_flag s) false && eqb (under_voltage_flag s) false)
       (upd_BMU (set_under_voltage false) >=> upd_BMU (set_over_voltage false)).

(** The temperature of the front IVT and of the rear IVT. *)
Definition check_ivt_temperature : stmt :=
  when (fun s => temp_above (temperature (ivt_front s)) MAX_IVT_TEMPERATURE)
       (set_over_temperature_flag true >=> upd_BMU (set_over_temperature true)) >=>
  when (fun s => temp_below (temperature (ivt_front s)) MIN_IVT_TEMPERATURE)
       (set_under_voltage_flag true >=> upd_BMU (set_under_temperature true)) >=>
  when (fun s => temp_above (temperature (ivt_rear s)) MAX_IVT_TEMPERATURE)
       (set_over_temperature_flag true >=> upd_BMU (set_over_temperature true)) >=>
  when (fun s => temp_below (temperature (ivt_rear s)) MIN_IVT_TEMPERATURE)
       (set_under_temperature_flag true >=> upd_BMU (set_under_temperature true)) >=>
  when (fun s => eqb (over_temperature_flag s) false && eqb (under_temperature_flag s) false)
       (upd_BMU (set_under_temperature false) >=> upd_BMU (set_over_temperature false)).

Definition check_cells : stmt :=
  check_charging >=> check_current >=> check_pack_voltage >=> check_ivt_temperature.

(** ** The status encoder *)

(** The test of the IVT freshness: [IVT_time > milliseconds(IVT_TIMEOUT_MS).count()]. *)
Definition ivt_timeout (s : State) : bool := IVT_time s >? IVT_TIMEOUT_MS.

Definition status0_set (k : Z) : stmt := upd_status (fun a => set_b0 (set_bit k (b0 a)) a).
Definition status0_clear (k : Z) : stmt := upd_status (fun a => set_b0 (clear_bit k (b0 a)) a).
Definition status1_set (k : Z) : stmt := upd_status (fun a => set_b1 (set_bit k (b1 a)) a).
Definition status1_clear (k : Z) : stmt := upd_status (fun a => set_b1 (clear_bit k (b1 a)) a).

(** Bit [k] of a [char] made equal to [v]. *)
Definition put_bit (k : Z) (v : bool) (b : Z) : Z :=
  if v then set_bit k b else clear_bit k b.

(** The disjunction of the five fault bits of the heartbeat. *)
Definition fault_bits (b : bmu_state_t) : bool :=
  over_current b || under_voltage b || over_voltage b
  || under_temperature b || over_temperature b.

(** The four parts of [update_BMU_status_array], in the order of the source. *)

(** The IVT freshness test and the five fault bits of byte 0. *)
Definition status_faults : stmt :=
  set_error_flag false >=>
  when ivt_timeout (set_error_flag true) >=>
  ite (fun s => over_current (BMU s))
      (status0_set 0 >=> set_error_flag true) (status0_clear 0) >=>
  ite (fun s => under_voltage (BMU s))
      (status0_set 1 >=> set_error_flag true) (status0_clear 1) >=>
  ite (fun s => over_voltage (BMU s))
      (status0_set 2 >=> set_error_flag true) (status0_clear 2) >=>
  ite (fun s => under_temperature (BMU s))
      (status0_set 3 >=> set_error_flag true) (status0_clear 3) >=>
  ite (fun s => over_temperature (BMU s))
      (status0_set 4 >=> set_error_flag true) (status0_clear 4).

(** If there was an error, turn off the ignition and clear the safe to
    drive flag; if no errors, it is safe to drive. *)
Definition status_safe : stmt :=
  ite error_flag
      (upd_BMU (set_safe_to_drive false) >=> status0_clear 5 >=> upd_pins (set_safe_indic false) >=>
       when ignition_demand (set_ignition_demand false >=> set_previous_ignition_demand true))
      (upd_BMU (set_safe_to_drive true) >=> status0_set 5 >=> upd_pins (set_safe_indic true)).

(** The charging, precharge and discharge flags of byte 1. *)
Definition status_modes : stmt :=
  ite (fun s => charging_state (BMU s)) (status1_set 0) (status1_clear 0) >=>
  ite (fun s => precharge_state (BMU s)) (status1_set 1) (status1_clear 1) >=>
  ite (fun s => discharge_state (BMU s)) (status1_set 2) (status1_clear 2).

(** The placeholders of the fan states, bytes 2 to 5. *)
Definition status_fans : stmt :=
  (fun s => upd_status (set_b2 (to_char (fan1_state (BMU s)))) s) >=>
  (fun s => upd_status (set_b3 (to_char (fan2_state (BMU s)))) s) >=>
  (fun s => upd_status (set_b4 (to_char (fan3_state (BMU s)))) s) >=>
  (fun s => upd_status (set_b5 (to_char (fan4_state (BMU s)))) s).

Definition update_BMU_status_array : stmt :=
  status_faults >=> status_safe >=> status_modes >=> status_fans.

(** ** The main thread *)

#[local] Set Warnings "-register-all".

(** The main thread is a list of instructions.  [Do f] is a statement that
    runs without suspension; [WaitDetect] is the loop
    [while(!prechg_detect);], which polls the precharge-detect input;
    [If] and [IfElse] are the conditionals of the source. *)
Inductive instr : Type :=
| Do (f : stmt)
| WaitDetect
| If (c : State -> bool) (body : list instr)
| IfElse (c : State -> bool) (body1 body2 : list instr).

Definition prog := list instr.

Definition precharge : prog :=
  [ Do (upd_BMU (set_discharge_state false));
    Do (set_currently_precharging true);
    Do (upd_pins (set_dischg_disable true));
    Do (upd_pins (set_prechg_enable true));
    Do (wait_us 500000);
    WaitDetect;
    Do (upd_pins (set_hvdc_enable true));
    Do (wait_us 100000);
    Do (upd_pins (set_prechg_enable false));
    Do (set_currently_precharging false);
    Do (upd_BMU (set_precharge_state true)) ].

Definition discharge : prog :=
  [ Do (upd_BMU (set_precharge_state false));
    Do (set_currently_discharging true);
    Do (upd_pins (set_prechg_enable false));
    Do (upd_pins (set_hvdc_enable false));
    Do (wait_us 100000);
    Do (upd_pins (set_dischg_disable false));
    Do (set_currently_discharging false);
    Do (upd_BMU (set_discharge_state true)) ].

(** [CANMessage contactor_msg(0x34F, contactor_array, 1)] *)
Definition contactor_msg (s : State) : CANMessage.t :=
  CANMessage.mk 0x34F [contactor_array s] 1.

(** The guard of [update_relays]. *)
Definition drive_guard (s : State) : bool :=
  ignition_demand s && negb (previous_ignition_demand s) && safe_to_drive (BMU s).

Definition update_relays : prog :=
  [ IfElse drive_guard
      [ Do (set_contactor_array 0x01);
        Do (upd_pins (set_contactor_indic true));
        Do (fun s => can_send (contactor_msg s) s);
        If (fun s => negb (precharge_state (BMU s))) precharge ]
      [ Do (set_contactor_array 0x00);
        Do (fun s => can_send (contactor_msg s) s);
        If (fun s => negb (discharge_state (BMU s))) discharge;
        Do (fun s => upd_pins (set_solar_enable (solar_demand s && safe_to_drive (BMU s))) s);
        Do (fun s => upd_pins (set_solar_indic (solar_enable (pins s))) s) ] ].

(** [CANMessage BMU_status_msg(BMU_CAN_ID, BMU_status_array, 6)] *)
Definition BMU_status_msg (s : State) : CANMessage.t :=
  let a := BMU_status_array s in
  CANMessage.mk BMU_CAN_ID [b0 a; b1 a; b2 a; b3 a; b4 a; b5 a] 6.

Definition beat : prog :=
  Do (fun s => can_send (BMU_status_msg s) s) :: update_relays.

(** [main] up to the loop: the initial flags, then the ticker, the CAN
    interrupts and the IVT timer. *)
Definition main_prologue : prog :=
  [ Do (upd_BMU (set_over_voltage false));
    Do (upd_BMU (set_under_voltage false));
    Do (upd_BMU (set_over_current false));
    Do (upd_BMU (set_safe_to_drive false));
    Do (set_ticker_attached true);
    Do (set_rx_irq_attached true);
    Do (upd_IVT_timer timer_start) ].

(** The body of [while(1)]. *)
Definition loop_body : prog :=
  [ Do check_cells;
    Do update_BMU_status_array;
    If heartbeat_flag (Do (set_heartbeat_flag false) :: beat);
    If error_flag
       [ If (fun s => negb (previous_status s =? b0 (BMU_status_array s))) beat ];
    Do (fun s => set_previous_status (b0 (BMU_status_array s)) s) ].

(** ** The machine *)

(** The state of the globals and what is left of the main thread before it
    is back at the head of [while(1)]. *)
Record machine := Build_machine { st : State; pc : prog }.

Inductive event : Type :=
| Main (prechg_detect : bool)   (* the main thread runs its next instruction *)
| RxIrq (msg : CANMessage.t)    (* a frame arrives: [CANRecieveRoutine] *)
| TxIrq                         (* a frame has been sent: [CANDataSentCallback] *)
| Tick                          (* the 1 Hz ticker: [set_heartbeat_flag] *)
| Elapse (us : Z).              (* time passes *)

Definition wfb (m : CANMessage.t) : bool :=
  (length (CANMessage.data m) =? 8)%nat
  && forallb (fun b => (0 <=? b) && (b <? 256)) (CANMessage.data m).

Definition interrupt (ev : event) (s : State) : option State :=
  match ev with
  | Main _ => None
  | RxIrq msg => if rx_irq_attached s && wfb msg then CANRecieveRoutine msg s else None
  | TxIrq => if rx_irq_attached s then Some (CANDataSentCallback s) else None
  | Tick => if ticker_attached s then Some (set_heartbeat_flag_isr s) else None
  | Elapse us => if 0 <=? us then Some (wait_us us s) else None
  end.

Definition main_step (pin : bool) (m : machine) : machine :=
  match (match pc m with [] => loop_body | k => k end) with
  | [] => m
  | Do f :: k => {| st := f (st m); pc := k |}
  | WaitDetect :: k => {| st := st m; pc := if pin then k else WaitDetect :: k |}
  | If c body :: k => {| st := st m; pc := if c (st m) then body ++ k else k |}
  | IfElse c b1 b2 :: k => {| st := st m; pc := (if c (st m) then b1 else b2) ++ k |}
  end.

Definition step (ev : event) (m : machine) : option machine :=
  match ev with
  | Main pin => Some (main_step pin m)
  | _ => s' ← interrupt ev (st m); Some {| st := s'; pc := pc m |}
  end.

Fixpoint run (evs : list event) (m : machine) : option machine :=
  match evs with
  | [] => Some m
  | ev :: evs' => m' ← step ev m; run evs' m'
  end.

(** The globals at reset: zero-initialised, outputs low. *)
Definition zero_ivt : ivt_state_t := Build_ivt_state 0 0 0 0 0 0 0 0.

Definition boot_state : State :=
  {| BMU := Build_bmu_state false false false false false false false false false false 0 0 0 0;
     ivt_front := zero_ivt; ivt_rear := zero_ivt;
     pins := Build_DigitalOuts false false false false false false false false;
     cell_voltages := repeat 0 32;
     cell_temperatures := repeat (repeat 0 8) 2;
     temp_max_battery_pack_voltage_mv := 0; temp_min_battery_pack_voltage_mv := 0;
     IVT_timer := Build_Timer false 0; IVT_time := 0;
     CAN_data_sent := false; heartbeat_flag := false; error_flag := false;
     over_voltage_flag := false; under_voltage_flag := false;
     over_temperature_flag := false; under_temperature_flag := false;
     ignition_demand := false; previous_ignition_demand := false; solar_demand := false;
     currently_precharging := false; currently_discharging := false;
     contactor_array := 0; BMU_status_array := Build_status_bytes 0 0 0 0 0 0;
     previous_status := 0; can_tx := []; rx_irq_attached := false; ticker_attached := false |}.

Definition boot : machine := {| st := boot_state; pc := main_prologue |}.

Inductive reachable : machine -> Prop :=
| reachable_boot : reachable boot
| reachable_step m ev m' : reachable m -> step ev m = Some m' -> reachable m'.

(** ** Frames and traces used in the examples *)

(** A frame of an IVT channel carrying the 32-bit value [v] in bytes 2..5. *)
Definition ivt_frame (id : Z) (v : Z) : CANMessage.t :=
  CANMessage.mk id [0; 0; Z.land (Z.shiftr v 24) 255; Z.land (Z.shiftr v 16) 255;
                    Z.land (Z.shiftr v 8) 255; Z.land v 255; 0; 0] 6.

(** A frame of the driver controls with first byte [b]. *)
Definition driver_frame (b : Z) : CANMessage.t :=
  CANMessage.mk DRIVER_CONTROLS_ID [b; 0; 0; 0; 0; 0; 0; 0] 8.

(** [n] instructions of the main thread, the precharge-detect input high. *)
Definition mains (n : nat) : list event := repeat (Main true) n.

(** Both packs report 60 V and 25.0 degrees C. *)
Definition healthy_readings : list event :=
  [ RxIrq (ivt_frame 0x521 60000); RxIrq (ivt_frame 0x531 60000);
    RxIrq (ivt_frame 0x524 250); RxIrq (ivt_frame 0x534 250) ].

(** The globals with the given IVT readings, everything else as at reset. *)
Definition with_readings (cf cr vf vr tf tr : Z) : State :=
  set_ivt_front (Build_ivt_state cf vf 0 0 tf 0 0 0)
    (set_ivt_rear (Build_ivt_state cr vr 0 0 tr 0 0 0) boot_state).

(** ** Definitions used by the properties *)

(** Any interrupt may occur. *)
Definition any_event : event -> Prop := fun _ => True.

(** A statement leaves a view of the globals unchanged. *)
Definition preserves {A} (view : State -> A) (f : stmt) : Prop :=
  forall s, view (f s) = view s.

(** The thresholds of a pass, from the flags the previous pass left. *)
Definition upper_threshold (s : State) : Z :=
  if over_voltage_flag s then max_battery_pack_voltage_mv + battery_pack_hysteresis
  else max_battery_pack_voltage_mv.

Definition lower_threshold (s : State) : Z :=
  if under_voltage_flag s then min_battery_pack_voltage_mv - battery_pack_hysteresis
  else min_battery_pack_voltage_mv.

(** The ignition is on and the front IVT reads 120 A: the evaluator finds
    an over-current. *)
Definition faulted_while_driving : State :=
  set_ignition_demand true (with_readings 120000 0 60000 60000 250 250).

(** A cell of the temperature matrix. *)
Definition cell_at (s : State) (r c : nat) : option Z :=
  cell_temperatures s !! r ≫= (fun row => row !! c).

(** The arrays have the sizes of their declarations. *)
Definition arrays_wf (s : State) : Prop :=
  length (cell_voltages s) = 32%nat
  /\ length (cell_temperatures s) = 2%nat
  /\ Forall (fun row => length row = 8%nat) (cell_temperatures s).

(** [exec detect p s]: the program [p] run to its end from [s], no interrupt
    in between.  [detect] tells whether the precharge-detect input gets
    high; when it never does, [while(!prechg_detect);] does not return. *)
Fixpoint exec_instr (detect : bool) (i : instr) (s : State) : option State :=
  let exec :=
    fix exec (p : list instr) (s : State) : option State :=
      match p with
      | [] => Some s
      | i :: k => s' ← exec_instr detect i s; exec k s'
      end in
  match i with
  | Do f => Some (f s)
  | WaitDetect => if detect then Some s else None
  | If c body => if c s then exec body s else Some s
  | IfElse c b1 b2 => if c s then exec b1 s else exec b2 s
  end.

Definition exec (detect : bool) : prog -> State -> option State :=
  fix exec (p : list instr) (s : State) : option State :=
    match p with
    | [] => Some s
    | i :: k => s' ← exec_instr detect i s; exec k s'
    end.

(** The number of instructions of a program, nested ones included. *)
Fixpoint size_instr (i : instr) : nat :=
  let size :=
    fix size (p : list instr) : nat :=
      match p with
      | [] => O
      | i :: k => (size_instr i + size k)%nat
      end in
  match i with
  | Do _ => 1%nat
  | WaitDetect => 1%nat
  | If _ body => S (size body)
  | IfElse _ b1 b2 => S (size b1 + size b2)
  end.

Definition size : prog -> nat :=
  fix size (p : list instr) : nat :=
    match p with
    | [] => O
    | i :: k => (size_instr i + size k)%nat
    end.

(** The globals that only the main thread writes. *)
Definition owned (s : State) :=
  (BMU s, pins s, contactor_array s, BMU_status_array s,
   currently_precharging s, currently_discharging s, previous_status s).

(** An assertion on [precharge_state], [discharge_state] and the
    [hvdc_enable] output. *)
Definition seq_assert (A : bool -> bool -> bool -> bool) (s : State) : Prop :=
  A (precharge_state (BMU s)) (discharge_state (BMU s)) (hvdc_enable (pins s)) = true.

(** The two flags are not both set; the main contactor is closed only while
    not discharged; once precharged, the main contactor is closed. *)
Definition seq_ok (p d h : bool) : bool :=
  negb (p && d) && implb h (negb d) && implb p h.

(** The three of them, as a view of the globals. *)
Definition seq_view (s : State) : bool * bool * bool :=
  (precharge_state (BMU s), discharge_state (BMU s), hvdc_enable (pins s)).

(** The assertions inside [precharge] and [discharge], and at their entry. *)
Definition both_clear (p d h : bool) : bool := negb p && negb d.
Definition both_clear_closed (p d h : bool) : bool := negb p && negb d && h.
Definition both_clear_open (p d h : bool) : bool := negb p && negb d && negb h.
Definition not_precharged (p d h : bool) : bool := seq_ok p d h && negb p.
Definition not_discharged (p d h : bool) : bool := seq_ok p d h && negb d.

(** The machine after the events [evs] from boot. *)
Definition run_from_boot (evs : list event) : machine :=
  match run evs boot with
  | Some m => m
  | None => boot
  end.

(** The ignition is switched on with healthy readings: after the beat that
    follows, the precharge sequence has run. *)
Definition drive_trace : list event :=
  mains 6 ++ healthy_readings ++ [RxIrq (driver_frame 1)] ++ mains 6
  ++ [Elapse 1000000; Tick] ++ mains 21.

(** A frame of cell voltages: cells 4 to 7, little-endian. *)
Definition cells_4_7_frame : CANMessage.t :=
  CANMessage.mk 0x361 [0x10; 0x8C; 0x11; 0x8C; 0x12; 0x8C; 0x13; 0x8C] 8.

(** The machine just before [update_relays], on the beat that follows the
    switching on of the ignition with healthy readings. *)
Definition before_drive_beat : list event :=
  mains 6 ++ healthy_readings ++ [RxIrq (driver_frame 1)] ++ mains 6
  ++ [Elapse 1000000; Tick] ++ mains 5.

(** The contactor command has just been sent; the precharge has not begun. *)
Definition command_sent_trace : list event := before_drive_beat ++ mains 4.

(** The precharge is over; then the ignition is switched off. *)
Definition ignition_off_trace : list event :=
  before_drive_beat ++ mains 16 ++ [RxIrq (driver_frame 0)].

(** The machine just before [update_relays], on a beat with the solar
    demand on, the ignition off and healthy readings. *)
Definition before_solar_beat : list event :=
  mains 6 ++ healthy_readings ++ [RxIrq (driver_frame 8)] ++ mains 6
  ++ [Elapse 1000000; Tick] ++ mains 5.

(** That beat is over; then the ignition is switched on, the solar demand
    kept, and the next beat runs the precharge. *)
Definition solar_then_drive_trace : list event :=
  before_solar_beat ++ mains 16
  ++ [RxIrq (driver_frame 9); Elapse 1000000; Tick] ++ mains 21.

(** That beat is over; then the solar demand is switched off. *)
Definition solar_off_trace : list event :=
  before_solar_beat ++ mains 16 ++ [RxIrq (driver_frame 0)].

(** Following the specification: more than [IVT_TIMEOUT_MS] have elapsed
    since the most recent current frame (the timer is restarted by each
    current frame, and started at boot). *)
Definition ivt_stale (s : State) : bool := elapsed_ms (IVT_timer s) >? IVT_TIMEOUT_MS.

(** The interrupts of a bus without traffic. *)
Definition no_frame (ev : event) : Prop :=
  match ev with RxIrq _ => False | _ => True end.

(** A heartbeat frame whose bit 5 (safe to drive) is clear; any other frame. *)
Definition heartbeat_unsafe (msg : CANMessage.t) : Prop :=
  CANMessage.id msg = BMU_CAN_ID ->
  exists b rest, CANMessage.data msg = b :: rest /\ Z.testbit b 5 = false.

(** The globals while no frame has been received since boot. *)
Definition cold (s : State) : Prop :=
  IVT_time s = 0 /\ voltage1 (ivt_front s) = 0
  /\ safe_to_drive (BMU s) = false
  /\ Z.testbit (b0 (BMU_status_array s)) 5 = false
  /\ Forall heartbeat_unsafe (can_tx s).

(** The same between [check_cells] and [update_BMU_status_array]. *)
Definition cold_checked (s : State) : Prop := cold s /\ under_voltage (BMU s) = true.

(** No traffic for 1.2 s after boot, a beat at 1 s, then one more pass of
    the evaluator and of the encoder. *)
Definition silent_trace : list event :=
  mains 7 ++ [Elapse 1000000; Tick] ++ mains 29 ++ [Elapse 100000] ++ mains 2.

(** The first current frame arrives 1.5 s after boot. *)
Definition late_frame_trace : list event :=
  mains 7 ++ [Elapse 1500000; RxIrq (ivt_frame 0x520 0)].

(** ** Invariants of the machine *)

Section Covered.

(** The interrupts that may occur, the property to establish in every
    state, and the assertion at the head of [while(1)]. *)
Variable allowed : event -> Prop.
Variable J : State -> Prop.
Variable L : State -> Prop.

(** An assertion that no allowed interrupt can break. *)
Definition stable (P : State -> Prop) : Prop :=
  forall ev s s', allowed ev -> P s -> interrupt ev s = Some s' -> P s'.

(** [covered P k]: from a state that satisfies [P], with [k] left to run
    before the head of the loop, every state the main thread goes through
    satisfies [J], whatever allowed interrupts occur, and the head of the
    loop is reached in a state that satisfies [L]. *)
Inductive covered : (State -> Prop) -> prog -> Prop :=
| covered_nil P :
    stable P -> (forall s, P s -> J s) -> (forall s, P s -> L s) ->
    covered P []
| covered_do P Q f k :
    stable P -> (forall s, P s -> J s) -> (forall s, P s -> Q (f s)) ->
    covered Q k ->
    covered P (Do f :: k)
| covered_wait P k :
    stable P -> (forall s, P s -> J s) ->
    covered P k ->
    covered P (WaitDetect :: k)
| covered_if P Q1 Q2 c body k :
    stable P -> (forall s, P s -> J s) ->
    (forall s, P s -> c s = true -> Q1 s) ->
    (forall s, P s -> c s = false -> Q2 s) ->
    covered Q1 (body ++ k) -> covered Q2 k ->
    covered P (If c body :: k)
| covered_ifelse P Q1 Q2 c body1 body2 k :
    stable P -> (forall s, P s -> J s) ->
    (forall s, P s -> c s = true -> Q1 s) ->
    (forall s, P s -> c s = false -> Q2 s) ->
    covered Q1 (body1 ++ k) -> covered Q2 (body2 ++ k) ->
    covered P (IfElse c body1 body2 :: k).

(** The states reached from boot through allowed interrupts only. *)
Inductive reachable_under : machine -> Prop :=
| reachable_under_boot : reachable_under boot
| reachable_under_main m pin :
    reachable_under m -> reachable_under (main_step pin m)
| reachable_under_irq m ev s' :
    reachable_under m -> allowed ev -> interrupt ev (st m) = Some s' ->
    reachable_under {| st := s'; pc := pc m |}.

(** What holds of a machine state along a covered run. *)
Definition machine_inv (m : machine) : Prop :=
  exists P, P (st m) /\ covered P (pc m).

End Covered.

(** ** Definitions used by the further properties *)

(** The identifiers with a case in the [switch] of [CANRecieveRoutine]. *)
Definition handled_id (id : Z) : bool :=
  ((0x360 <=? id) && (id <=? 0x367)) || (id =? 0x500)
  || ((0x520 <=? id) && (id <=? 0x527)) || ((0x530 <=? id) && (id <=? 0x537))
  || (id =? 0x550) || (id =? 0x562).

(** The globals that no interrupt routine writes: those of [owned], the
    flags of the evaluator, its thresholds and the attachments. *)
Definition main_thread_globals (s : State) :=
  (owned s, error_flag s,
   (over_voltage_flag s, under_voltage_flag s, over_temperature_flag s, under_temperature_flag s),
   (temp_max_battery_pack_voltage_mv s, temp_min_battery_pack_voltage_mv s),
   (rx_irq_attached s, ticker_attached s)).

(** What one run of an interrupt routine does to the globals. *)
Inductive irq_effect (s : State) : State -> Prop :=
| irq_cell_voltages cv :
    length cv = length (cell_voltages s) -> irq_effect s (set_cell_voltages cv s)
| irq_cell_temperatures ct :
    map length ct = map length (cell_temperatures s) ->
    irq_effect s (set_cell_temperatures ct s)
| irq_driver_controls d0 : irq_effect s (driver_controls d0 s)
| irq_front_current w :
    irq_effect s (ivt_timer_snapshot (upd_ivt_front (set_current w) s))
| irq_rear_current w :
    irq_effect s (ivt_timer_snapshot (upd_ivt_rear (set_current w) s))
| irq_front_voltage1 w : irq_effect s (upd_ivt_front (set_voltage1 w) s)
| irq_front_temperature w : irq_effect s (upd_ivt_front (set_temperature w) s)
| irq_front_power w : irq_effect s (upd_ivt_front (set_power w) s)
| irq_front_charge w : irq_effect s (upd_ivt_front (set_charge w) s)
| irq_front_energy w : irq_effect s (upd_ivt_front (set_energy w) s)
| irq_rear_voltage1 w : irq_effect s (upd_ivt_rear (set_voltage1 w) s)
| irq_rear_temperature w : irq_effect s (upd_ivt_rear (set_temperature w) s)
| irq_rear_power w : irq_effect s (upd_ivt_rear (set_power w) s)
| irq_rear_charge w : irq_effect s (upd_ivt_rear (set_charge w) s)
| irq_rear_energy w : irq_effect s (upd_ivt_rear (set_energy w) s)
| irq_config : irq_effect s (config_IVT s)
| irq_ignored : irq_effect s s
| irq_sent : irq_effect s (CANDataSentCallback s)
| irq_tick : irq_effect s (set_heartbeat_flag_isr s)
| irq_elapse us : irq_effect s (wait_us us s).

(** Every statement of a program satisfies [R]. *)
Inductive each_do (R : stmt -> Prop) : prog -> Prop :=
| each_nil : each_do R []
| each_cons_do f k : R f -> each_do R k -> each_do R (Do f :: k)
| each_cons_wait k : each_do R k -> each_do R (WaitDetect :: k)
| each_cons_if c body k : each_do R body -> each_do R k -> each_do R (If c body :: k)
| each_cons_ifelse c body1 body2 k :
    each_do R body1 -> each_do R body2 -> each_do R k ->
    each_do R (IfElse c body1 body2 :: k).

(** A statement keeps an invariant. *)
Definition keeps (J : State -> Prop) (f : stmt) : Prop := forall s, J s -> J (f s).

(** The temperature tests agree with integer thresholds on a reading, in
    tenths of a degree. *)
Definition thresholds_agree (t : Z) : bool :=
  eqb (temp_above t MAX_IVT_TEMPERATURE) (750 <? t)
  && eqb (temp_below t MIN_IVT_TEMPERATURE) (t <? 20).

(** [thresholds_agree] on the [2 ^ k] readings from [lo] upwards. *)
Fixpoint agree_block (k : nat) (lo : Z) : bool :=
  match k with
  | O => thresholds_agree lo
  | S k' => agree_block k' lo && agree_block k' (lo + 2 ^ Z.of_nat k')
  end.


(** The contactor command of a beat that starts in [s]. *)
Definition contactor_command (s : State) : CANMessage.t :=
  CANMessage.mk 0x34F [if drive_guard s then 1 else 0] 1.

(** The loop body after the evaluator and the encoder. *)
Definition loop_tail : prog :=
  [ If heartbeat_flag (Do (set_heartbeat_flag false) :: beat);
    If error_flag
       [ If (fun s => negb (previous_status s =? b0 (BMU_status_array s))) beat ];
    Do (fun s => set_previous_status (b0 (BMU_status_array s)) s) ].

(** What a beat leaves as it was. *)
Definition beat_view (s : State) :=
  (error_flag s, previous_status s, BMU_status_array s, drive_guard s, heartbeat_flag s).

(** The relays, the sequencer flags and the safety status, as booleans:
    [precharge_state], [discharge_state], [hvdc_enable], [prechg_enable],
    [dischg_disable], [safe_to_drive], [error_flag], bit 5 of status byte 0
    and bit 5 of [previous_status]. *)
Record relay_view := RV {
  rv_p : bool; rv_d : bool; rv_h : bool; rv_pe : bool; rv_dd : bool;
  rv_sf : bool; rv_e : bool; rv_b5 : bool; rv_p5 : bool }.

Definition relay_view_of (s : State) : relay_view :=
  RV (precharge_state (BMU s)) (discharge_state (BMU s)) (hvdc_enable (pins s))
     (prechg_enable (pins s)) (dischg_disable (pins s))
     (safe_to_drive (BMU s)) (error_flag s)
     (Z.testbit (b0 (BMU_status_array s)) 5) (Z.testbit (previous_status s) 5).

Definition relay_assert (A : relay_view -> bool) (s : State) : Prop :=
  A (relay_view_of s) = true.

(** In every state: the flags tell the position of the relays, and the
    discharge relay is held open ([dischg_disable] high) while the precharge
    relay or the main contactor is closed. *)
Definition relays_ok (v : relay_view) : bool :=
  implb (rv_p v) (rv_h v && rv_dd v && negb (rv_pe v))
  && implb (rv_d v) (negb (rv_h v) && negb (rv_dd v) && negb (rv_pe v))
  && implb (rv_pe v) (rv_dd v) && implb (rv_h v) (rv_dd v).

(** Outside [precharge] and [discharge]. *)
Definition relays_at_rest (v : relay_view) : bool :=
  relays_ok v && negb (rv_pe v) && eqb (rv_p v) (rv_h v) && eqb (rv_dd v) (rv_h v).

(** The encoder has run since the evaluator. *)
Definition status_fresh (v : relay_view) : bool :=
  eqb (rv_sf v) (negb (rv_e v)) && eqb (rv_b5 v) (rv_sf v).

(** At the head of [while(1)]. *)
Definition at_loop_head (v : relay_view) : bool :=
  relays_at_rest v
  && implb (rv_h v) (rv_sf v && negb (rv_e v) && rv_b5 v && rv_p5 v).

(** After the encoder; before a beat; after a beat; between the two tests
    of the main loop; the second test has found [error_flag]. *)
Definition after_encoder (v : relay_view) : bool :=
  relays_at_rest v && status_fresh v && implb (rv_h v) (rv_p5 v).
Definition before_beat (v : relay_view) : bool := relays_at_rest v && status_fresh v.
Definition after_beat (v : relay_view) : bool :=
  relays_at_rest v && status_fresh v && implb (rv_h v) (rv_sf v).
Definition between_tests (v : relay_view) : bool :=
  relays_at_rest v && status_fresh v && implb (rv_h v) (rv_sf v || rv_p5 v).
Definition fault_found (v : relay_view) : bool := between_tests v && rv_e v.

(** In [update_relays]: the guard holds; the steps of [precharge]; the
    steps of [discharge]; the contactors are open. *)
Definition guard_on (v : relay_view) : bool := before_beat v && rv_sf v.
Definition open_all (v : relay_view) : bool :=
  negb (rv_p v) && negb (rv_d v) && negb (rv_h v) && negb (rv_pe v) && negb (rv_dd v).
Definition pre_0 (v : relay_view) : bool := open_all v && status_fresh v && rv_sf v.
Definition pre_1 (v : relay_view) : bool :=
  negb (rv_p v) && negb (rv_d v) && negb (rv_h v) && negb (rv_pe v) && rv_dd v
  && status_fresh v && rv_sf v.
Definition pre_2 (v : relay_view) : bool :=
  negb (rv_p v) && negb (rv_d v) && negb (rv_h v) && rv_pe v && rv_dd v
  && status_fresh v && rv_sf v.
Definition pre_3 (v : relay_view) : bool :=
  negb (rv_p v) && negb (rv_d v) && rv_h v && rv_pe v && rv_dd v
  && status_fresh v && rv_sf v.
Definition pre_4 (v : relay_view) : bool :=
  negb (rv_p v) && negb (rv_d v) && rv_h v && negb (rv_pe v) && rv_dd v
  && status_fresh v && rv_sf v.
Definition not_precharged_yet (v : relay_view) : bool := guard_on v && negb (rv_p v).
Definition not_discharged_yet (v : relay_view) : bool := before_beat v && negb (rv_d v).
Definition dis_0 (v : relay_view) : bool :=
  negb (rv_p v) && negb (rv_d v) && negb (rv_pe v) && eqb (rv_dd v) (rv_h v) && status_fresh v.
Definition dis_1 (v : relay_view) : bool :=
  negb (rv_p v) && negb (rv_d v) && negb (rv_pe v) && negb (rv_h v) && status_fresh v.
Definition dis_2 (v : relay_view) : bool := open_all v && status_fresh v.
Definition all_open (v : relay_view) : bool :=
  negb (rv_p v) && negb (rv_h v) && negb (rv_pe v) && negb (rv_dd v).
Definition switched_off (v : relay_view) : bool := all_open v && rv_d v && status_fresh v.

(** [previous_status] is the status byte of the heartbeat. *)
Definition status_recorded (s : State) : Prop :=
  previous_status s = b0 (BMU_status_array s).

(** No assertion. *)
Definition anything (s : State) : Prop := True.

(** The ten frames of [config_IVT], in the order they are sent. *)
Definition config_frames : list CANMessage.t :=
  [stop_msg; current_setup_msg; voltage1_setup_msg; voltage2_setup_msg;
   voltage3_setup_msg; temperature_setup_msg; charge_setup_msg;
   power_setup_msg; energy_setup_msg; start_msg].

(** The frames the firmware sends: a heartbeat with its unused bits and
    bytes at zero, a contactor command, a configuration frame of the IVTs. *)
Definition heartbeat_frame (m : CANMessage.t) : Prop :=
  exists a0 a1, m = CANMessage.mk BMU_CAN_ID [a0; a1; 0; 0; 0; 0] 6
                /\ 0 <= a0 < 64 /\ 0 <= a1 < 8.

Definition frame_ok (m : CANMessage.t) : Prop :=
  heartbeat_frame m
  \/ m = CANMessage.mk 0x34F [0] 1 \/ m = CANMessage.mk 0x34F [1] 1
  \/ In m config_frames.

(** The status bytes with their unused bits and bytes at zero. *)
Definition status_ok (a : status_bytes) : Prop :=
  0 <= b0 a < 64 /\ 0 <= b1 a < 8 /\ b2 a = 0 /\ b3 a = 0 /\ b4 a = 0 /\ b5 a = 0.

(** The fields that no statement of the firmware writes. *)
Definition never_written (s : State) : Prop :=
  contactor_state (BMU s) = false
  /\ (fan1_state (BMU s), fan2_state (BMU s), fan3_state (BMU s), fan4_state (BMU s))
     = (0, 0, 0, 0)
  /\ (voltage2 (ivt_front s), voltage3 (ivt_front s), voltage2 (ivt_rear s),
      voltage3 (ivt_rear s)) = (0, 0, 0, 0).

(** What holds of the globals in every state. *)
Definition globals_ok (s : State) : Prop :=
  ignition_demand s && previous_ignition_demand s = false
  /\ never_written s
  /\ (contactor_array s = 0 \/ contactor_array s = 1)
  /\ status_ok (BMU_status_array s)
  /\ Forall frame_ok (can_tx s)
  /\ arrays_wf s.

(** The globals on which [globals_ok] depends. *)
Definition globals_view (s : State) :=
  (ignition_demand s, previous_ignition_demand s,
   (contactor_state (BMU s), fan1_state (BMU s), fan2_state (BMU s), fan3_state (BMU s),
    fan4_state (BMU s)),
   (voltage2 (ivt_front s), voltage3 (ivt_front s), voltage2 (ivt_rear s),
    voltage3 (ivt_rear s)),
   contactor_array s, BMU_status_array s, can_tx s, cell_voltages s, cell_temperatures s).

(** The drive beat of [drive_trace] is over and the main thread is back at
    the head of [while(1)], the main contactor closed. *)
Definition driving_at_head_trace : list event := drive_trace ++ mains 2.

(** The receive interrupt is attached, everything else as at reset. *)
Definition listening_state : State := set_rx_irq_attached true boot_state.

(** A temperature fault as [check_cells] leaves it: the flag and the fault
    bit of the BMU struct. *)
Definition under_temperature_latched (s : State) : Prop :=
  under_temperature_flag s = true /\ under_temperature (BMU s) = true.

Definition over_temperature_latched (s : State) : Prop :=
  over_temperature_flag s = true /\ over_temperature (BMU s) = true.

(** A latched temperature fault, the precharge relay and the main contactor
    open. *)
Definition locked_out (s : State) : Prop :=
  (under_temperature_latched s \/ over_temperature_latched s)
  /\ hvdc_enable (pins s) = false /\ prechg_enable (pins s) = false.

(** The same once the encoder has run. *)
Definition locked_out_unsafe (s : State) : Prop :=
  locked_out s /\ safe_to_drive (BMU s) = false.

(** The assertion of a branch that is not taken. *)
Definition unreachable (s : State) : Prop := False.

(** Boot and one iteration of the loop without any interrupt: the IVTs have
    not reported yet. *)
Definition silent_boot_trace : list event := mains 28.

(** Then healthy readings arrive, the ignition is switched on and a beat
    goes by, as in [drive_trace]. *)
Definition readings_after_boot : list event :=
  healthy_readings ++ [RxIrq (driver_frame 1)] ++ mains 6
  ++ [Elapse 1000000; Tick] ++ mains 21.

(** The ignition is switched off and a beat goes by: the discharge runs. *)
Definition ignition_off_beat : list event :=
  [RxIrq (driver_frame 0); Elapse 1000000; Tick] ++ mains 23.

(** The contactor indicator is lit. *)
Definition indicator_lit (s : State) : Prop := contactor_indic (pins s) = true.

(** The indicator is lit while the precharge relay or the main contactor is
    closed. *)
Definition indicator_ok (s : State) : Prop :=
  hvdc_enable (pins s) = true \/ prechg_enable (pins s) = true -> indicator_lit s.



(** Any event but a step of the main thread with the precharge-detect input
    high. *)
Definition detect_low (ev : event) : Prop := ev <> Main true.

(** The main thread has reached [while(!prechg_detect);] on the drive beat
    of [drive_trace]. *)
Definition waiting_trace : list event := command_sent_trace ++ mains 6.

(** The input stays low while the heartbeat is due and the front IVT
    reports 70 V. *)
Definition fault_while_waiting : list event :=
  [Main false; Elapse 1000000; Tick; RxIrq (ivt_frame 0x521 70000); Main false; Main false].

(** * Properties *)

(** ** Bits of a [char] *)

Lemma testbit_to_char b j :
  0 <= j -> Z.testbit (to_char b) j = Z.testbit b j && (j <? 8).
Proof.
  intros Hj. unfold to_char. rewrite Z.land_spec.
  change 255 with (Z.ones 8). now rewrite Z.testbit_ones_nonneg by lia.
Qed.

Lemma testbit_set_bit k b j :
  0 <= k -> 0 <= j ->
  Z.testbit (set_bit k b) j = (Z.testbit b j || (k =? j)) && (j <? 8).
Proof.
  intros Hk Hj. unfold set_bit. rewrite testbit_to_char, Z.lor_spec by lia.
  now rewrite Z.shiftl_1_l, Z.pow2_bits_eqb by lia.
Qed.

Lemma testbit_clear_bit k b j :
  0 <= k -> 0 <= j ->
  Z.testbit (clear_bit k b) j = (Z.testbit b j && negb (k =? j)) && (j <? 8).
Proof.
  intros Hk Hj. unfold clear_bit.
  rewrite testbit_to_char, Z.land_spec, Z.lnot_spec by lia.
  now rewrite Z.shiftl_1_l, Z.pow2_bits_eqb by lia.
Qed.

(** ** Symbolic execution of statements *)

Lemma preserves_seq {A} (view : State -> A) f g :
  preserves view f -> preserves view g -> preserves view (f >=> g).
Proof. intros Hf Hg s. unfold seq. now rewrite Hg, Hf. Qed.

Lemma preserves_ite {A} (view : State -> A) c f g :
  preserves view f -> preserves view g -> preserves view (ite c f g).
Proof. intros Hf Hg s. unfold ite. destruct (c s); [apply Hf | apply Hg]. Qed.

Lemma preserves_when {A} (view : State -> A) c f :
  preserves view f -> preserves view (when c f).
Proof. intros Hf s. unfold when. destruct (c s); [apply Hf | reflexivity]. Qed.

Lemma ite_eq c f g s b : c s = b -> ite c f g s = if b then f s else g s.
Proof. intros <-. reflexivity. Qed.

Lemma when_eq c f s b : c s = b -> when c f s = if b then f s else s.
Proof. intros <-. reflexivity. Qed.

(** [frame] proves [preserves view f] for a statement built from setters
    that do not write the view. *)
Ltac frame :=
  repeat first [ apply preserves_seq | apply preserves_ite | apply preserves_when ];
  intros ?; reflexivity.

(** Reduction of a test or of a field, the arithmetic left alone. *)
Ltac reduce_in c :=
  eval lazy -[Z.gtb Z.ltb Z.geb Z.leb Z.eqb Z.add Z.sub Z.mul Z.div Z.modulo Z.land Z.lor
              Z.shiftl Z.lnot Z.testbit temp_above temp_below
              set_bit clear_bit to_char to_ulong to_int32 app] in c.

Ltac reduce_goal :=
  lazy -[Z.gtb Z.ltb Z.geb Z.leb Z.eqb Z.add Z.sub Z.mul Z.div Z.modulo Z.land Z.lor
         Z.shiftl Z.lnot Z.testbit temp_above temp_below
         set_bit clear_bit to_char to_ulong to_int32 app].

Ltac reduce_hyp H :=
  lazy -[Z.gtb Z.ltb Z.geb Z.leb Z.eqb Z.add Z.sub Z.mul Z.div Z.modulo Z.land Z.lor
         Z.shiftl Z.lnot Z.testbit temp_above temp_below
         set_bit clear_bit to_char to_ulong to_int32 app] in H.

(** The tests already decided, as equations in the context. *)
Ltac rewrite_atoms :=
  repeat match goal with
         | E : ?x = ?v |- context [?x] =>
             lazymatch v with true => idtac | false => idtac end; rewrite E
         end.

Ltac pure_state s :=
  lazymatch s with
  | context [ite _ _ _ _] => fail
  | context [when _ _ _] => fail
  | _ => idtac
  end.

Ltac branch_on b :=
  lazymatch b with
  | true => idtac
  | false => idtac
  | _ => destruct b eqn:?
  end.

(** One conditional whose state has no conditional left.  Its test is
    reduced, the tests decided so far are applied, and then either the test
    is decided and the conditional is replaced by its branch, or an
    undecided test in it is split into two goals. *)
Ltac no_inner_if x :=
  lazymatch x with context [if _ then _ else _] => fail | _ => idtac end.

Ltac step_cond c s0 rule :=
  let H := fresh "Hc" in
  eassert (H : c s0 = _) by (reduce_goal; rewrite_atoms; reduce_goal; reflexivity);
  lazymatch type of H with
  | _ = ?b =>
      first
        [ match b with
          | context [if ?x then _ else _] =>
              no_inner_if x; clear H; first [ is_var x; destruct x | destruct x eqn:? ]
          end
        | is_var b; clear H; destruct b
        | let r := rule b H in
          rewrite r; clear H; branch_on b; cbv beta iota delta [seq] ]
  end.

Ltac step_ite :=
  match goal with
  | |- context [ite ?c ?f ?g ?s0] =>
      pure_state s0; step_cond c s0 ltac:(fun b H => constr:(ite_eq c f g s0 b H))
  | |- context [when ?c ?f ?s0] =>
      pure_state s0; step_cond c s0 ltac:(fun b H => constr:(when_eq c f s0 b H))
  end.

(** The globals as variables, one per field. *)
Ltac destruct_state s :=
  let b := fresh "bmu" in let f := fresh "front" in let r := fresh "rear" in
  let p := fresh "io" in let a := fresh "bytes" in let t := fresh "timer" in
  destruct s as [b f r p ? ? ? ? t ? ? ? ? ? ? ? ? ? ? ? ? ? ? a ? ? ? ?];
  destruct b, f, r, p, a, t.

Ltac close_leaf :=
  lazymatch goal with
  | |- context [ite _ _ _ _] => fail "a conditional is left"
  | |- context [when _ _ _] => fail "a conditional is left"
  | _ => reduce_goal; rewrite_atoms; reflexivity
  end.

(** ** The status encoder in closed form *)

Lemma status_faults_eq s :
  status_faults s =
  set_error_flag (ivt_timeout s || fault_bits (BMU s))
    (upd_status (fun a => set_b0
       (put_bit 4 (over_temperature (BMU s)) (put_bit 3 (under_temperature (BMU s))
       (put_bit 2 (over_voltage (BMU s)) (put_bit 1 (under_voltage (BMU s))
       (put_bit 0 (over_current (BMU s)) (b0 a)))))) a) s).
Proof.
  destruct_state s. unfold status_faults, fault_bits, put_bit, seq.
  repeat step_ite; close_leaf.
Qed.

Lemma status_safe_eq s :
  status_safe s =
  let e := error_flag s in
  set_previous_ignition_demand
    (if e && ignition_demand s then true else previous_ignition_demand s)
    (set_ignition_demand (negb e && ignition_demand s)
       (upd_pins (set_safe_indic (negb e))
          (upd_status (fun a => set_b0 (put_bit 5 (negb e) (b0 a)) a)
             (upd_BMU (set_safe_to_drive (negb e)) s)))).
Proof.
  destruct_state s. unfold status_safe, put_bit, seq.
  repeat step_ite; close_leaf.
Qed.

Lemma status_modes_eq s :
  status_modes s =
  upd_status (fun a => set_b1
    (put_bit 2 (discharge_state (BMU s)) (put_bit 1 (precharge_state (BMU s))
    (put_bit 0 (charging_state (BMU s)) (b1 a)))) a) s.
Proof.
  destruct_state s. unfold status_modes, put_bit, seq.
  repeat step_ite; close_leaf.
Qed.

Lemma status_fans_eq s :
  status_fans s =
  upd_status (fun a => Build_status_bytes (b0 a) (b1 a)
    (to_char (fan1_state (BMU s))) (to_char (fan2_state (BMU s)))
    (to_char (fan3_state (BMU s))) (to_char (fan4_state (BMU s)))) s.
Proof. destruct_state s. reflexivity. Qed.

(** ** The safety evaluator in closed form *)

Lemma check_charging_eq s :
  check_charging s =
  let c := ivt_max_current s <? 0 in
  upd_pins (set_charge_indic c) (upd_BMU (set_charging_state c) s).
Proof.
  destruct_state s. unfold check_charging, seq. repeat step_ite; close_leaf.
Qed.

Lemma check_current_eq s :
  check_current s =
  upd_BMU (set_over_current
    ((ivt_max_current s >=? max_current) || (ivt_min_current s <? max_charging_current))) s.
Proof.
  destruct_state s. unfold check_current, seq. repeat step_ite; close_leaf.
Qed.

Lemma check_pack_voltage_eq s :
  check_pack_voltage s =
  let ov := (voltage1 (ivt_front s) >? upper_threshold s)
            || (voltage1 (ivt_rear s) >? upper_threshold s) in
  let uv := (voltage1 (ivt_front s) <? lower_threshold s)
            || (voltage1 (ivt_rear s) <? lower_threshold s) in
  set_under_voltage_flag uv (set_over_voltage_flag ov
    (set_temp_min_battery_pack_voltage_mv (lower_threshold s)
       (set_temp_max_battery_pack_voltage_mv (upper_threshold s)
          (upd_BMU (fun b =>
             set_over_voltage ((ov || uv) && (ov || over_voltage b))
               (set_under_voltage ((ov || uv) && (uv || under_voltage b)) b)) s)))).
Proof.
  destruct_state s. unfold check_pack_voltage, seq. repeat step_ite; close_leaf.
Qed.

Lemma check_ivt_temperature_eq s :
  check_ivt_temperature s =
  let af := temp_above (temperature (ivt_front s)) MAX_IVT_TEMPERATURE in
  let bf := temp_below (temperature (ivt_front s)) MIN_IVT_TEMPERATURE in
  let ar := temp_above (temperature (ivt_rear s)) MAX_IVT_TEMPERATURE in
  let br := temp_below (temperature (ivt_rear s)) MIN_IVT_TEMPERATURE in
  let otf := af || ar || over_temperature_flag s in
  let utf := br || under_temperature_flag s in
  set_under_temperature_flag utf (set_over_temperature_flag otf
    (set_under_voltage_flag (bf || under_voltage_flag s)
       (upd_BMU (fun b =>
          set_over_temperature ((otf || utf) && (af || ar || over_temperature b))
            (set_under_temperature ((otf || utf) && (bf || br || under_temperature b)) b)) s))).
Proof.
  destruct_state s. unfold check_ivt_temperature, seq. repeat step_ite; close_leaf.
Qed.

(** ** One pass of the status encoder *)

Ltac encoder_field :=
  unfold update_BMU_status_array, seq;
  rewrite status_fans_eq, status_modes_eq, status_safe_eq, status_faults_eq;
  reduce_goal; reflexivity.

Lemma update_error_flag s :
  error_flag (update_BMU_status_array s) = ivt_timeout s || fault_bits (BMU s).
Proof. destruct_state s. encoder_field. Qed.

Lemma update_BMU s :
  BMU (update_BMU_status_array s) =
  set_safe_to_drive (negb (ivt_timeout s || fault_bits (BMU s))) (BMU s).
Proof. destruct_state s. encoder_field. Qed.

Lemma update_IVT_time s : IVT_time (update_BMU_status_array s) = IVT_time s.
Proof. destruct_state s. encoder_field. Qed.

Lemma update_status0 s :
  b0 (BMU_status_array (update_BMU_status_array s)) =
  put_bit 5 (negb (ivt_timeout s || fault_bits (BMU s)))
    (put_bit 4 (over_temperature (BMU s)) (put_bit 3 (under_temperature (BMU s))
    (put_bit 2 (over_voltage (BMU s)) (put_bit 1 (under_voltage (BMU s))
    (put_bit 0 (over_current (BMU s)) (b0 (BMU_status_array s))))))).
Proof. destruct_state s. encoder_field. Qed.

Lemma update_ignition_demand s :
  ignition_demand (update_BMU_status_array s) =
  negb (ivt_timeout s || fault_bits (BMU s)) && ignition_demand s.
Proof. destruct_state s. encoder_field. Qed.

Lemma update_previous_ignition_demand s :
  previous_ignition_demand (update_BMU_status_array s) =
  if (ivt_timeout s || fault_bits (BMU s)) && ignition_demand s
  then true else previous_ignition_demand s.
Proof. destruct_state s. encoder_field. Qed.

Lemma testbit_put_bit k v b j :
  0 <= k -> 0 <= j ->
  Z.testbit (put_bit k v b) j = (if k =? j then v else Z.testbit b j) && (j <? 8).
Proof.
  intros Hk Hj. unfold put_bit. destruct v.
  - rewrite testbit_set_bit by lia. destruct (k =? j); [now rewrite orb_true_r | now rewrite orb_false_r].
  - rewrite testbit_clear_bit by lia. destruct (k =? j); simpl; [now rewrite andb_false_r | now rewrite andb_true_r].
Qed.

Lemma no_error_no_fault (t : bool) (b : bmu_state_t) :
  negb (t || fault_bits b) = true ->
  over_current b = false /\ under_voltage b = false /\ over_voltage b = false
  /\ under_temperature b = false /\ over_temperature b = false /\ t = false.
Proof.
  unfold fault_bits.
  destruct t, (over_current b), (under_voltage b), (over_voltage b),
    (under_temperature b), (over_temperature b); cbn; intros H;
    first [ discriminate H | repeat split ].
Qed.

(** C1. After every pass of [update_BMU_status_array], [error_flag] is the
    disjunction of the IVT timeout and the five fault bits, [safe_to_drive]
    is its negation, bit 5 of status byte 0 is [safe_to_drive], and so a
    state that is safe to drive has no fault bit set and no IVT timeout. *)
Theorem safe_to_drive_iff_no_error (s : State) :
  let s' := update_BMU_status_array s in
  error_flag s' = ivt_timeout s' || fault_bits (BMU s')
  /\ safe_to_drive (BMU s') = negb (error_flag s')
  /\ Z.testbit (b0 (BMU_status_array s')) 5 = safe_to_drive (BMU s')
  /\ (safe_to_drive (BMU s') = true ->
      over_current (BMU s') = false /\ under_voltage (BMU s') = false
      /\ over_voltage (BMU s') = false /\ under_temperature (BMU s') = false
      /\ over_temperature (BMU s') = false /\ ivt_timeout s' = false).
Proof.
  intros s'. subst s'.
  assert (Ht : ivt_timeout (update_BMU_status_array s) = ivt_timeout s).
  { unfold ivt_timeout. rewrite update_IVT_time. reflexivity. }
  assert (Hs : safe_to_drive (BMU (update_BMU_status_array s))
               = negb (ivt_timeout s || fault_bits (BMU s))).
  { rewrite update_BMU. reflexivity. }
  rewrite Ht, Hs, update_error_flag, update_status0, update_BMU.
  set (b := BMU s). set (t := ivt_timeout s).
  change (fault_bits (set_safe_to_drive (negb (t || fault_bits b)) b))
    with (fault_bits b).
  split; [reflexivity|]. split; [reflexivity|]. split.
  - rewrite testbit_put_bit by lia. rewrite Z.eqb_refl. apply andb_true_r.
  - intros H. exact (no_error_no_fault t b H).
Qed.

(** ** The driver controls frame *)

Lemma driver_controls_eq d0 s :
  driver_controls d0 s =
  let ig := negb (Z.land d0 0x01 =? 0) in
  set_solar_demand (negb (Z.land d0 0x08 =? 0))
    (set_ignition_demand ig
       (set_previous_ignition_demand
          (if eqb (ignition_demand s) ig then previous_ignition_demand s
           else ignition_demand s) s)).
Proof.
  destruct_state s. unfold driver_controls, seq. repeat step_ite; close_leaf.
Qed.

(** A driver controls frame that asks for ignition, received while
    [ignition_demand] is false, is a rising edge. *)
Lemma ignition_rising_edge d0 s :
  ignition_demand s = false -> Z.land d0 0x01 <> 0 ->
  ignition_demand (driver_controls d0 s) = true
  /\ previous_ignition_demand (driver_controls d0 s) = false.
Proof.
  intros Hig Hbit. rewrite driver_controls_eq. cbv zeta.
  apply Z.eqb_neq in Hbit.
  split.
  - change (negb (Z.land d0 1 =? 0) = true). now rewrite Hbit.
  - change ((if eqb (ignition_demand s) (negb (Z.land d0 1 =? 0))
             then previous_ignition_demand s else ignition_demand s) = false).
    rewrite Hbit, Hig. reflexivity.
Qed.

(** A driver controls frame that does not ask for ignition, received while
    [ignition_demand] is false, changes neither demand flag. *)
Lemma ignition_stays_off d0 s :
  ignition_demand s = false -> Z.land d0 0x01 = 0 ->
  ignition_demand (driver_controls d0 s) = false
  /\ previous_ignition_demand (driver_controls d0 s) = previous_ignition_demand s.
Proof.
  intros Hig Hbit. rewrite driver_controls_eq. cbv zeta.
  split.
  - change (negb (Z.land d0 1 =? 0) = false). now rewrite Hbit.
  - change ((if eqb (ignition_demand s) (negb (Z.land d0 1 =? 0))
             then previous_ignition_demand s else ignition_demand s)
            = previous_ignition_demand s).
    rewrite Hbit, Hig. reflexivity.
Qed.

(** C9. A pass of the status encoder that raises [error_flag] while
    [ignition_demand] is true clears [ignition_demand] and sets
    [previous_ignition_demand]; one that raises it while [ignition_demand]
    is false leaves both flags as they are.  In the state it leaves, a driver
    controls frame without ignition followed by one with ignition is a
    rising edge: [ignition_demand] true, [previous_ignition_demand] false. *)
Theorem fault_clears_ignition (s : State) :
  error_flag (update_BMU_status_array s) = true ->
  let s' := update_BMU_status_array s in
  (ignition_demand s = true ->
   ignition_demand s' = false /\ previous_ignition_demand s' = true)
  /\ (ignition_demand s = false ->
      ignition_demand s' = false
      /\ previous_ignition_demand s' = previous_ignition_demand s)
  /\ (forall off on : Z,
        Z.land off 0x01 = 0 -> Z.land on 0x01 <> 0 ->
        let s2 := driver_controls on (driver_controls off s') in
        ignition_demand s2 = true /\ previous_ignition_demand s2 = false
        /\ drive_guard s2 = safe_to_drive (BMU s2)).
Proof.
  intros He s'. subst s'.
  assert (Hig : ignition_demand (update_BMU_status_array s) = false).
  { rewrite update_ignition_demand. rewrite update_error_flag in He.
    rewrite He. reflexivity. }
  rewrite Hig, update_previous_ignition_demand.
  rewrite update_error_flag in He. rewrite He.
  split; [|split].
  - intros ->. split; reflexivity.
  - intros ->. split; reflexivity.
  - intros off on Hoff Hon s2. subst s2.
    destruct (ignition_stays_off off _ Hig Hoff) as [Hig' _].
    destruct (ignition_rising_edge on _ Hig' Hon) as [H1 H2].
    unfold drive_guard. rewrite H1, H2. auto.
Qed.

Lemma fault_clears_ignition_witness :
  error_flag (update_BMU_status_array (check_cells faulted_while_driving)) = true
  /\ ignition_demand (check_cells faulted_while_driving) = true
  /\ ignition_demand (update_BMU_status_array (check_cells faulted_while_driving)) = false
  /\ previous_ignition_demand
       (update_BMU_status_array (check_cells faulted_while_driving)) = true.
Proof.
  assert (He : error_flag (update_BMU_status_array (check_cells faulted_while_driving))
               = true) by (vm_compute; reflexivity).
  assert (Hi : ignition_demand (check_cells faulted_while_driving) = true)
    by (vm_compute; reflexivity).
  split; [exact He|]. split; [exact Hi|].
  exact (proj1 (fault_clears_ignition (check_cells faulted_while_driving) He) Hi).
Defined.

(** ** One pass of the safety evaluator *)

Lemma check_cells_over_current s :
  over_current (BMU (check_cells s)) =
  (ivt_max_current s >=? max_current) || (ivt_min_current s <? max_charging_current).
Proof.
  destruct_state s. unfold check_cells, seq.
  rewrite check_ivt_temperature_eq, check_pack_voltage_eq, check_current_eq,
    check_charging_eq.
  reduce_goal. reflexivity.
Qed.

(** What [ivt_min_current] returns is the larger of the two currents. *)
Lemma ivt_min_current_is_max s :
  ivt_min_current s = Z.max (current (ivt_front s)) (current (ivt_rear s)).
Proof.
  unfold ivt_min_current.
  destruct (Z.gtb_spec (current (ivt_front s)) (current (ivt_rear s))); lia.
Qed.

(** C5 (the code departs from the claim).  With -150 000 mA through the
    front IVT and 0 mA through the rear one, the smaller of the two currents
    is below the charging limit of -100 000 mA, and [check_cells] leaves
    [over_current] clear. *)
Theorem over_current_misses_charge_limit :
  let s := with_readings (-150000) 0 60000 60000 250 250 in
  Z.min (current (ivt_front s)) (current (ivt_rear s)) < max_charging_current
  /\ ivt_min_current s = 0
  /\ over_current (BMU (check_cells s)) = false.
Proof. vm_compute. repeat split; reflexivity. Qed.

(** C6 (the code departs from the claim).  The front IVT reads 67 100 mV,
    above the nominal upper bound of 67 040 mV, on three passes in a row.
    The first pass sets [over_voltage]; on the second the threshold is
    67 040 + 160 and [over_voltage] is cleared although the reading has not
    moved; the third pass sets it again. *)
Theorem over_voltage_clears_inside_band :
  let s0 := with_readings 0 0 67100 60000 250 250 in
  let s1 := check_cells s0 in
  let s2 := check_cells s1 in
  let s3 := check_cells s2 in
  (over_voltage (BMU s1) = true /\ over_voltage_flag s1 = true)
  /\ (temp_max_battery_pack_voltage_mv s2 = 67200
      /\ voltage1 (ivt_front s2) = 67100
      /\ over_voltage (BMU s2) = false)
  /\ over_voltage (BMU s3) = true.
Proof. vm_compute. repeat split; reflexivity. Qed.

(** C7 (the code departs from the claim).  The front IVT reads 1.0 degree C,
    below the lower bound of 2 degrees C, the rear one 25.0 degrees C, and
    no temperature flag is set yet.  [check_cells] leaves
    [under_temperature] clear, and sets [under_voltage_flag] instead of
    [under_temperature_flag]. *)
Theorem front_under_temperature_lost :
  let s := with_readings 0 0 60000 60000 10 250 in
  temp_below (temperature (ivt_front s)) MIN_IVT_TEMPERATURE = true
  /\ under_temperature (BMU (check_cells s)) = false
  /\ under_temperature_flag (check_cells s) = false
  /\ under_voltage_flag (check_cells s) = true.
Proof. vm_compute. repeat split; reflexivity. Qed.

(** The same reading through the rear IVT sets the fault bit. *)
Lemma rear_under_temperature_kept :
  let s := with_readings 0 0 60000 60000 250 10 in
  under_temperature (BMU (check_cells s)) = true
  /\ under_temperature_flag (check_cells s) = true.
Proof. vm_compute. repeat split; reflexivity. Qed.

(** ** The arrays of the decoder *)

Lemma to_int32_small z : - 2 ^ 31 <= z < 2 ^ 31 -> to_int32 z = z.
Proof. intros H. unfold to_int32. rewrite Z.mod_small; lia. Qed.

Lemma array_load_Some {A} (a : list A) (i : Z) :
  0 <= i < Z.of_nat (length a) -> exists x, array_load a i = Some x.
Proof.
  intros H. unfold array_load. rewrite bool_decide_eq_true_2 by lia.
  apply lookup_lt_is_Some_2. lia.
Qed.

Lemma array_store_Some {A} (a : list A) (i : Z) (v : A) :
  0 <= i < Z.of_nat (length a) -> array_store a i v = Some (<[Z.to_nat i := v]> a).
Proof. intros H. unfold array_store. now rewrite bool_decide_eq_true_2. Qed.

Lemma ivt_word_Some d : length d = 8%nat -> exists w, ivt_word d = Some w.
Proof.
  intros H. do 8 (destruct d as [|? d]; [discriminate H|]).
  eexists. reflexivity.
Qed.

(** One iteration of the loop of frames 0x360..0x367. *)
Lemma cell_voltage_body_Some msg (i : Z) (s : State) :
  length (CANMessage.data msg) = 8%nat ->
  CELL_VOLTAGES_BASE_ID <= CANMessage.id msg <= CELL_VOLTAGES_BASE_ID + 7 ->
  length (cell_voltages s) = 32%nat ->
  0 <= i < 4 ->
  exists v,
    cell_voltage_body msg i s
    = Some (set_cell_voltages
              (<[Z.to_nat ((CANMessage.id msg - CELL_VOLTAGES_BASE_ID) * 4 + i) := v]>
                 (cell_voltages s)) s).
Proof.
  unfold CELL_VOLTAGES_BASE_ID. intros Hd Hid Hlen Hi.
  unfold cell_voltage_body, CELL_VOLTAGES_BASE_ID.
  destruct (array_load_Some (CANMessage.data msg) (i * 2)) as [lo ->]; [lia|].
  destruct (array_load_Some (CANMessage.data msg) (i * 2 + 1)) as [hi ->]; [lia|].
  rewrite to_int32_small by lia.
  cbn [mbind option_bind].
  rewrite array_store_Some by lia.
  eexists. reflexivity.
Qed.

(** The loop of frames 0x360..0x367: [n] iterations from [i]. *)
Lemma cell_voltage_loop msg (n : nat) : forall (i : Z) (s : State),
  length (CANMessage.data msg) = 8%nat ->
  CELL_VOLTAGES_BASE_ID <= CANMessage.id msg <= CELL_VOLTAGES_BASE_ID + 7 ->
  length (cell_voltages s) = 32%nat ->
  0 <= i -> i + Z.of_nat n <= 4 ->
  exists s',
    for_loop n i (cell_voltage_body msg) s = Some s'
    /\ length (cell_voltages s') = 32%nat
    /\ cell_temperatures s' = cell_temperatures s
    /\ forall j : nat,
         ~ ((CANMessage.id msg - CELL_VOLTAGES_BASE_ID) * 4 + i <= Z.of_nat j
            < (CANMessage.id msg - CELL_VOLTAGES_BASE_ID) * 4 + i + Z.of_nat n) ->
         cell_voltages s' !! j = cell_voltages s !! j.
Proof.
  induction n as [|n IH]; intros i s Hd Hid Hlen Hi Hn.
  - exists s. repeat split; first [ reflexivity | assumption ].
  - cbn [for_loop].
    destruct (cell_voltage_body_Some msg i s) as [v ->]; try assumption; [lia|].
    cbn [mbind option_bind].
    set (k := Z.to_nat ((CANMessage.id msg - CELL_VOLTAGES_BASE_ID) * 4 + i)).
    set (s1 := set_cell_voltages (<[k := v]> (cell_voltages s)) s).
    assert (Hcv : cell_voltages s1 = <[k := v]> (cell_voltages s)) by reflexivity.
    destruct (IH (i + 1) s1) as (s' & Hrun & Hlen' & Htemp & Hother);
      try lia; try assumption.
    { rewrite Hcv. now rewrite length_insert. }
    exists s'. split; [exact Hrun|]. split; [exact Hlen'|]. split; [exact Htemp|].
    intros j Hj. rewrite Hother by lia. rewrite Hcv.
    apply list_lookup_insert_ne. unfold CELL_VOLTAGES_BASE_ID in *. lia.
Qed.

(** One iteration of the loops of frames 0x550 and 0x562. *)
Lemma cell_temperature_body_Some msg (row : nat) (i : Z) (s : State) (r0 : list Z) :
  length (CANMessage.data msg) = 8%nat ->
  cell_temperatures s !! row = Some r0 -> length r0 = 8%nat ->
  0 <= i < 8 ->
  exists b,
    cell_temperature_body msg (Z.of_nat row) i s
    = Some (set_cell_temperatures
              (<[row := <[Z.to_nat i := b]> r0]> (cell_temperatures s)) s).
Proof.
  intros Hd Hr0 Hr0len Hi. unfold cell_temperature_body.
  destruct (array_load_Some (CANMessage.data msg) i) as [b ->]; [lia|].
  assert (Hrow : (row < length (cell_temperatures s))%nat)
    by (eapply lookup_lt_Some; exact Hr0).
  assert (Hload : array_load (cell_temperatures s) (Z.of_nat row) = Some r0).
  { unfold array_load. rewrite bool_decide_eq_true_2 by lia.
    now rewrite Nat2Z.id. }
  cbn [mbind option_bind]. rewrite Hload. cbn [mbind option_bind].
  rewrite array_store_Some by lia. cbn [mbind option_bind].
  rewrite array_store_Some by lia. cbn [mbind option_bind].
  rewrite Nat2Z.id. eexists. reflexivity.
Qed.

(** The loops of frames 0x550 and 0x562: [n] iterations from [i] on [row]. *)
Lemma cell_temperature_loop msg (row : nat) (n : nat) : forall (i : Z) (s : State),
  length (CANMessage.data msg) = 8%nat ->
  (row < 2)%nat ->
  length (cell_temperatures s) = 2%nat ->
  Forall (fun r => length r = 8%nat) (cell_temperatures s) ->
  0 <= i -> i + Z.of_nat n <= 8 ->
  exists s',
    for_loop n i (cell_temperature_body msg (Z.of_nat row)) s = Some s'
    /\ length (cell_temperatures s') = 2%nat
    /\ Forall (fun r => length r = 8%nat) (cell_temperatures s')
    /\ cell_voltages s' = cell_voltages s
    /\ forall r c : nat,
         ~ (r = row /\ i <= Z.of_nat c < i + Z.of_nat n) ->
         cell_at s' r c = cell_at s r c.
Proof.
  induction n as [|n IH]; intros i s Hd Hrow Hlen Hrows Hi Hn.
  - exists s. repeat split; first [ reflexivity | assumption ].
  - cbn [for_loop].
    destruct (lookup_lt_is_Some_2 (cell_temperatures s) row) as [r0 Hr0]; [lia|].
    assert (Hr0len : length r0 = 8%nat).
    { rewrite Forall_forall in Hrows. apply Hrows.
      apply list_elem_of_In. eapply list_elem_of_lookup_2. exact Hr0. }
    destruct (cell_temperature_body_Some msg row i s r0) as [b ->];
      try assumption; [lia|].
    cbn [mbind option_bind].
    set (ct1 := <[row := <[Z.to_nat i := b]> r0]> (cell_temperatures s)).
    set (s1 := set_cell_temperatures ct1 s).
    assert (Hct1 : cell_temperatures s1 = ct1) by reflexivity.
    destruct (IH (i + 1) s1) as (s' & Hrun & Hlen' & Hrows' & Hvolt & Hother);
      try lia; try assumption.
    { rewrite Hct1. subst ct1. now rewrite length_insert. }
    { rewrite Hct1. subst ct1. apply Forall_insert; [assumption|].
      now rewrite length_insert. }
    exists s'. split; [exact Hrun|]. split; [exact Hlen'|]. split; [exact Hrows'|].
    split; [exact Hvolt|].
    intros r c Hrc. rewrite Hother by lia.
    unfold cell_at. rewrite Hct1. subst ct1.
    destruct (decide (r = row)) as [->|Hne].
    + rewrite list_lookup_insert_eq by lia. rewrite Hr0. cbn [mbind option_bind].
      apply list_lookup_insert_ne. lia.
    + now rewrite list_lookup_insert_ne by congruence.
Qed.

Lemma arrays_untouched (id : Z) (s s' : State) :
  cell_voltages s' = cell_voltages s ->
  cell_temperatures s' = cell_temperatures s ->
  arrays_wf s ->
  arrays_wf s'
  /\ (forall j : nat,
        cell_voltages s' !! j <> cell_voltages s !! j ->
        CELL_VOLTAGES_BASE_ID <= id <= CELL_VOLTAGES_BASE_ID + 7
        /\ 4 * (id - CELL_VOLTAGES_BASE_ID) <= Z.of_nat j
           <= 4 * (id - CELL_VOLTAGES_BASE_ID) + 3
        /\ Z.of_nat j < 32)
  /\ (forall r c : nat,
        cell_at s' r c <> cell_at s r c ->
        (c < 8)%nat /\ ((id = 0x550 /\ r = 0%nat) \/ (id = 0x562 /\ r = 1%nat))).
Proof.
  intros Hv Ht Hwf. unfold arrays_wf, cell_at. rewrite Hv, Ht.
  split; [exact Hwf|]. split; intros; congruence.
Qed.

Ltac next_case :=
  lazymatch goal with
  | |- exists s', (if ?c then _ else _) = Some s' /\ _ => destruct c eqn:?
  end.

Ltac untouched :=
  eexists; split;
  [ reflexivity
  | rewrite ?driver_controls_eq;
    apply arrays_untouched; [ reflexivity | reflexivity | assumption ] ].

(** C10. On a frame as the peripheral delivers it, and arrays of their
    declared sizes, the receive routine makes no access out of range (it
    returns a state), the arrays keep their sizes, a cell voltage that
    changes has an index in 4(id-0x360) .. 4(id-0x360)+3, inside 0..31, on a
    frame 0x360..0x367, and a cell temperature that changes is in columns
    0..7 of row 0 on frame 0x550 or of row 1 on frame 0x562. *)
Theorem decoder_writes_in_bounds (msg : CANMessage.t) (s : State) :
  arrays_wf s -> CANMessage.wf msg ->
  exists s',
    CANRecieveRoutine msg s = Some s'
    /\ arrays_wf s'
    /\ (forall j : nat,
          cell_voltages s' !! j <> cell_voltages s !! j ->
          CELL_VOLTAGES_BASE_ID <= CANMessage.id msg <= CELL_VOLTAGES_BASE_ID + 7
          /\ 4 * (CANMessage.id msg - CELL_VOLTAGES_BASE_ID) <= Z.of_nat j
             <= 4 * (CANMessage.id msg - CELL_VOLTAGES_BASE_ID) + 3
          /\ Z.of_nat j < 32)
    /\ (forall r c : nat,
          cell_at s' r c <> cell_at s r c ->
          (c < 8)%nat
          /\ ((CANMessage.id msg = 0x550 /\ r = 0%nat)
              \/ (CANMessage.id msg = 0x562 /\ r = 1%nat))).
Proof.
  intros Hwf [Hd Hbytes].
  destruct (ivt_word_Some _ Hd) as [w Hw].
  destruct (array_load_Some (CANMessage.data msg) 0) as [d0 Hd0]; [lia|].
  unfold CANRecieveRoutine. rewrite Hw, Hd0. cbn [mbind option_bind].
  next_case.
  { (* 0x360 .. 0x367 *)
    apply andb_true_iff in Heqb as [H1 H2]. apply Z.leb_le in H1, H2.
    destruct Hwf as (Hcv & Hct & Hrows).
    destruct (cell_voltage_loop msg 4 0 s) as (s' & Hrun & Hlen & Htemp & Hother);
      try assumption; try lia.
    exists s'. split; [exact Hrun|].
    split; [|split].
    - unfold arrays_wf. rewrite Htemp. auto.
    - intros j Hj.
      destruct (decide ((CANMessage.id msg - CELL_VOLTAGES_BASE_ID) * 4 + 0 <= Z.of_nat j
                        < (CANMessage.id msg - CELL_VOLTAGES_BASE_ID) * 4 + 0 + Z.of_nat 4))
        as [Hin|Hout].
      + unfold CELL_VOLTAGES_BASE_ID in *. lia.
      + exfalso. apply Hj. apply Hother. exact Hout.
    - intros r c Hrc. exfalso. apply Hrc. unfold cell_at. now rewrite Htemp. }
  next_case; [untouched|].
  next_case; [untouched|].
  next_case; [untouched|].
  next_case; [untouched|].
  next_case; [untouched|].
  next_case; [untouched|].
  next_case; [untouched|].
  next_case; [untouched|].
  next_case; [untouched|].
  next_case; [untouched|].
  next_case; [untouched|].
  next_case; [untouched|].
  next_case; [untouched|].
  next_case; [untouched|].
  next_case; [untouched|].
  next_case.
  { (* 0x550 *)
    apply Z.eqb_eq in Heqb15.
    destruct Hwf as (Hcv & Hct & Hrows).
    destruct (cell_temperature_loop msg 0 8 0 s)
      as (s' & Hrun & Hlen & Hrows' & Hvolt & Hother); try assumption; try lia.
    exists s'. split; [exact Hrun|].
    split; [|split].
    - unfold arrays_wf. rewrite Hvolt. auto.
    - intros j Hj. exfalso. apply Hj. now rewrite Hvolt.
    - intros r c Hrc.
      destruct (decide (r = 0%nat /\ 0 <= Z.of_nat c < 0 + Z.of_nat 8)) as [[-> Hc]|Hout].
      + split; [lia|]. left. split; [exact Heqb15 | reflexivity].
      + exfalso. apply Hrc. apply Hother. exact Hout. }
  next_case.
  { (* 0x562 *)
    apply Z.eqb_eq in Heqb16.
    destruct Hwf as (Hcv & Hct & Hrows).
    destruct (cell_temperature_loop msg 1 8 0 s)
      as (s' & Hrun & Hlen & Hrows' & Hvolt & Hother); try assumption; try lia.
    exists s'. split; [exact Hrun|].
    split; [|split].
    - unfold arrays_wf. rewrite Hvolt. auto.
    - intros j Hj. exfalso. apply Hj. now rewrite Hvolt.
    - intros r c Hrc.
      destruct (decide (r = 1%nat /\ 0 <= Z.of_nat c < 0 + Z.of_nat 8)) as [[-> Hc]|Hout].
      + split; [lia|]. right. split; [exact Heqb16 | reflexivity].
      + exfalso. apply Hrc. apply Hother. exact Hout. }
  untouched.
Qed.

(** ** Soundness of [covered] *)

Section CoveredFacts.

Variable allowed : event -> Prop.
Variable J : State -> Prop.
Variable L : State -> Prop.

Abbreviation stable := (stable allowed).
Abbreviation covered := (covered allowed J L).
Abbreviation reachable_under := (reachable_under allowed).
Abbreviation machine_inv := (machine_inv allowed J L).

Lemma covered_stable P k : covered P k -> stable P.
Proof. destruct 1; assumption. Qed.

Lemma covered_holds P k s : covered P k -> P s -> J s.
Proof. destruct 1; auto. Qed.

Lemma covered_main_step P k s pin :
  k <> [] -> covered P k -> P s ->
  machine_inv (main_step pin {| st := s; pc := k |}).
Proof.
  intros Hk Hc HP. unfold main_step, machine_inv. cbn [pc st].
  destruct Hc as [P ? ? ?|P Q f k ? ? Hf Hk'|P k ? ? Hk'
                 |P Q1 Q2 c body k ? ? H1 H2 Hb Hk'
                 |P Q1 Q2 c b1 b2 k ? ? H1 H2 Hb1 Hb2].
  - congruence.
  - cbn [pc st]. exists Q. split; [apply Hf, HP | exact Hk'].
  - cbn [pc st]. destruct pin.
    + exists P. split; assumption.
    + exists P. split; [assumption|]. constructor; assumption.
  - cbn [pc st]. destruct (c s) eqn:Ec.
    + exists Q1. split; [apply H1; assumption | exact Hb].
    + exists Q2. split; [apply H2; assumption | exact Hk'].
  - cbn [pc st]. destruct (c s) eqn:Ec.
    + exists Q1. split; [apply H1; assumption | exact Hb1].
    + exists Q2. split; [apply H2; assumption | exact Hb2].
Qed.

Hypothesis loop_covered : covered L loop_body.

Lemma machine_inv_main_step m pin : machine_inv m -> machine_inv (main_step pin m).
Proof.
  intros (P & HP & Hc). destruct m as [s k]. cbn [st pc] in *.
  destruct k as [|i k].
  - assert (HL : L s) by (inversion Hc; auto).
    change (main_step pin {| st := s; pc := [] |})
      with (main_step pin {| st := s; pc := loop_body |}).
    apply covered_main_step with (P := L); [discriminate | exact loop_covered | exact HL].
  - apply covered_main_step with (P := P); [discriminate | exact Hc | exact HP].
Qed.

Lemma machine_inv_interrupt m ev s' :
  allowed ev -> machine_inv m -> interrupt ev (st m) = Some s' ->
  machine_inv {| st := s'; pc := pc m |}.
Proof.
  intros Ha (P & HP & Hc) Hi. exists P. cbn [st pc]. split; [|exact Hc].
  eapply (covered_stable P (pc m) Hc); eassumption.
Qed.

(** Soundness: a covered prologue and a covered loop body give [J] in every
    state reached through allowed interrupts. *)
Theorem covered_sound (P0 : State -> Prop) :
  P0 boot_state -> covered P0 main_prologue ->
  forall m, reachable_under m -> J (st m).
Proof.
  intros HP0 Hc0 m Hm.
  assert (Hinv : machine_inv m).
  { induction Hm as [|m pin Hm IH|m ev s' Hm IH Ha Hi].
    - exists P0. split; assumption.
    - apply machine_inv_main_step, IH.
    - eapply machine_inv_interrupt; eassumption. }
  destruct Hinv as (P & HP & Hc). eapply covered_holds; eassumption.
Qed.

End CoveredFacts.

(** ** What the interrupts leave alone *)

Lemma for_loop_preserves {A} (view : State -> A) (body : Z -> State -> option State) :
  (forall i s s', body i s = Some s' -> view s' = view s) ->
  forall (n : nat) i s s', for_loop n i body s = Some s' -> view s' = view s.
Proof.
  intros Hbody. induction n as [|n IH]; intros i s s' H; cbn [for_loop] in H.
  - now inversion H.
  - destruct (body i s) as [s1|] eqn:E; cbn [mbind option_bind] in H; [|discriminate H].
    rewrite (IH _ _ _ H). eapply Hbody. exact E.
Qed.

Ltac bind_case H :=
  match type of H with
  | context [mbind _ ?o] =>
      destruct o eqn:?; cbn [mbind option_bind] in H; [|discriminate H]
  end.

Lemma cell_voltage_body_owned msg i s s' :
  cell_voltage_body msg i s = Some s' -> owned s' = owned s.
Proof.
  unfold cell_voltage_body. intros H. repeat bind_case H.
  injection H as <-. reflexivity.
Qed.

Lemma cell_temperature_body_owned msg row i s s' :
  cell_temperature_body msg row i s = Some s' -> owned s' = owned s.
Proof.
  unfold cell_temperature_body. intros H. repeat bind_case H.
  injection H as <-. reflexivity.
Qed.

Ltac next_branch H :=
  lazymatch type of H with
  | (if ?c then _ else _) = Some _ => destruct c eqn:?
  end.

Ltac owned_branch H :=
  first
    [ bind_case H; injection H as <-; rewrite ?driver_controls_eq; reflexivity
    | injection H as <-; reflexivity ].

Lemma CANRecieveRoutine_owned msg s s' :
  CANRecieveRoutine msg s = Some s' -> owned s' = owned s.
Proof.
  unfold CANRecieveRoutine. intros H.
  next_branch H.
  { eapply (for_loop_preserves owned); [|exact H].
    intros; eapply cell_voltage_body_owned; eassumption. }
  do 15 (next_branch H; [owned_branch H|]).
  next_branch H.
  { eapply (for_loop_preserves owned); [|exact H].
    intros; eapply cell_temperature_body_owned; eassumption. }
  next_branch H.
  { eapply (for_loop_preserves owned); [|exact H].
    intros; eapply cell_temperature_body_owned; eassumption. }
  injection H as <-. reflexivity.
Qed.

Lemma interrupt_owned ev s s' : interrupt ev s = Some s' -> owned s' = owned s.
Proof.
  destruct ev as [pin|msg| | |us]; cbn [interrupt]; intros H.
  - discriminate H.
  - destruct (rx_irq_attached s && wfb msg); [|discriminate H].
    eapply CANRecieveRoutine_owned; exact H.
  - destruct (rx_irq_attached s); [|discriminate H]. injection H as <-. reflexivity.
  - destruct (ticker_attached s); [|discriminate H]. injection H as <-. reflexivity.
  - destruct (0 <=? us); [|discriminate H]. injection H as <-. reflexivity.
Qed.

Lemma stable_owned (allowed : event -> Prop) (A : _ -> Prop) :
  stable allowed (fun s => A (owned s)).
Proof.
  intros ev s s' _ HA Hi. now rewrite (interrupt_owned _ _ _ Hi).
Qed.

(** ** The sequencer flags in every state *)

Lemma stable_seq_assert allowed A : stable allowed (seq_assert A).
Proof.
  intros ev s s' _ HA Hi. pose proof (interrupt_owned _ _ _ Hi) as Ho.
  unfold owned in Ho. injection Ho as HB HP _ _ _ _ _.
  unfold seq_assert. now rewrite HB, HP.
Qed.

Lemma check_cells_eq s :
  check_cells s
  = check_ivt_temperature (check_pack_voltage (check_current (check_charging s))).
Proof. reflexivity. Qed.

Lemma seq_assert_view A s s' : seq_view s' = seq_view s -> seq_assert A s -> seq_assert A s'.
Proof.
  unfold seq_view, seq_assert. intros Hv. injection Hv as -> -> ->. auto.
Qed.

Lemma check_cells_seq_view s : seq_view (check_cells s) = seq_view s.
Proof.
  rewrite check_cells_eq, check_ivt_temperature_eq, check_pack_voltage_eq,
    check_current_eq, check_charging_eq.
  destruct_state s. reduce_goal. reflexivity.
Qed.

Lemma update_eq s :
  update_BMU_status_array s = status_fans (status_modes (status_safe (status_faults s))).
Proof. reflexivity. Qed.

Lemma update_seq_view s : seq_view (update_BMU_status_array s) = seq_view s.
Proof.
  rewrite update_eq, status_fans_eq, status_modes_eq, status_safe_eq, status_faults_eq.
  destruct_state s. reduce_goal. reflexivity.
Qed.

Section SequencerInvariant.

Abbreviation all := any_event.
Abbreviation cov A := (covered any_event (seq_assert seq_ok) (seq_assert seq_ok) (seq_assert A)).

Ltac bools :=
  let H := fresh in
  intros [] [] []; cbv; intros H; first [ discriminate H | reflexivity ].

(** A step of the main thread that is a single setter, or a test. *)
Ltac vc :=
  let s := fresh "s" in
  let p := fresh "p" in let d := fresh "d" in let h := fresh "h" in
  intros s; unfold seq_assert;
  destruct s as [[? ? ? ? ? ? ? p d ? ? ? ? ?] ? ? [? ? h ? ? ? ? ?]
                 ? ? ? ? ? ? ? ? ? ? ? ? ? ? ? ? ? ? ? ? ? ? ? ?];
  reduce_goal; destruct p, d, h; cbv;
  intros; first [ discriminate | reflexivity ].

Lemma cov_do A B f k :
  (forall p d h, A p d h = true -> seq_ok p d h = true) ->
  (forall s, seq_assert A s -> seq_assert B (f s)) ->
  cov B k -> cov A (Do f :: k).
Proof.
  intros HJ Hf Hk. apply covered_do with (Q := seq_assert B);
    [apply stable_seq_assert | intros s; apply HJ | exact Hf | exact Hk].
Qed.

Lemma cov_wait A k :
  (forall p d h, A p d h = true -> seq_ok p d h = true) ->
  cov A k -> cov A (WaitDetect :: k).
Proof.
  intros HJ Hk. apply covered_wait;
    [apply stable_seq_assert | intros s; apply HJ | exact Hk].
Qed.

Lemma cov_if A B1 B2 c body k :
  (forall p d h, A p d h = true -> seq_ok p d h = true) ->
  (forall s, seq_assert A s -> c s = true -> seq_assert B1 s) ->
  (forall s, seq_assert A s -> c s = false -> seq_assert B2 s) ->
  cov B1 (body ++ k) -> cov B2 k -> cov A (If c body :: k).
Proof.
  intros HJ H1 H2 Hb Hk.
  apply covered_if with (Q1 := seq_assert B1) (Q2 := seq_assert B2);
    [apply stable_seq_assert | intros s; apply HJ | exact H1 | exact H2 | exact Hb | exact Hk].
Qed.

Lemma cov_ifelse A B1 B2 c body1 body2 k :
  (forall p d h, A p d h = true -> seq_ok p d h = true) ->
  (forall s, seq_assert A s -> c s = true -> seq_assert B1 s) ->
  (forall s, seq_assert A s -> c s = false -> seq_assert B2 s) ->
  cov B1 (body1 ++ k) -> cov B2 (body2 ++ k) -> cov A (IfElse c body1 body2 :: k).
Proof.
  intros HJ H1 H2 Hb1 Hb2.
  apply covered_ifelse with (Q1 := seq_assert B1) (Q2 := seq_assert B2);
    [apply stable_seq_assert | intros s; apply HJ | exact H1 | exact H2 | exact Hb1 | exact Hb2].
Qed.

Lemma cov_nil A :
  (forall p d h, A p d h = true -> seq_ok p d h = true) -> cov A [].
Proof.
  intros HJ. apply covered_nil;
    [apply stable_seq_assert | intros s; apply HJ | intros s; apply HJ].
Qed.

(** A statement that writes none of the three. *)
Ltac same A := apply (cov_do A A); [bools | vc |].
(** A statement after which the assertion is [B]. *)
Ltac next A B := apply (cov_do A B); [bools | vc |].

Lemma covered_precharge k :
  cov seq_ok k -> cov not_precharged (precharge ++ k).
Proof.
  intros Hk. unfold precharge. cbn [app].
  next not_precharged both_clear.
  same both_clear. same both_clear. same both_clear. same both_clear.
  apply cov_wait; [bools|].
  next both_clear both_clear_closed.
  same both_clear_closed. same both_clear_closed. same both_clear_closed.
  next both_clear_closed seq_ok.
  exact Hk.
Qed.

Lemma covered_discharge k :
  cov seq_ok k -> cov not_discharged (discharge ++ k).
Proof.
  intros Hk. unfold discharge. cbn [app].
  next not_discharged both_clear.
  same both_clear. same both_clear.
  next both_clear both_clear_open.
  same both_clear_open. same both_clear_open. same both_clear_open.
  next both_clear_open seq_ok.
  exact Hk.
Qed.

Lemma covered_update_relays k :
  cov seq_ok k -> cov seq_ok (update_relays ++ k).
Proof.
  intros Hk. unfold update_relays. cbn [app].
  apply (cov_ifelse seq_ok seq_ok seq_ok); [bools | vc | vc | |]; cbn [app].
  - same seq_ok. same seq_ok. same seq_ok.
    apply (cov_if seq_ok not_precharged seq_ok); [bools | vc | vc | | exact Hk].
    apply covered_precharge, Hk.
  - same seq_ok. same seq_ok.
    apply (cov_if seq_ok not_discharged seq_ok); [bools | vc | vc | |].
    + apply covered_discharge. same seq_ok. same seq_ok. exact Hk.
    + same seq_ok. same seq_ok. exact Hk.
Qed.

Lemma covered_beat k : cov seq_ok k -> cov seq_ok (beat ++ k).
Proof.
  intros Hk. unfold beat. rewrite <- app_comm_cons.
  same seq_ok. apply covered_update_relays, Hk.
Qed.

Lemma covered_loop_body : cov seq_ok loop_body.
Proof.
  unfold loop_body.
  apply (cov_do seq_ok seq_ok);
    [bools | intros s; apply seq_assert_view, check_cells_seq_view |].
  apply (cov_do seq_ok seq_ok);
    [bools | intros s; apply seq_assert_view, update_seq_view |].
  apply (cov_if seq_ok seq_ok seq_ok); [bools | vc | vc | |].
  { rewrite <- app_comm_cons. same seq_ok. apply covered_beat.
    apply (cov_if seq_ok seq_ok seq_ok); [bools | vc | vc | |].
    - cbn [app].
      apply (cov_if seq_ok seq_ok seq_ok); [bools | vc | vc | |].
      + apply covered_beat. same seq_ok. apply cov_nil; bools.
      + same seq_ok. apply cov_nil; bools.
    - same seq_ok. apply cov_nil; bools. }
  apply (cov_if seq_ok seq_ok seq_ok); [bools | vc | vc | |].
  - cbn [app].
    apply (cov_if seq_ok seq_ok seq_ok); [bools | vc | vc | |].
    + apply covered_beat. same seq_ok. apply cov_nil; bools.
    + same seq_ok. apply cov_nil; bools.
  - same seq_ok. apply cov_nil; bools.
Qed.

Lemma covered_main_prologue : cov seq_ok main_prologue.
Proof.
  unfold main_prologue. do 7 same seq_ok. apply cov_nil; bools.
Qed.

Lemma reachable_all m : reachable m -> reachable_under all m.
Proof.
  induction 1 as [|m ev m' Hm IH Hs].
  - constructor.
  - destruct ev as [pin|msg| | |us]; cbn [step] in Hs.
    + injection Hs as <-. now constructor.
    + destruct (interrupt _ (st m)) as [s'|] eqn:E; [|discriminate Hs].
      injection Hs as <-. eapply reachable_under_irq; [exact IH | exact I | exact E].
    + destruct (interrupt _ (st m)) as [s'|] eqn:E; [|discriminate Hs].
      injection Hs as <-. eapply reachable_under_irq; [exact IH | exact I | exact E].
    + destruct (interrupt _ (st m)) as [s'|] eqn:E; [|discriminate Hs].
      injection Hs as <-. eapply reachable_under_irq; [exact IH | exact I | exact E].
    + destruct (interrupt _ (st m)) as [s'|] eqn:E; [|discriminate Hs].
      injection Hs as <-. eapply reachable_under_irq; [exact IH | exact I | exact E].
Qed.

Lemma sequencer_flags_ok m : reachable m -> seq_assert seq_ok (st m).
Proof.
  intros Hm.
  apply (covered_sound all (seq_assert seq_ok) (seq_assert seq_ok)
           covered_loop_body (seq_assert seq_ok)).
  - reflexivity.
  - exact covered_main_prologue.
  - apply reachable_all, Hm.
Qed.

End SequencerInvariant.

(** ** Reachable states given by a trace *)

Lemma run_reachable evs : forall m m', reachable m -> run evs m = Some m' -> reachable m'.
Proof.
  induction evs as [|ev evs IH]; intros m m' Hm H; cbn [run] in H.
  - injection H as <-. exact Hm.
  - destruct (step ev m) as [m1|] eqn:E; cbn [mbind option_bind] in H; [|discriminate H].
    eapply IH; [|exact H]. eapply reachable_step; eassumption.
Qed.

Lemma run_from_boot_reachable evs : reachable (run_from_boot evs).
Proof.
  unfold run_from_boot. destruct (run evs boot) as [m|] eqn:E.
  - eapply run_reachable; [apply reachable_boot | exact E].
  - apply reachable_boot.
Qed.

(** C3. In every reachable state, between any two statements of the main
    thread and whatever interrupts occurred, [precharge_state] and
    [discharge_state] are not both true.  (The proof follows the statements
    of [precharge] and [discharge]: each clears the other flag first and
    sets its own flag last, and no other statement or interrupt writes
    them.) *)
Theorem precharge_discharge_exclusive (m : machine) :
  reachable m ->
  ~ (precharge_state (BMU (st m)) = true /\ discharge_state (BMU (st m)) = true).
Proof.
  intros Hm [Hp Hd]. pose proof (sequencer_flags_ok m Hm) as H.
  unfold seq_assert, seq_ok in H. rewrite Hp, Hd in H. discriminate H.
Qed.

Lemma precharge_discharge_exclusive_witness :
  precharge_state (BMU (st (run_from_boot drive_trace))) = true
  /\ ~ (precharge_state (BMU (st (run_from_boot drive_trace))) = true
        /\ discharge_state (BMU (st (run_from_boot drive_trace))) = true).
Proof.
  split.
  - vm_compute. reflexivity.
  - apply (precharge_discharge_exclusive (run_from_boot drive_trace)).
    apply run_from_boot_reachable.
Defined.

Lemma boot_arrays_wf : arrays_wf boot_state.
Proof.
  unfold arrays_wf. split; [reflexivity|]. split; [reflexivity|].
  repeat constructor.
Qed.

Lemma decoder_writes_in_bounds_witness :
  exists s',
    CANRecieveRoutine cells_4_7_frame boot_state = Some s'
    /\ cell_voltages s' !! 4%nat = Some 0x8C10
    /\ cell_voltages s' !! 7%nat = Some 0x8C13
    /\ cell_voltages s' !! 8%nat = Some 0
    /\ arrays_wf s'.
Proof.
  destruct (decoder_writes_in_bounds cells_4_7_frame boot_state) as (s' & Hrun & Hwf & _).
  - exact boot_arrays_wf.
  - split; [reflexivity|]. repeat constructor; lia.
  - exists s'. split; [exact Hrun|].
    assert (Hs : CANRecieveRoutine cells_4_7_frame boot_state = Some s') by exact Hrun.
    vm_compute in Hs. injection Hs as <-.
    split; [reflexivity|]. split; [reflexivity|]. split; [reflexivity|]. exact Hwf.
Defined.

(** ** One evaluation of the sequencer *)

(** The globals the sequencer reads and writes, as variables. *)
Ltac destruct_sequencer s :=
  let b := fresh "bmu" in let p := fresh "io" in
  destruct s as [b ? ? p ? ? ? ? ? ? ? ? ? ? ? ? ? ? ? ? ? ? ? ? ? ? ? ?];
  destruct b, p.

Lemma exec_update_relays (detect : bool) (s s' : State) :
  seq_assert seq_ok s ->
  exec detect update_relays s = Some s' ->
  (if drive_guard s
   then contactor_array s' = 1
        /\ precharge_state (BMU s') = true /\ hvdc_enable (pins s') = true
        /\ discharge_state (BMU s') = false
        /\ solar_enable (pins s') = solar_enable (pins s)
   else contactor_array s' = 0
        /\ precharge_state (BMU s') = false /\ hvdc_enable (pins s') = false
        /\ discharge_state (BMU s') = true
        /\ solar_enable (pins s') = solar_demand s && safe_to_drive (BMU s)
        /\ solar_indic (pins s') = solar_enable (pins s'))
  /\ ignition_demand s' = ignition_demand s
  /\ previous_ignition_demand s' = previous_ignition_demand s
  /\ solar_demand s' = solar_demand s
  /\ safe_to_drive (BMU s') = safe_to_drive (BMU s)
  /\ can_tx s' = can_tx s ++ [CANMessage.mk 0x34F [contactor_array s'] 1].
Proof.
  unfold seq_assert, seq_ok, drive_guard. destruct_sequencer s.
  reduce_goal.
  destruct precharge_state0, discharge_state0, hvdc_enable0;
    intros Hok; try discriminate Hok; clear Hok;
    destruct ignition_demand0, previous_ignition_demand0, safe_to_drive0, detect;
    intros H; reduce_hyp H; try discriminate H;
    injection H as <-; reduce_goal; repeat split; reflexivity.
Qed.

(** With the precharge-detect input high, [update_relays] returns. *)
Lemma update_relays_returns (s : State) :
  exists s', exec true update_relays s = Some s'.
Proof.
  destruct_sequencer s.
  destruct ignition_demand0, previous_ignition_demand0, safe_to_drive0,
    precharge_state0, discharge_state0; eexists; reduce_goal; reflexivity.
Qed.

(** With the precharge-detect input never high, a precharge does not. *)
Lemma update_relays_blocks (s : State) :
  drive_guard s = true -> precharge_state (BMU s) = false ->
  exec false update_relays s = None.
Proof.
  unfold drive_guard. destruct_sequencer s. reduce_goal.
  intros Hg Hp. rewrite Hp.
  destruct ignition_demand0, previous_ignition_demand0, safe_to_drive0;
    try discriminate Hg. reflexivity.
Qed.

(** C2 (as stated, refuted).  Two reachable states in which the contactor
    command is 1 although the condition of the claim fails: in the first the
    frame 0x34F with payload 0x01 has just been sent and [precharge_state]
    is still false; in the second the main contactor is closed and the
    driver has switched the ignition off since the last beat. *)
Lemma contactor_command_not_invariant :
  (exists m, reachable m
     /\ contactor_array (st m) = 1
     /\ List.last (can_tx (st m)) stop_msg = CANMessage.mk 0x34F [1] 1
     /\ precharge_state (BMU (st m)) = false)
  /\ (exists m, reachable m
        /\ contactor_array (st m) = 1
        /\ hvdc_enable (pins (st m)) = true
        /\ ignition_demand (st m) = false).
Proof.
  split.
  - exists (run_from_boot command_sent_trace).
    split; [apply run_from_boot_reachable|]. vm_compute. repeat split; reflexivity.
  - exists (run_from_boot ignition_off_trace).
    split; [apply run_from_boot_reachable|]. vm_compute. repeat split; reflexivity.
Qed.

(** C2 (amended).  When an evaluation of [update_relays] started in a
    reachable state returns, without interrupt in between, a contactor
    command of 1 or a closed main contactor imply [ignition_demand],
    [safe_to_drive] and [precharge_state]; the command is 1 exactly when the
    guard held at the start, and the frame sent carries the command. *)
Theorem contactor_command_after_beat (m : machine) (detect : bool) (s' : State) :
  reachable m ->
  exec detect update_relays (st m) = Some s' ->
  (contactor_array s' = 1 \/ hvdc_enable (pins s') = true ->
   ignition_demand s' = true /\ safe_to_drive (BMU s') = true
   /\ precharge_state (BMU s') = true
   /\ contactor_array s' = 1 /\ hvdc_enable (pins s') = true)
  /\ (contactor_array s' = 1 <-> drive_guard (st m) = true)
  /\ can_tx s' = can_tx (st m) ++ [CANMessage.mk 0x34F [contactor_array s'] 1].
Proof.
  intros Hm He.
  destruct (exec_update_relays detect (st m) s' (sequencer_flags_ok m Hm) He)
    as (Hb & Hi & _ & _ & Hs & Htx).
  destruct (drive_guard (st m)) eqn:G.
  - destruct Hb as (Hc & Hp & Hh & _).
    unfold drive_guard in G. apply andb_true_iff in G as [G Hsafe].
    apply andb_true_iff in G as [Hig _].
    split; [|split; [|exact Htx]].
    + intros _. rewrite Hi, Hs. auto.
    + split; auto.
  - destruct Hb as (Hc & _ & Hh & _).
    split; [|split; [|exact Htx]].
    + intros [H|H]; [rewrite Hc in H; discriminate H | rewrite Hh in H; discriminate H].
    + split; intros H; [rewrite Hc in H|]; discriminate H.
Qed.

Lemma contactor_command_after_beat_witness :
  exists s',
    exec true update_relays (st (run_from_boot before_drive_beat)) = Some s'
    /\ contactor_array s' = 1
    /\ ignition_demand s' = true /\ safe_to_drive (BMU s') = true
    /\ precharge_state (BMU s') = true.
Proof.
  destruct (exec true update_relays (st (run_from_boot before_drive_beat)))
    as [s'|] eqn:E; [|vm_compute in E; discriminate E].
  exists s'. split; [reflexivity|].
  assert (Hc : contactor_array s' = 1).
  { assert (H : option_map contactor_array
                  (exec true update_relays (st (run_from_boot before_drive_beat)))
                = Some 1) by (vm_compute; reflexivity).
    rewrite E in H. injection H as H. exact H. }
  split; [exact Hc|].
  destruct (contactor_command_after_beat (run_from_boot before_drive_beat) true s'
              (run_from_boot_reachable _) E) as (H & _).
  destruct (H (or_introl Hc)) as (H1 & H2 & H3 & _). auto.
Defined.

(** C8 (as stated, refuted).  Two reachable states in which the solar enable
    output is 1 although the condition of the claim fails: in the first the
    contactors are engaged (command 1, main contactor closed); in the second
    the driver has switched the solar demand off since the last beat. *)
Lemma solar_enable_not_invariant :
  (exists m, reachable m
     /\ solar_enable (pins (st m)) = true
     /\ contactor_array (st m) = 1
     /\ hvdc_enable (pins (st m)) = true)
  /\ (exists m, reachable m
        /\ solar_enable (pins (st m)) = true
        /\ solar_demand (st m) = false).
Proof.
  split.
  - exists (run_from_boot solar_then_drive_trace).
    split; [apply run_from_boot_reachable|]. vm_compute. repeat split; reflexivity.
  - exists (run_from_boot solar_off_trace).
    split; [apply run_from_boot_reachable|]. vm_compute. repeat split; reflexivity.
Qed.

(** C8 (amended).  When an evaluation of [update_relays] started in a
    reachable state returns, without interrupt in between: if the guard did
    not hold at the start (a beat in a non-driving state), the solar enable
    output is [solar_demand && safe_to_drive], the contactor command is 0
    and the main contactor is open; if the guard held, the solar enable
    output is not written. *)
Theorem solar_enable_after_beat (m : machine) (detect : bool) (s' : State) :
  reachable m ->
  exec detect update_relays (st m) = Some s' ->
  (drive_guard (st m) = false ->
   solar_enable (pins s') = solar_demand s' && safe_to_drive (BMU s')
   /\ solar_indic (pins s') = solar_enable (pins s')
   /\ contactor_array s' = 0 /\ hvdc_enable (pins s') = false)
  /\ (drive_guard (st m) = true ->
      solar_enable (pins s') = solar_enable (pins (st m))).
Proof.
  intros Hm He.
  destruct (exec_update_relays detect (st m) s' (sequencer_flags_ok m Hm) He)
    as (Hb & _ & _ & Hsd & Hs & _).
  split; intros G; rewrite G in Hb.
  - destruct Hb as (Hc & _ & Hh & _ & Hsol & Hind).
    rewrite Hsd, Hs. auto.
  - destruct Hb as (_ & _ & _ & _ & Hsol). exact Hsol.
Qed.

Lemma solar_enable_after_beat_witness :
  exists s',
    exec true update_relays (st (run_from_boot before_solar_beat)) = Some s'
    /\ drive_guard (st (run_from_boot before_solar_beat)) = false
    /\ solar_enable (pins s') = solar_demand s' && safe_to_drive (BMU s')
    /\ contactor_array s' = 0.
Proof.
  destruct (exec true update_relays (st (run_from_boot before_solar_beat)))
    as [s'|] eqn:E; [|vm_compute in E; discriminate E].
  exists s'. split; [reflexivity|].
  assert (G : drive_guard (st (run_from_boot before_solar_beat)) = false)
    by (vm_compute; reflexivity).
  split; [exact G|].
  destruct (solar_enable_after_beat (run_from_boot before_solar_beat) true s'
              (run_from_boot_reachable _) E) as (H & _).
  destruct (H G) as (H1 & _ & H3 & _). auto.
Defined.

(** The evaluator and the encoder write one indicator each. *)
Lemma check_cells_pins s :
  pins (check_cells s) = set_charge_indic (ivt_max_current s <? 0) (pins s).
Proof.
  rewrite check_cells_eq, check_ivt_temperature_eq, check_pack_voltage_eq,
    check_current_eq, check_charging_eq.
  destruct_state s. reduce_goal. reflexivity.
Qed.

Lemma update_pins s :
  pins (update_BMU_status_array s)
  = set_safe_indic (negb (ivt_timeout s || fault_bits (BMU s))) (pins s).
Proof. destruct_state s. encoder_field. Qed.

Lemma solar_enable_evaluator s :
  solar_enable (pins (update_BMU_status_array (check_cells s))) = solar_enable (pins s).
Proof. rewrite update_pins, check_cells_pins. reflexivity. Qed.

(** ** The IVT freshness test *)

(** C4 (as stated, refuted).  Two reachable states in which the IVT timeout
    test and the time elapsed since the most recent current frame disagree:
    after 1.2 s without any frame the test is false, and a heartbeat has
    been sent; just after a first current frame that arrived 1.5 s after
    boot the test is true. *)
Lemma ivt_timeout_is_not_staleness :
  (exists m, reachable m
     /\ elapsed_ms (IVT_timer (st m)) = 1200
     /\ ivt_stale (st m) = true /\ ivt_timeout (st m) = false
     /\ can_tx (st m) !! 0%nat = Some (CANMessage.mk 0x400 [0x0A; 0; 0; 0; 0; 0] 6))
  /\ (exists m, reachable m
        /\ elapsed_ms (IVT_timer (st m)) = 0
        /\ ivt_stale (st m) = false /\ ivt_timeout (st m) = true).
Proof.
  split.
  - exists (run_from_boot silent_trace).
    split; [apply run_from_boot_reachable|]. vm_compute. repeat split; reflexivity.
  - exists (run_from_boot late_frame_trace).
    split; [apply run_from_boot_reachable|]. vm_compute. repeat split; reflexivity.
Qed.

(** The fields of [cold] that the evaluator and the encoder leave alone. *)
Lemma check_cells_cold_fields s :
  IVT_time (check_cells s) = IVT_time s
  /\ ivt_front (check_cells s) = ivt_front s
  /\ can_tx (check_cells s) = can_tx s
  /\ safe_to_drive (BMU (check_cells s)) = safe_to_drive (BMU s)
  /\ BMU_status_array (check_cells s) = BMU_status_array s.
Proof.
  rewrite check_cells_eq, check_ivt_temperature_eq, check_pack_voltage_eq,
    check_current_eq, check_charging_eq.
  destruct_state s. reduce_goal. repeat split; reflexivity.
Qed.

Lemma update_ivt_front s : ivt_front (update_BMU_status_array s) = ivt_front s.
Proof. destruct_state s. encoder_field. Qed.

Lemma update_can_tx s : can_tx (update_BMU_status_array s) = can_tx s.
Proof. destruct_state s. encoder_field. Qed.

(** A pack that reads 0 mV is under voltage after the pass. *)
Lemma check_cells_under_voltage s :
  voltage1 (ivt_front s) = 0 -> under_voltage (BMU (check_cells s)) = true.
Proof.
  rewrite check_cells_eq, check_ivt_temperature_eq, check_pack_voltage_eq,
    check_current_eq, check_charging_eq.
  destruct_state s. reduce_goal. intros ->.
  repeat match goal with
         | |- context [if ?c then _ else _] =>
             no_inner_if c;
             first [ is_var c; destruct c
                   | let v := eval vm_compute in c in
                     lazymatch v with
                     | true => replace c with true by reflexivity
                     | false => replace c with false by reflexivity
                     end; cbv iota
                   | destruct c ]
         end; reflexivity.
Qed.

Section ColdBoot.

Abbreviation cov P := (covered no_frame cold cold P).

Lemma stable_cold : stable no_frame cold.
Proof.
  intros ev s s' Ha H Hi. destruct ev as [pin|msg| | |us]; cbn [interrupt] in Hi.
  - discriminate Hi.
  - destruct Ha.
  - destruct (rx_irq_attached s); [|discriminate Hi]. injection Hi as <-. exact H.
  - destruct (ticker_attached s); [|discriminate Hi]. injection Hi as <-. exact H.
  - destruct (0 <=? us); [|discriminate Hi]. injection Hi as <-. exact H.
Qed.

Lemma stable_cold_checked : stable no_frame cold_checked.
Proof.
  intros ev s s' Ha [H Hu] Hi. split; [eapply stable_cold; eassumption|].
  pose proof (interrupt_owned _ _ _ Hi) as Ho. unfold owned in Ho.
  injection Ho as HB _ _ _ _ _ _. now rewrite HB.
Qed.

Lemma cold_do f k :
  (forall s, cold s -> cold (f s)) -> cov cold k -> cov cold (Do f :: k).
Proof.
  intros Hf Hk. apply covered_do with (Q := cold); [apply stable_cold | auto | exact Hf | exact Hk].
Qed.

Lemma cold_if c body k :
  cov cold (body ++ k) -> cov cold k -> cov cold (If c body :: k).
Proof.
  intros Hb Hk. apply covered_if with (Q1 := cold) (Q2 := cold);
    [apply stable_cold | auto | auto | auto | exact Hb | exact Hk].
Qed.

Lemma cold_ifelse c body1 body2 k :
  cov cold (body1 ++ k) -> cov cold (body2 ++ k) -> cov cold (IfElse c body1 body2 :: k).
Proof.
  intros H1 H2. apply covered_ifelse with (Q1 := cold) (Q2 := cold);
    [apply stable_cold | auto | auto | auto | exact H1 | exact H2].
Qed.

Lemma cold_nil : cov cold [].
Proof. apply covered_nil; [apply stable_cold | auto | auto]. Qed.

(** A statement that writes none of the fields of [cold]. *)
Ltac same := apply cold_do; [intros s H; exact H|].

Lemma cold_can_send (msg : State -> CANMessage.t) k :
  (forall s, cold s -> heartbeat_unsafe (msg s)) ->
  cov cold k -> cov cold (Do (fun s => can_send (msg s) s) :: k).
Proof.
  intros Hmsg Hk. apply cold_do; [|exact Hk].
  intros s H. pose proof (Hmsg s H) as Hm.
  destruct H as (H1 & H2 & H3 & H4 & H5).
  split; [exact H1|]. split; [exact H2|]. split; [exact H3|]. split; [exact H4|].
  change (Forall heartbeat_unsafe (can_tx s ++ [msg s])).
  apply Forall_app. split; [exact H5|]. constructor; [exact Hm | constructor].
Qed.

Lemma cold_contactor_msg s : cold s -> heartbeat_unsafe (contactor_msg s).
Proof. intros _ Hid. discriminate Hid. Qed.

Lemma cold_status_msg s : cold s -> heartbeat_unsafe (BMU_status_msg s).
Proof.
  intros (_ & _ & _ & H4 & _) _. eexists _, _. split; [reflexivity | exact H4].
Qed.

Lemma cold_precharge k : cov cold k -> cov cold (precharge ++ k).
Proof.
  intros Hk. unfold precharge. cbn [app]. do 5 same.
  apply covered_wait; [apply stable_cold | auto |].
  do 5 same. exact Hk.
Qed.

Lemma cold_discharge k : cov cold k -> cov cold (discharge ++ k).
Proof. intros Hk. unfold discharge. cbn [app]. do 8 same. exact Hk. Qed.

Lemma cold_update_relays k : cov cold k -> cov cold (update_relays ++ k).
Proof.
  intros Hk. unfold update_relays. cbn [app].
  apply cold_ifelse; cbn [app].
  - same. same. apply cold_can_send; [exact cold_contactor_msg|].
    apply cold_if; [apply cold_precharge, Hk | exact Hk].
  - same. apply cold_can_send; [exact cold_contactor_msg|].
    apply cold_if.
    + apply cold_discharge. same. same. exact Hk.
    + same. same. exact Hk.
Qed.

Lemma cold_beat k : cov cold k -> cov cold (beat ++ k).
Proof.
  intros Hk. unfold beat. rewrite <- app_comm_cons.
  apply cold_can_send; [exact cold_status_msg|]. apply cold_update_relays, Hk.
Qed.

Lemma cold_check_cells s : cold s -> cold_checked (check_cells s).
Proof.
  intros (H1 & H2 & H3 & H4 & H5).
  destruct (check_cells_cold_fields s) as (Ht & Hf & Htx & Hs & Ha).
  split; [|apply check_cells_under_voltage, H2].
  unfold cold. rewrite Ht, Hf, Hs, Ha, Htx. auto.
Qed.

Lemma cold_update s : cold_checked s -> cold (update_BMU_status_array s).
Proof.
  intros [(H1 & H2 & H3 & H4 & H5) Hu].
  pose proof (update_IVT_time s) as Ht.
  pose proof (update_ivt_front s) as Hf.
  pose proof (update_can_tx s) as Htx.
  assert (He : ivt_timeout s || fault_bits (BMU s) = true).
  { unfold fault_bits. rewrite Hu.
    destruct (ivt_timeout s), (over_current (BMU s)); reflexivity. }
  unfold cold. rewrite Ht, Hf, Htx, update_BMU, update_status0, He.
  split; [exact H1|]. split; [exact H2|]. split; [reflexivity|].
  split; [|exact H5].
  rewrite testbit_put_bit by lia. reflexivity.
Qed.

Lemma cold_loop_body : cov cold loop_body.
Proof.
  unfold loop_body.
  apply covered_do with (Q := cold_checked);
    [apply stable_cold | auto | exact cold_check_cells |].
  apply covered_do with (Q := cold);
    [apply stable_cold_checked | intros s [H _]; exact H | exact cold_update |].
  apply cold_if.
  { rewrite <- app_comm_cons. same. apply cold_beat.
    apply cold_if; cbn [app].
    - apply cold_if; [apply cold_beat|]; same; apply cold_nil.
    - same. apply cold_nil. }
  apply cold_if; cbn [app].
  - apply cold_if; [apply cold_beat|]; same; apply cold_nil.
  - same. apply cold_nil.
Qed.

Lemma cold_main_prologue : cov cold main_prologue.
Proof.
  unfold main_prologue. same. same. same.
  apply cold_do.
  { intros s (H1 & H2 & H3 & H4 & H5). repeat split; assumption. }
  same. same. same. apply cold_nil.
Qed.

Lemma cold_boot : cold boot_state.
Proof. repeat split. constructor. Qed.

Lemma cold_reachable m : reachable_under no_frame m -> cold (st m).
Proof.
  apply (covered_sound no_frame cold cold cold_loop_body cold).
  - exact cold_boot.
  - exact cold_main_prologue.
Qed.

End ColdBoot.

(** A current frame latches the reading of the timer and restarts it. *)
Lemma current_frame_latches msg s s' :
  CANMessage.id msg = 0x520 \/ CANMessage.id msg = 0x530 ->
  CANRecieveRoutine msg s = Some s' ->
  IVT_time s' = to_ulong (elapsed_ms (IVT_timer s))
  /\ IVT_timer s' = Build_Timer true 0.
Proof.
  unfold CANRecieveRoutine.
  intros [Hid|Hid] H; rewrite Hid in H;
    repeat (next_branch H; [try discriminate|try discriminate]);
    bind_case H; injection H as <-; split; reflexivity.
Qed.

Lemma cell_voltage_body_IVT_time msg i s s' :
  cell_voltage_body msg i s = Some s' -> IVT_time s' = IVT_time s.
Proof.
  unfold cell_voltage_body. intros H. repeat bind_case H.
  injection H as <-. reflexivity.
Qed.

Lemma cell_temperature_body_IVT_time msg row i s s' :
  cell_temperature_body msg row i s = Some s' -> IVT_time s' = IVT_time s.
Proof.
  unfold cell_temperature_body. intros H. repeat bind_case H.
  injection H as <-. reflexivity.
Qed.

(** No other frame writes [IVT_time]. *)
Lemma other_frame_keeps_IVT_time msg s s' :
  CANMessage.id msg <> 0x520 -> CANMessage.id msg <> 0x530 ->
  CANRecieveRoutine msg s = Some s' -> IVT_time s' = IVT_time s.
Proof.
  unfold CANRecieveRoutine. intros H1 H2 H.
  next_branch H.
  { eapply (for_loop_preserves IVT_time); [|exact H].
    intros; eapply cell_voltage_body_IVT_time; eassumption. }
  do 15 (next_branch H;
         [ first [ owned_branch H
                 | match goal with
                   | E : (_ =? _) = true |- _ => apply Z.eqb_eq in E; contradiction
                   end ]|]).
  next_branch H.
  { eapply (for_loop_preserves IVT_time); [|exact H].
    intros; eapply cell_temperature_body_IVT_time; eassumption. }
  next_branch H.
  { eapply (for_loop_preserves IVT_time); [|exact H].
    intros; eapply cell_temperature_body_IVT_time; eassumption. }
  injection H as <-. reflexivity.
Qed.

(** C4 (amended).  The IVT timeout that a pass of the encoder adds to
    [error_flag] is the test [IVT_time > 1000] on the latched interval: a
    current frame (0x520 or 0x530) sets [IVT_time] to the milliseconds
    elapsed since the previous current frame, or since boot, and restarts
    the timer, and no other frame writes [IVT_time].  From a cold boot and
    for as long as no frame is received, whatever time elapses, [IVT_time]
    is 0 and the test is false; every heartbeat sent has bit 5 clear, and a
    pass of the evaluator and the encoder leaves [error_flag] true and
    [safe_to_drive] false (the packs read 0 mV: under voltage). *)
Theorem ivt_timeout_latched_interval :
  (forall s,
     error_flag (update_BMU_status_array s)
     = (IVT_time s >? IVT_TIMEOUT_MS) || fault_bits (BMU s))
  /\ (forall msg s s',
        CANMessage.id msg = 0x520 \/ CANMessage.id msg = 0x530 ->
        CANRecieveRoutine msg s = Some s' ->
        IVT_time s' = to_ulong (elapsed_ms (IVT_timer s))
        /\ IVT_timer s' = Build_Timer true 0)
  /\ (forall msg s s',
        CANMessage.id msg <> 0x520 -> CANMessage.id msg <> 0x530 ->
        CANRecieveRoutine msg s = Some s' -> IVT_time s' = IVT_time s)
  /\ (forall m,
        reachable_under no_frame m ->
        IVT_time (st m) = 0 /\ ivt_timeout (st m) = false
        /\ Forall heartbeat_unsafe (can_tx (st m))
        /\ error_flag (update_BMU_status_array (check_cells (st m))) = true
        /\ ivt_timeout (update_BMU_status_array (check_cells (st m))) = false
        /\ safe_to_drive (BMU (update_BMU_status_array (check_cells (st m)))) = false).
Proof.
  split; [exact update_error_flag|].
  split; [exact current_frame_latches|].
  split; [exact other_frame_keeps_IVT_time|].
  intros m Hm. pose proof (cold_reachable m Hm) as Hc.
  pose proof (cold_check_cells _ Hc) as Hcc.
  destruct Hc as (Ht & _ & _ & _ & Htx).
  split; [exact Ht|].
  split; [unfold ivt_timeout; rewrite Ht; reflexivity|].
  split; [exact Htx|].
  generalize dependent (check_cells (st m)). intros c Hcc.
  pose proof (cold_update c Hcc) as Hu.
  destruct Hcc as [(Hct & _) Huv].
  split; [|split].
  - rewrite update_error_flag. unfold fault_bits. rewrite Huv.
    destruct (ivt_timeout c), (over_current (BMU c)); reflexivity.
  - unfold ivt_timeout. rewrite update_IVT_time, Hct. reflexivity.
  - destruct Hu as (_ & _ & H3 & _). exact H3.
Qed.

Lemma run_reachable_under (allowed : event -> Prop) evs :
  Forall (fun ev => match ev with Main _ => True | _ => allowed ev end) evs ->
  forall m m', reachable_under allowed m -> run evs m = Some m' ->
  reachable_under allowed m'.
Proof.
  induction 1 as [|ev evs Hev _ IH]; intros m m' Hm H; cbn [run] in H.
  - injection H as <-. exact Hm.
  - destruct (step ev m) as [m1|] eqn:E; cbn [mbind option_bind] in H; [|discriminate H].
    eapply IH; [|exact H].
    destruct ev as [pin|msg| | |us]; cbn [step] in E.
    + injection E as <-. now constructor.
    + destruct (interrupt _ (st m)) as [s1|] eqn:Ei; [|discriminate E].
      injection E as <-. eapply reachable_under_irq; eassumption.
    + destruct (interrupt _ (st m)) as [s1|] eqn:Ei; [|discriminate E].
      injection E as <-. eapply reachable_under_irq; eassumption.
    + destruct (interrupt _ (st m)) as [s1|] eqn:Ei; [|discriminate E].
      injection E as <-. eapply reachable_under_irq; eassumption.
    + destruct (interrupt _ (st m)) as [s1|] eqn:Ei; [|discriminate E].
      injection E as <-. eapply reachable_under_irq; eassumption.
Qed.

(** The trace without traffic is one of those the cold boot property covers. *)
Lemma silent_trace_cold :
  reachable_under no_frame (run_from_boot silent_trace)
  /\ elapsed_ms (IVT_timer (st (run_from_boot silent_trace))) = 1200
  /\ IVT_time (st (run_from_boot silent_trace)) = 0.
Proof.
  split; [|split; vm_compute; reflexivity].
  unfold run_from_boot. destruct (run silent_trace boot) as [m|] eqn:E.
  - eapply run_reachable_under; [|apply reachable_under_boot|exact E].
    unfold silent_trace, mains. cbn [repeat app].
    repeat constructor.
  - apply reachable_under_boot.
Qed.

(** ** [exec] and the machine *)

Lemma run_app evs1 : forall evs2 m,
  run (evs1 ++ evs2) m = run evs1 m ≫= run evs2.
Proof.
  induction evs1 as [|ev evs1 IH]; intros evs2 m; cbn [app run].
  - reflexivity.
  - destruct (step ev m) as [m1|]; cbn [mbind option_bind]; [apply IH | reflexivity].
Qed.

Lemma mains_add n1 n2 : mains (n1 + n2) = mains n1 ++ mains n2.
Proof. unfold mains. apply repeat_app. Qed.

Lemma run_mains_then n1 n2 m m1 m2 :
  run (mains n1) m = Some m1 -> run (mains n2) m1 = Some m2 ->
  run (mains (n1 + n2)) m = Some m2.
Proof. intros H1 H2. rewrite mains_add, run_app, H1. exact H2. Qed.

(** What [exec] computes with the precharge-detect input high is what the
    machine reaches by running the program alone, with no interrupt. *)
Lemma exec_steps (n : nat) : forall (p : prog) (s s' : State) (k : prog),
  (size p <= n)%nat ->
  exec true p s = Some s' ->
  exists steps, run (mains steps) {| st := s; pc := p ++ k |} = Some {| st := s'; pc := k |}.
Proof.
  induction n as [|n IH]; intros p s s' k Hsize H.
  - destruct p as [|i p]; [|destruct i; cbn in Hsize; lia].
    injection H as <-. exists O. reflexivity.
  - destruct p as [|i p].
    { injection H as <-. exists O. reflexivity. }
    change (exec true (i :: p) s) with (exec_instr true i s ≫= exec true p) in H.
    change (size (i :: p)) with (size_instr i + size p)%nat in Hsize.
    destruct (exec_instr true i s) as [s1|] eqn:Ei; cbn [mbind option_bind] in H;
      [|discriminate H].
    destruct i as [f| |c body|c b1 b2].
    + injection Ei as <-.
      destruct (IH p (f s) s' k) as [n2 H2]; [cbn in Hsize; lia | exact H|].
      exists (1 + n2)%nat. eapply run_mains_then; [reflexivity | exact H2].
    + injection Ei as <-.
      destruct (IH p s s' k) as [n2 H2]; [cbn in Hsize; lia | exact H|].
      exists (1 + n2)%nat. eapply run_mains_then; [reflexivity | exact H2].
    + change (exec_instr true (If c body) s)
        with (if c s then exec true body s else Some s) in Ei.
      change (size_instr (If c body)) with (S (size body)) in Hsize.
      destruct (c s) eqn:Ec.
      * destruct (IH body s s1 (p ++ k)) as [n1 H1]; [lia | exact Ei|].
        destruct (IH p s1 s' k) as [n2 H2]; [lia | exact H|].
        exists (1 + (n1 + n2))%nat.
        eapply run_mains_then; [|eapply run_mains_then; [exact H1 | exact H2]].
        cbn [mains repeat run step mbind option_bind main_step pc st app].
        rewrite Ec. reflexivity.
      * injection Ei as <-.
        destruct (IH p s s' k) as [n2 H2]; [lia | exact H|].
        exists (1 + n2)%nat. eapply run_mains_then; [|exact H2].
        cbn [mains repeat run step mbind option_bind main_step pc st app].
        rewrite Ec. reflexivity.
    + change (exec_instr true (IfElse c b1 b2) s)
        with (if c s then exec true b1 s else exec true b2 s) in Ei.
      change (size_instr (IfElse c b1 b2)) with (S (size b1 + size b2)) in Hsize.
      destruct (c s) eqn:Ec.
      * destruct (IH b1 s s1 (p ++ k)) as [n1 H1]; [lia | exact Ei|].
        destruct (IH p s1 s' k) as [n2 H2]; [lia | exact H|].
        exists (1 + (n1 + n2))%nat.
        eapply run_mains_then; [|eapply run_mains_then; [exact H1 | exact H2]].
        cbn [mains repeat run step mbind option_bind main_step pc st app].
        rewrite Ec. reflexivity.
      * destruct (IH b2 s s1 (p ++ k)) as [n1 H1]; [lia | exact Ei|].
        destruct (IH p s1 s' k) as [n2 H2]; [lia | exact H|].
        exists (1 + (n1 + n2))%nat.
        eapply run_mains_then; [|eapply run_mains_then; [exact H1 | exact H2]].
        cbn [mains repeat run step mbind option_bind main_step pc st app].
        rewrite Ec. reflexivity.
Qed.

(** * Further properties *)

(** ** The evaluator *)

(** The temperature tests at their bounds: 75.0 and 2.0 degrees C are
    inside, 75.1 and 1.9 are outside. *)
Lemma temperature_bounds :
  temp_above 750 MAX_IVT_TEMPERATURE = false
  /\ temp_above 751 MAX_IVT_TEMPERATURE = true
  /\ temp_below 20 MIN_IVT_TEMPERATURE = false
  /\ temp_below 19 MIN_IVT_TEMPERATURE = true.
Proof. vm_compute. repeat split; reflexivity. Qed.

Lemma larger_gtb a b t : ((if a >? b then a else b) >? t) = (a >? t) || (b >? t).
Proof.
  rewrite !Z.gtb_ltb.
  destruct (Z.ltb_spec b a), (Z.ltb_spec t a), (Z.ltb_spec t b); cbn;
    first [ reflexivity | apply Z.ltb_lt; lia | apply Z.ltb_ge; lia | exfalso; lia ].
Qed.

Lemma smaller_ltb a b t : ((if a <? b then a else b) <? t) = (a <? t) || (b <? t).
Proof.
  destruct (Z.ltb_spec a b), (Z.ltb_spec a t), (Z.ltb_spec b t); cbn;
    first [ reflexivity | apply Z.ltb_lt; lia | apply Z.ltb_ge; lia | exfalso; lia ].
Qed.

Lemma larger_ltb a b t : ((if a >? b then a else b) <? t) = (a <? t) && (b <? t).
Proof.
  rewrite Z.gtb_ltb.
  destruct (Z.ltb_spec b a), (Z.ltb_spec a t), (Z.ltb_spec b t); cbn;
    first [ reflexivity | apply Z.ltb_lt; lia | apply Z.ltb_ge; lia | exfalso; lia ].
Qed.

(** X1. After a pass of [check_cells], [charging_state] and the charge
    indicator hold exactly when the larger of the two IVT currents is
    negative, that is when both currents are negative; so -5 000 mA and 0 mA
    is not charging, -5 000 mA and -1 000 mA is. *)
Theorem charging_iff_max_current_negative (s : State) :
  charging_state (BMU (check_cells s)) = (ivt_max_current s <? 0)
  /\ charge_indic (pins (check_cells s)) = (ivt_max_current s <? 0)
  /\ (ivt_max_current s <? 0) = (current (ivt_front s) <? 0) && (current (ivt_rear s) <? 0)
  /\ charging_state (BMU (check_cells (with_readings (-5000) 0 60000 60000 250 250)))
     = false
  /\ charging_state (BMU (check_cells (with_readings (-5000) (-1000) 60000 60000 250 250)))
     = true.
Proof.
  split; [|split; [|split; [|split; vm_compute; reflexivity]]].
  - rewrite check_cells_eq, check_ivt_temperature_eq, check_pack_voltage_eq,
      check_current_eq, check_charging_eq.
    destruct_state s. reduce_goal. reflexivity.
  - rewrite check_cells_pins. reflexivity.
  - unfold ivt_max_current. apply larger_ltb.
Qed.

(** X4. [check_cells] never clears a temperature flag, and while one of
    them is set it never clears a temperature fault bit: once
    [under_temperature_flag] and [under_temperature] are set, every later
    pass leaves them set, whatever the IVTs read.  So one rear reading of
    1.0 degree C, followed by 25.0 degrees C on both IVTs, leaves the fault
    bit set and safe_to_drive false. *)
Theorem temperature_fault_latches (s : State) :
  (over_temperature_flag s = true -> over_temperature_flag (check_cells s) = true)
  /\ (under_temperature_flag s = true -> under_temperature_flag (check_cells s) = true)
  /\ (under_temperature_flag s = true -> under_temperature (BMU s) = true ->
      under_temperature (BMU (check_cells s)) = true)
  /\ (over_temperature_flag s = true -> over_temperature (BMU s) = true ->
      over_temperature (BMU (check_cells s)) = true)
  /\ (let s1 := check_cells (with_readings 0 0 60000 60000 250 10) in
      let s2 := check_cells (set_ivt_rear (Build_ivt_state 0 60000 0 0 250 0 0 0) s1) in
      under_temperature (BMU s2) = true
      /\ safe_to_drive (BMU (update_BMU_status_array s2)) = false).
Proof.
  assert (forall A B C D E : Prop, A /\ B /\ C /\ D -> E -> A /\ B /\ C /\ D /\ E)
    as with_example by tauto.
  apply with_example; [| vm_compute; split; reflexivity].
  rewrite check_cells_eq, check_ivt_temperature_eq, check_pack_voltage_eq,
    check_current_eq, check_charging_eq.
  destruct_state s. reduce_goal.
  repeat split; intros; subst;
    repeat match goal with
           | |- context [if ?c then _ else _] => no_inner_if c; destruct c
           end; reflexivity.
Qed.

(** X11. The voltage part of a pass of [check_cells].  The thresholds are
    67 040 mV and 48 000 mV, moved to 67 200 mV and 47 840 mV when the
    matching flag was left set.  [over_voltage_flag] is set exactly when the
    larger pack voltage ([ivt_max_voltage1]) is above the upper threshold;
    [under_voltage_flag] when the smaller one ([ivt_min_voltage1]) is below
    the lower threshold, or the front IVT reads less than 2 degrees C.  A
    fault bit that is not detected in the pass is cleared only if the other
    is not detected either. *)
Theorem voltage_faults_closed_form (s : State) :
  let s' := check_cells s in
  let ov := ivt_max_voltage1 s >? upper_threshold s in
  let uv := ivt_min_voltage1 s <? lower_threshold s in
  (upper_threshold s = if over_voltage_flag s then 67200 else 67040)
  /\ (lower_threshold s = if under_voltage_flag s then 47840 else 48000)
  /\ over_voltage_flag s' = ov
  /\ under_voltage_flag s'
     = uv || temp_below (temperature (ivt_front s)) MIN_IVT_TEMPERATURE
  /\ over_voltage (BMU s') = ov || (uv && over_voltage (BMU s))
  /\ under_voltage (BMU s') = uv || (ov && under_voltage (BMU s)).
Proof.
  intros s' ov uv. subst s' ov uv.
  unfold ivt_max_voltage1, ivt_min_voltage1. rewrite larger_gtb, smaller_ltb.
  rewrite check_cells_eq, check_ivt_temperature_eq, check_pack_voltage_eq,
    check_current_eq, check_charging_eq.
  split; [unfold upper_threshold; destruct (over_voltage_flag s); reflexivity|].
  split; [unfold lower_threshold; destruct (under_voltage_flag s); reflexivity|].
  destruct_state s. reduce_goal.
  repeat match goal with
         | |- context [Z.gtb ?a ?b] => generalize (Z.gtb a b); intro
         | |- context [Z.ltb ?a ?b] => generalize (Z.ltb a b); intro
         | |- context [temp_below ?a ?b] => generalize (temp_below a b); intro
         | |- context [temp_above ?a ?b] => generalize (temp_above a b); intro
         end.
  repeat match goal with
         | b : bool |- _ => lazymatch goal with |- context [b] => destruct b end
         end; repeat split; reflexivity.
Qed.

Lemma agree_block_spec k : forall lo t,
  agree_block k lo = true -> lo <= t < lo + 2 ^ Z.of_nat k -> thresholds_agree t = true.
Proof.
  induction k as [|k IH]; intros lo t H Ht.
  - cbn in Ht. replace t with lo by lia. exact H.
  - cbn [agree_block] in H. apply andb_true_iff in H as [H0 H1].
    rewrite Nat2Z.inj_succ, Z.pow_succ_r in Ht by lia.
    destruct (Z.lt_ge_cases t (lo + 2 ^ Z.of_nat k)).
    + apply (IH lo); [exact H0 | lia].
    + apply (IH (lo + 2 ^ Z.of_nat k)); [exact H1 | lia].
Qed.

Lemma agree_on_range : agree_block 20 (- 2 ^ 19) = true.
Proof. vm_compute. reflexivity. Qed.

(** X12. On every reading between -2^19 and 2^19 tenths of a degree, the
    tests [(t*0.1) > 75] and [(t*0.1) < 2], made in [double] arithmetic,
    are the integer tests [t > 750] and [t < 20]. *)
Theorem temperature_thresholds (t : Z) :
  - 2 ^ 19 <= t < 2 ^ 19 ->
  temp_above t MAX_IVT_TEMPERATURE = (750 <? t)
  /\ temp_below t MIN_IVT_TEMPERATURE = (t <? 20).
Proof.
  intros Ht.
  assert (H : thresholds_agree t = true).
  { apply (agree_block_spec 20 (- 2 ^ 19)); [exact agree_on_range|].
    change (Z.of_nat 20) with 20. lia. }
  unfold thresholds_agree in H. apply andb_true_iff in H as [H1 H2].
  apply eqb_prop in H1, H2. auto.
Qed.

Lemma temperature_thresholds_witness :
  temp_above 751 MAX_IVT_TEMPERATURE = (750 <? 751)
  /\ temp_below 751 MIN_IVT_TEMPERATURE = (751 <? 20).
Proof. apply (temperature_thresholds 751). lia. Defined.

(** X13. [check_cells] reads the IVT readings and its own flags only: the
    cell voltages and cell temperatures received over CAN have no effect on
    the fault bits, on the flags or on the charge indicator.  It writes
    neither a relay output, nor the safe, contactor and solar indicators,
    nor a frame, the status bytes, [error_flag], the demands of the driver
    controls, the readings, [safe_to_drive] and the sequencer flags. *)
Theorem check_cells_reads_ivt_only (s : State) (cv : list Z) (ct : list (list Z)) :
  let view := fun s : State =>
    (BMU s, (over_voltage_flag s, under_voltage_flag s, over_temperature_flag s,
             under_temperature_flag s), charge_indic (pins s)) in
  view (check_cells (set_cell_voltages cv (set_cell_temperatures ct s)))
  = view (check_cells s)
  /\ (let out := fun s : State =>
        (prechg_enable (pins s), dischg_disable (pins s), hvdc_enable (pins s),
         solar_enable (pins s), safe_indic (pins s), contactor_indic (pins s),
         solar_indic (pins s), can_tx s, BMU_status_array s, error_flag s,
         (ignition_demand s, previous_ignition_demand s, solar_demand s),
         (ivt_front s, ivt_rear s, IVT_time s, IVT_timer s),
         (safe_to_drive (BMU s), precharge_state (BMU s), discharge_state (BMU s))) in
      out (check_cells s) = out s).
Proof.
  intros view. subst view. cbv zeta.
  rewrite !check_cells_eq, !check_ivt_temperature_eq, !check_pack_voltage_eq,
    !check_current_eq, !check_charging_eq.
  destruct_state s. reduce_goal. split; reflexivity.
Qed.

(** ** The status encoder *)

Lemma update_status1 s :
  b1 (BMU_status_array (update_BMU_status_array s)) =
  put_bit 2 (discharge_state (BMU s)) (put_bit 1 (precharge_state (BMU s))
    (put_bit 0 (charging_state (BMU s)) (b1 (BMU_status_array s)))).
Proof. destruct_state s. encoder_field. Qed.

Lemma update_status_fans s :
  let a := BMU_status_array (update_BMU_status_array s) in
  b2 a = to_char (fan1_state (BMU s)) /\ b3 a = to_char (fan2_state (BMU s))
  /\ b4 a = to_char (fan3_state (BMU s)) /\ b5 a = to_char (fan4_state (BMU s)).
Proof.
  destruct_state s. unfold update_BMU_status_array, seq.
  rewrite status_fans_eq, status_modes_eq, status_safe_eq, status_faults_eq.
  reduce_goal. repeat split; reflexivity.
Qed.

Lemma BMU_status_msg_eq s :
  BMU_status_msg s
  = CANMessage.mk 0x400 [b0 (BMU_status_array s); b1 (BMU_status_array s);
                         b2 (BMU_status_array s); b3 (BMU_status_array s);
                         b4 (BMU_status_array s); b5 (BMU_status_array s)] 6.
Proof. reflexivity. Qed.

Ltac bit_of_byte :=
  repeat rewrite testbit_put_bit by lia;
  repeat match goal with
         | |- context [?a =? ?b] =>
             let v := eval vm_compute in (a =? b) in change (a =? b) with v
         | |- context [?a <? ?b] =>
             let v := eval vm_compute in (a <? b) in change (a <? b) with v
         end;
  cbv iota; rewrite ?andb_true_r; reflexivity.

(** X3. The layout of the heartbeat after a pass of the encoder: in byte 0,
    bits 0 to 4 are over_current, under_voltage, over_voltage,
    under_temperature and over_temperature, and bit 5 is safe_to_drive; in
    byte 1, bits 0 to 2 are charging_state, precharge_state and
    discharge_state; bytes 2 to 5 are the four fan states. *)
Theorem heartbeat_layout (s : State) :
  let s' := update_BMU_status_array s in
  let a := BMU_status_array s' in
  (Z.testbit (b0 a) 0 = over_current (BMU s')
   /\ Z.testbit (b0 a) 1 = under_voltage (BMU s')
   /\ Z.testbit (b0 a) 2 = over_voltage (BMU s')
   /\ Z.testbit (b0 a) 3 = under_temperature (BMU s')
   /\ Z.testbit (b0 a) 4 = over_temperature (BMU s')
   /\ Z.testbit (b0 a) 5 = safe_to_drive (BMU s'))
  /\ (Z.testbit (b1 a) 0 = charging_state (BMU s')
      /\ Z.testbit (b1 a) 1 = precharge_state (BMU s')
      /\ Z.testbit (b1 a) 2 = discharge_state (BMU s'))
  /\ (b2 a = to_char (fan1_state (BMU s')) /\ b3 a = to_char (fan2_state (BMU s'))
      /\ b4 a = to_char (fan3_state (BMU s')) /\ b5 a = to_char (fan4_state (BMU s')))
  /\ BMU_status_msg s' = CANMessage.mk 0x400 [b0 a; b1 a; b2 a; b3 a; b4 a; b5 a] 6.
Proof.
  intros s' a. subst a s'.
  pose proof (update_status_fans s) as Hfans. cbv zeta in Hfans.
  split; [|split; [|split; [rewrite update_BMU; exact Hfans | apply BMU_status_msg_eq]]].
  - rewrite update_status0, update_BMU.
    set (b := BMU s). set (e := ivt_timeout s || fault_bits b).
    change (over_current (set_safe_to_drive (negb e) b)) with (over_current b).
    change (under_voltage (set_safe_to_drive (negb e) b)) with (under_voltage b).
    change (over_voltage (set_safe_to_drive (negb e) b)) with (over_voltage b).
    change (under_temperature (set_safe_to_drive (negb e) b)) with (under_temperature b).
    change (over_temperature (set_safe_to_drive (negb e) b)) with (over_temperature b).
    change (safe_to_drive (set_safe_to_drive (negb e) b)) with (negb e).
    repeat split; bit_of_byte.
  - rewrite update_status1, update_BMU.
    set (b := BMU s). set (e := ivt_timeout s || fault_bits b).
    change (charging_state (set_safe_to_drive (negb e) b)) with (charging_state b).
    change (precharge_state (set_safe_to_drive (negb e) b)) with (precharge_state b).
    change (discharge_state (set_safe_to_drive (negb e) b)) with (discharge_state b).
    repeat split; bit_of_byte.
Qed.







(** ** The decoder *)

Lemma can_tx_can_send m s : can_tx (can_send m s) = can_tx s ++ [m].
Proof. reflexivity. Qed.

Lemma can_tx_wait_us n s : can_tx (wait_us n s) = can_tx s.
Proof. reflexivity. Qed.

Lemma config_IVT_can_tx s : can_tx (config_IVT s) = can_tx s ++ config_frames.
Proof.
  unfold config_IVT, seq.
  repeat first [rewrite can_tx_wait_us | rewrite can_tx_can_send].
  repeat rewrite <- app_assoc. reflexivity.
Qed.

(** X2. [config_IVT] hands ten frames to the peripheral, all to 0x411:
    stop, the eight channel set-ups in the order current, U1, U2, U3, T, Q,
    P, E, then start; a frame 0x522, 0x523, 0x532 or 0x533 runs it. *)
Theorem config_IVT_frames (s : State) :
  can_tx (config_IVT s)
  = can_tx s ++ [stop_msg; current_setup_msg; voltage1_setup_msg; voltage2_setup_msg;
                 voltage3_setup_msg; temperature_setup_msg; charge_setup_msg;
                 power_setup_msg; energy_setup_msg; start_msg]
  /\ Forall (fun m => CANMessage.id m = 0x411)
       [stop_msg; current_setup_msg; voltage1_setup_msg; voltage2_setup_msg;
        voltage3_setup_msg; temperature_setup_msg; charge_setup_msg;
        power_setup_msg; energy_setup_msg; start_msg]
  /\ (forall id d l,
        id = 0x522 \/ id = 0x523 \/ id = 0x532 \/ id = 0x533 ->
        CANRecieveRoutine (CANMessage.mk id d l) s = Some (config_IVT s)).
Proof.
  split; [| split; [repeat constructor |]].
  - apply config_IVT_can_tx.
  - intros id d l Hid. unfold CANRecieveRoutine. cbv beta zeta.
    generalize (config_IVT s). intros c.
    destruct Hid as [-> | [-> | [-> | ->]]]; reflexivity.
Qed.

Lemma testbit_byte_high b n : 0 <= b < 256 -> 8 <= n -> Z.testbit b n = false.
Proof.
  intros Hb Hn. rewrite <- (Z.mod_small b (2 ^ 8)) by lia.
  apply Z.mod_pow2_bits_high. lia.
Qed.

Lemma testbit_byte_of_word v k n :
  0 <= k -> 0 <= n ->
  Z.testbit (Z.land (Z.shiftr v k) 255) n = Z.testbit v (n + k) && (n <? 8).
Proof.
  intros Hk Hn. rewrite Z.land_spec, Z.shiftr_spec by lia.
  change 255 with (Z.ones 8). rewrite Z.testbit_ones_nonneg by lia. reflexivity.
Qed.

Lemma to_int32_mod v : - 2 ^ 31 <= v < 2 ^ 31 -> to_int32 (v mod 2 ^ 32) = v.
Proof.
  intros H. unfold to_int32.
  rewrite Zplus_mod_idemp_l. rewrite Z.mod_small by lia. lia.
Qed.

(** The four bytes of a word, most significant first, put together again. *)
Lemma word_of_bytes v :
  Z.lor (Z.lor (Z.lor (Z.land v 255) (Z.shiftl (Z.land (Z.shiftr v 8) 255) 8))
               (Z.shiftl (Z.land (Z.shiftr v 16) 255) 16))
        (Z.shiftl (Z.land (Z.shiftr v 24) 255) 24)
  = v mod 2 ^ 32.
Proof.
  apply Z.bits_inj'. intros n Hn.
  rewrite !Z.lor_spec.
  change (Z.land v 255) with (Z.land (Z.shiftr v 0) 255).
  destruct (Z.ltb_spec n 32) as [Hlt|Hge].
  - rewrite Z.mod_pow2_bits_low by lia.
    destruct (Z.ltb_spec n 8); [|destruct (Z.ltb_spec n 16); [|destruct (Z.ltb_spec n 24)]].
    + rewrite testbit_byte_of_word by lia.
      rewrite !Z.shiftl_spec_low by lia.
      replace (n <? 8) with true by (symmetry; apply Z.ltb_lt; lia).
      rewrite Z.add_0_r. now rewrite !orb_false_r, andb_true_r.
    + rewrite testbit_byte_of_word by lia.
      rewrite (Z.shiftl_spec _ 8), testbit_byte_of_word by lia.
      rewrite !Z.shiftl_spec_low by lia.
      replace (n <? 8) with false by (symmetry; apply Z.ltb_ge; lia).
      replace (n - 8 <? 8) with true by (symmetry; apply Z.ltb_lt; lia).
      replace (n - 8 + 8) with n by lia.
      now rewrite andb_false_r, !orb_false_r, andb_true_r.
    + rewrite testbit_byte_of_word by lia.
      rewrite (Z.shiftl_spec _ 8), (Z.shiftl_spec _ 16), !testbit_byte_of_word by lia.
      rewrite !Z.shiftl_spec_low by lia.
      replace (n <? 8) with false by (symmetry; apply Z.ltb_ge; lia).
      replace (n - 8 <? 8) with false by (symmetry; apply Z.ltb_ge; lia).
      replace (n - 16 <? 8) with true by (symmetry; apply Z.ltb_lt; lia).
      replace (n - 16 + 16) with n by lia.
      now rewrite !andb_false_r, !orb_false_r, andb_true_r.
    + rewrite testbit_byte_of_word by lia.
      rewrite (Z.shiftl_spec _ 8), (Z.shiftl_spec _ 16), (Z.shiftl_spec _ 24),
        !testbit_byte_of_word by lia.
      replace (n <? 8) with false by (symmetry; apply Z.ltb_ge; lia).
      replace (n - 8 <? 8) with false by (symmetry; apply Z.ltb_ge; lia).
      replace (n - 16 <? 8) with false by (symmetry; apply Z.ltb_ge; lia).
      replace (n - 24 <? 8) with true by (symmetry; apply Z.ltb_lt; lia).
      replace (n - 24 + 24) with n by lia.
      now rewrite !andb_false_r, andb_true_r.
  - rewrite Z.mod_pow2_bits_high by lia.
    rewrite testbit_byte_of_word by lia.
    rewrite (Z.shiftl_spec _ 8), (Z.shiftl_spec _ 16), (Z.shiftl_spec _ 24),
      !testbit_byte_of_word by lia.
    replace (n <? 8) with false by (symmetry; apply Z.ltb_ge; lia).
    replace (n - 8 <? 8) with false by (symmetry; apply Z.ltb_ge; lia).
    replace (n - 16 <? 8) with false by (symmetry; apply Z.ltb_ge; lia).
    replace (n - 24 <? 8) with false by (symmetry; apply Z.ltb_ge; lia).
    now rewrite !andb_false_r.
Qed.

Lemma ivt_word_ivt_frame id v :
  - 2 ^ 31 <= v < 2 ^ 31 -> ivt_word (CANMessage.data (ivt_frame id v)) = Some v.
Proof.
  intros Hv. unfold ivt_frame, ivt_word. cbn [CANMessage.data].
  change (Some (to_int32
     (Z.lor (Z.lor (Z.lor (Z.land v 255) (Z.shiftl (Z.land (Z.shiftr v 8) 255) 8))
                   (Z.shiftl (Z.land (Z.shiftr v 16) 255) 16))
            (Z.shiftl (Z.land (Z.shiftr v 24) 255) 24))) = Some v).
  now rewrite word_of_bytes, to_int32_mod.
Qed.

Ltac decode_ivt Hv :=
  unfold CANRecieveRoutine; cbv beta zeta;
  rewrite (ivt_word_ivt_frame _ _ Hv); reflexivity.

(** X5. A value of 32 bits, negative ones included, written most
    significant byte first in bytes 2 to 5 of an IVT frame, is read back as
    it was: frames 0x520, 0x521, 0x524, 0x525, 0x526 and 0x527 store it in
    the current, voltage1, temperature, power, charge and energy of the
    front IVT, frames 0x530 to 0x537 likewise for the rear IVT, and nothing
    else changes, but for the freshness bookkeeping of the two current
    frames. *)
Theorem ivt_frame_round_trip (v : Z) (s : State) :
  - 2 ^ 31 <= v < 2 ^ 31 ->
  (CANRecieveRoutine (ivt_frame 0x520 v) s
   = Some (ivt_timer_snapshot (upd_ivt_front (set_current v) s))
   /\ CANRecieveRoutine (ivt_frame 0x521 v) s = Some (upd_ivt_front (set_voltage1 v) s)
   /\ CANRecieveRoutine (ivt_frame 0x524 v) s = Some (upd_ivt_front (set_temperature v) s)
   /\ CANRecieveRoutine (ivt_frame 0x525 v) s = Some (upd_ivt_front (set_power v) s)
   /\ CANRecieveRoutine (ivt_frame 0x526 v) s = Some (upd_ivt_front (set_charge v) s)
   /\ CANRecieveRoutine (ivt_frame 0x527 v) s = Some (upd_ivt_front (set_energy v) s))
  /\ (CANRecieveRoutine (ivt_frame 0x530 v) s
      = Some (ivt_timer_snapshot (upd_ivt_rear (set_current v) s))
      /\ CANRecieveRoutine (ivt_frame 0x531 v) s = Some (upd_ivt_rear (set_voltage1 v) s)
      /\ CANRecieveRoutine (ivt_frame 0x534 v) s = Some (upd_ivt_rear (set_temperature v) s)
      /\ CANRecieveRoutine (ivt_frame 0x535 v) s = Some (upd_ivt_rear (set_power v) s)
      /\ CANRecieveRoutine (ivt_frame 0x536 v) s = Some (upd_ivt_rear (set_charge v) s)
      /\ CANRecieveRoutine (ivt_frame 0x537 v) s = Some (upd_ivt_rear (set_energy v) s)).
Proof.
  intros Hv. repeat split; decode_ivt Hv.
Qed.

Lemma ivt_frame_round_trip_witness :
  CANRecieveRoutine (ivt_frame 0x520 (-150000)) boot_state
  = Some (ivt_timer_snapshot (upd_ivt_front (set_current (-150000)) boot_state)).
Proof.
  destruct (ivt_frame_round_trip (-150000) boot_state) as [[H _] _]; [lia | exact H].
Defined.

(** Two bytes, least significant first, as a [uint16_t]. *)
Lemma uint16_of_bytes lo hi :
  0 <= lo < 256 -> 0 <= hi < 256 ->
  to_uint16 (Z.lor lo (Z.shiftl hi 8)) = lo + 256 * hi.
Proof.
  intros Hlo Hhi. unfold to_uint16.
  assert (Hdisj : Z.land lo (Z.shiftl hi 8) = 0).
  { apply Z.bits_inj'. intros n Hn. rewrite Z.land_spec, Z.bits_0.
    destruct (Z.ltb_spec n 8).
    - rewrite Z.shiftl_spec_low by lia. apply andb_false_r.
    - rewrite (testbit_byte_high lo) by lia. reflexivity. }
  rewrite <- Z.lxor_lor, <- Z.add_nocarry_lxor by exact Hdisj.
  rewrite Z.shiftl_mul_pow2 by lia.
  change 65535 with (Z.ones 16). rewrite Z.land_ones by lia.
  rewrite Z.mod_small; lia.
Qed.

Lemma cell_voltage_body_value msg (i lo hi : Z) (s : State) :
  array_load (CANMessage.data msg) (i * 2) = Some lo ->
  array_load (CANMessage.data msg) (i * 2 + 1) = Some hi ->
  CELL_VOLTAGES_BASE_ID <= CANMessage.id msg <= CELL_VOLTAGES_BASE_ID + 7 ->
  length (cell_voltages s) = 32%nat ->
  0 <= i < 4 ->
  cell_voltage_body msg i s
  = Some (set_cell_voltages
            (<[Z.to_nat ((CANMessage.id msg - CELL_VOLTAGES_BASE_ID) * 4 + i)
               := to_uint16 (Z.lor lo (Z.shiftl hi 8))]> (cell_voltages s)) s).
Proof.
  unfold CELL_VOLTAGES_BASE_ID. intros Hlo Hhi Hid Hlen Hi.
  unfold cell_voltage_body, CELL_VOLTAGES_BASE_ID. rewrite Hlo, Hhi.
  rewrite to_int32_small by lia. cbn [mbind option_bind].
  rewrite array_store_Some by lia. reflexivity.
Qed.

(** X6. A frame 0x360 + k, k in 0..7, with payload l0 h0 l1 h1 l2 h2 l3 h3,
    stores the four 16-bit values l_i + 256 h_i in cells 4k to 4k+3, and
    changes no other global. *)
Theorem cell_voltage_frame_stored (id l0 h0 l1 h1 l2 h2 l3 h3 len : Z) (s : State) :
  length (cell_voltages s) = 32%nat ->
  CELL_VOLTAGES_BASE_ID <= id <= CELL_VOLTAGES_BASE_ID + 7 ->
  Forall (fun b => 0 <= b < 256) [l0; h0; l1; h1; l2; h2; l3; h3] ->
  let k := Z.to_nat (4 * (id - CELL_VOLTAGES_BASE_ID)) in
  exists s',
    CANRecieveRoutine (CANMessage.mk id [l0; h0; l1; h1; l2; h2; l3; h3] len) s = Some s'
    /\ cell_voltages s' !! k = Some (l0 + 256 * h0)
    /\ cell_voltages s' !! (k + 1)%nat = Some (l1 + 256 * h1)
    /\ cell_voltages s' !! (k + 2)%nat = Some (l2 + 256 * h2)
    /\ cell_voltages s' !! (k + 3)%nat = Some (l3 + 256 * h3)
    /\ s' = set_cell_voltages (cell_voltages s') s.
Proof.
  intros Hlen Hid Hb k.
  repeat (apply Forall_cons_iff in Hb; destruct Hb as [? Hb]).
  set (msg := CANMessage.mk id [l0; h0; l1; h1; l2; h2; l3; h3] len).
  assert (Hid' : CELL_VOLTAGES_BASE_ID <= CANMessage.id msg <= CELL_VOLTAGES_BASE_ID + 7)
    by exact Hid.
  unfold CANRecieveRoutine. cbv beta zeta.
  replace ((CELL_VOLTAGES_BASE_ID <=? CANMessage.id msg)
           && (CANMessage.id msg <=? CELL_VOLTAGES_BASE_ID + 7)) with true
    by (symmetry; apply andb_true_iff; split; apply Z.leb_le; lia).
  cbn [for_loop].
  rewrite (cell_voltage_body_value msg 0 l0 h0) by first [reflexivity | assumption | lia].
  cbn [mbind option_bind].
  rewrite (cell_voltage_body_value msg (0 + 1) l1 h1)
    by first [reflexivity | assumption | lia
             | cbn [cell_voltages set_cell_voltages]; now rewrite ?length_insert].
  cbn [mbind option_bind].
  rewrite (cell_voltage_body_value msg (0 + 1 + 1) l2 h2)
    by first [reflexivity | assumption | lia
             | cbn [cell_voltages set_cell_voltages]; now rewrite ?length_insert].
  cbn [mbind option_bind].
  rewrite (cell_voltage_body_value msg (0 + 1 + 1 + 1) l3 h3)
    by first [reflexivity | assumption | lia
             | cbn [cell_voltages set_cell_voltages]; now rewrite ?length_insert].
  cbn [mbind option_bind].
  eexists. split; [reflexivity|].
  cbn [cell_voltages set_cell_voltages].
  rewrite !uint16_of_bytes by assumption.
  change (CANMessage.id msg) with id.
  unfold CELL_VOLTAGES_BASE_ID in *.
  replace (Z.to_nat ((id - 864) * 4 + 0)) with k by (subst k; lia).
  replace (Z.to_nat ((id - 864) * 4 + (0 + 1))) with (k + 1)%nat by (subst k; lia).
  replace (Z.to_nat ((id - 864) * 4 + (0 + 1 + 1))) with (k + 2)%nat by (subst k; lia).
  replace (Z.to_nat ((id - 864) * 4 + (0 + 1 + 1 + 1))) with (k + 3)%nat by (subst k; lia).
  assert (Hk : (k + 3 < 32)%nat) by (subst k; lia).
  clearbody k.
  repeat split.
  - rewrite !list_lookup_insert_ne by lia.
    apply list_lookup_insert_eq. lia.
  - rewrite !list_lookup_insert_ne by lia.
    apply list_lookup_insert_eq. rewrite !length_insert. lia.
  - rewrite !list_lookup_insert_ne by lia.
    apply list_lookup_insert_eq. rewrite !length_insert. lia.
  - apply list_lookup_insert_eq. rewrite !length_insert. lia.
Qed.

Lemma cell_voltage_frame_stored_witness :
  exists s',
    CANRecieveRoutine
      (CANMessage.mk 0x367 [0x10; 0x8C; 0x11; 0x8C; 0x12; 0x8C; 0xFF; 0xFF] 8) boot_state
    = Some s'
    /\ cell_voltages s' !! 28%nat = Some (0x10 + 256 * 0x8C)
    /\ cell_voltages s' !! 29%nat = Some (0x11 + 256 * 0x8C)
    /\ cell_voltages s' !! 30%nat = Some (0x12 + 256 * 0x8C)
    /\ cell_voltages s' !! 31%nat = Some (0xFF + 256 * 0xFF)
    /\ s' = set_cell_voltages (cell_voltages s') boot_state.
Proof.
  apply (cell_voltage_frame_stored 0x367 0x10 0x8C 0x11 0x8C 0x12 0x8C 0xFF 0xFF 8 boot_state).
  - reflexivity.
  - unfold CELL_VOLTAGES_BASE_ID. lia.
  - repeat constructor; lia.
Defined.

Lemma cell_temperature_body_value msg (row : nat) (i b : Z) (s : State) (r0 : list Z) :
  array_load (CANMessage.data msg) i = Some b ->
  cell_temperatures s !! row = Some r0 -> length r0 = 8%nat ->
  0 <= i < 8 ->
  cell_temperature_body msg (Z.of_nat row) i s
  = Some (set_cell_temperatures
            (<[row := <[Z.to_nat i := b]> r0]> (cell_temperatures s)) s).
Proof.
  intros Hb Hr0 Hr0len Hi. unfold cell_temperature_body. rewrite Hb.
  assert (Hrow : (row < length (cell_temperatures s))%nat)
    by (eapply lookup_lt_Some; exact Hr0).
  assert (Hload : array_load (cell_temperatures s) (Z.of_nat row) = Some r0).
  { unfold array_load. rewrite bool_decide_eq_true_2 by lia.
    now rewrite Nat2Z.id. }
  cbn [mbind option_bind]. rewrite Hload. cbn [mbind option_bind].
  rewrite array_store_Some by lia. cbn [mbind option_bind].
  rewrite array_store_Some by lia. cbn [mbind option_bind].
  rewrite Nat2Z.id. reflexivity.
Qed.

(** The loops of frames 0x550 and 0x562: the row after [n] iterations from
    column [i]. *)
Lemma cell_temperature_loop_values msg (row : nat) (n : nat) :
  forall (i : Z) (s : State) (r0 : list Z),
  length (CANMessage.data msg) = 8%nat ->
  cell_temperatures s !! row = Some r0 -> length r0 = 8%nat ->
  0 <= i -> i + Z.of_nat n <= 8 ->
  exists r',
    for_loop n i (cell_temperature_body msg (Z.of_nat row)) s
    = Some (set_cell_temperatures (<[row := r']> (cell_temperatures s)) s)
    /\ length r' = 8%nat
    /\ forall c : nat,
         r' !! c = if bool_decide (i <= Z.of_nat c < i + Z.of_nat n)
                   then CANMessage.data msg !! c else r0 !! c.
Proof.
  induction n as [|n IH]; intros i s r0 Hd Hr0 Hlen Hi Hn.
  - exists r0. cbn [for_loop]. split; [|split; [exact Hlen|]].
    + rewrite list_insert_id by exact Hr0. now destruct s.
    + intros c. rewrite bool_decide_eq_false_2 by lia. reflexivity.
  - cbn [for_loop].
    destruct (array_load_Some (CANMessage.data msg) i) as [b Hb]; [lia|].
    rewrite (cell_temperature_body_value msg row i b s r0) by first [assumption | lia].
    cbn [mbind option_bind].
    set (r1 := <[Z.to_nat i := b]> r0).
    set (s1 := set_cell_temperatures (<[row := r1]> (cell_temperatures s)) s).
    assert (Hrow : (row < length (cell_temperatures s))%nat)
      by (eapply lookup_lt_Some; exact Hr0).
    assert (Hct1 : cell_temperatures s1 = <[row := r1]> (cell_temperatures s)) by reflexivity.
    destruct (IH (i + 1) s1 r1) as (r' & Hrun & Hlen' & Hval); try assumption; try lia.
    { rewrite Hct1. now apply list_lookup_insert_eq. }
    { subst r1. now rewrite length_insert. }
    exists r'. split; [|split; [exact Hlen'|]].
    + rewrite Hrun, Hct1, list_insert_insert_eq. reflexivity.
    + intros c. rewrite Hval.
      destruct (decide (Z.of_nat c = i)) as [Hc|Hc].
      * rewrite bool_decide_eq_false_2 by lia. rewrite bool_decide_eq_true_2 by lia.
        subst r1. replace (Z.to_nat i) with c by lia.
        rewrite list_lookup_insert_eq by lia.
        unfold array_load in Hb. rewrite bool_decide_eq_true_2 in Hb by lia.
        replace (Z.to_nat i) with c in Hb by lia. now rewrite Hb.
      * subst r1. rewrite list_lookup_insert_ne by lia.
        destruct (decide (i + 1 <= Z.of_nat c < i + 1 + Z.of_nat n)).
        -- rewrite !bool_decide_eq_true_2 by lia. reflexivity.
        -- rewrite !bool_decide_eq_false_2 by lia. reflexivity.
Qed.

Lemma cell_temperature_row_stored msg (row : nat) (s : State) :
  arrays_wf s -> length (CANMessage.data msg) = 8%nat -> (row < 2)%nat ->
  for_loop 8 0 (cell_temperature_body msg (Z.of_nat row)) s
  = Some (set_cell_temperatures (<[row := CANMessage.data msg]> (cell_temperatures s)) s).
Proof.
  intros (_ & Hrows & Hcols) Hd Hrow.
  destruct (lookup_lt_is_Some_2 (cell_temperatures s) row) as [r0 Hr0]; [lia|].
  assert (Hr0len : length r0 = 8%nat).
  { rewrite Forall_forall in Hcols. apply Hcols.
    apply list_elem_of_In. eapply list_elem_of_lookup_2. exact Hr0. }
  destruct (cell_temperature_loop_values msg row 8 0 s r0) as (r' & Hrun & Hlen' & Hval);
    try assumption; try lia.
  rewrite Hrun. replace r' with (CANMessage.data msg); [reflexivity|].
  apply list_eq. intros c. rewrite Hval.
  destruct (decide (c < 8)%nat).
  - rewrite bool_decide_eq_true_2 by lia. reflexivity.
  - rewrite bool_decide_eq_false_2 by lia.
    rewrite !lookup_ge_None_2 by lia. reflexivity.
Qed.

(** X7. A frame 0x550 makes row 0 of the cell temperatures equal to its
    eight payload bytes, a frame 0x562 does so for row 1; the other row, the
    sizes of the arrays and every other global stay as they were. *)
Theorem cell_temperature_frame_stored (msg : CANMessage.t) (s : State) :
  arrays_wf s -> length (CANMessage.data msg) = 8%nat ->
  CANMessage.id msg = 0x550 \/ CANMessage.id msg = 0x562 ->
  let row := if CANMessage.id msg =? 0x550 then 0%nat else 1%nat in
  exists s',
    CANRecieveRoutine msg s = Some s'
    /\ cell_temperatures s' !! row = Some (CANMessage.data msg)
    /\ (forall r, r <> row -> cell_temperatures s' !! r = cell_temperatures s !! r)
    /\ arrays_wf s'
    /\ s' = set_cell_temperatures (cell_temperatures s') s.
Proof.
  intros Hwf Hd Hid row.
  assert (Hrow : (row < 2)%nat) by (subst row; destruct (_ =? _); lia).
  exists (set_cell_temperatures (<[row := CANMessage.data msg]> (cell_temperatures s)) s).
  split.
  - rewrite <- (cell_temperature_row_stored msg row s Hwf Hd Hrow).
    unfold CANRecieveRoutine. cbv beta zeta. subst row.
    destruct Hid as [-> | ->]; reflexivity.
  - destruct Hwf as (Hcv & Hrows & Hcols).
    set (s' := set_cell_temperatures (<[row := CANMessage.data msg]> (cell_temperatures s)) s).
    assert (Hct : cell_temperatures s' = <[row := CANMessage.data msg]> (cell_temperatures s))
      by reflexivity.
    split; [|split; [|split]].
    + rewrite Hct. apply list_lookup_insert_eq. lia.
    + intros r Hr. rewrite Hct. apply list_lookup_insert_ne. congruence.
    + unfold arrays_wf. rewrite Hct, length_insert.
      split; [exact Hcv|]. split; [exact Hrows|].
      apply Forall_insert; assumption.
    + reflexivity.
Qed.

Lemma cell_temperature_frame_stored_witness :
  exists s',
    CANRecieveRoutine (CANMessage.mk 0x562 [21; 22; 23; 24; 25; 26; 27; 28] 8) boot_state
    = Some s'
    /\ cell_temperatures s' !! 1%nat = Some [21; 22; 23; 24; 25; 26; 27; 28]
    /\ (forall r, r <> 1%nat -> cell_temperatures s' !! r = cell_temperatures boot_state !! r)
    /\ arrays_wf s'
    /\ s' = set_cell_temperatures (cell_temperatures s') boot_state.
Proof.
  apply (cell_temperature_frame_stored
           (CANMessage.mk 0x562 [21; 22; 23; 24; 25; 26; 27; 28] 8) boot_state).
  - exact boot_arrays_wf.
  - reflexivity.
  - right. reflexivity.
Defined.

(** X8. A frame whose identifier has no case in the [switch] (0x551 to
    0x561 and 0x563 to 0x56F among them) is read and dropped: no global
    changes. *)
Theorem unhandled_frame_ignored (msg : CANMessage.t) (s : State) :
  handled_id (CANMessage.id msg) = false -> CANRecieveRoutine msg s = Some s.
Proof.
  unfold handled_id, CANRecieveRoutine. cbv beta zeta.
  unfold CELL_VOLTAGES_BASE_ID, DRIVER_CONTROLS_ID.
  generalize (CANMessage.id msg). intros id H.
  repeat match goal with
         | |- context [if ?c then _ else _] =>
             lazymatch c with context [if _ then _ else _] => fail | _ => idtac end;
             replace c with false
               by (symmetry; rewrite ?andb_false_iff, ?Z.leb_gt, ?Z.eqb_neq;
                   rewrite ?orb_false_iff, ?andb_false_iff, ?Z.leb_gt, ?Z.eqb_neq in H; lia)
         end.
  reflexivity.
Qed.

Lemma unhandled_frame_ignored_witness :
  handled_id 0x551 = false
  /\ CANRecieveRoutine (CANMessage.mk 0x551 [1; 2; 3; 4; 5; 6; 7; 8] 8) boot_state
     = Some boot_state.
Proof.
  split; [reflexivity|].
  apply (unhandled_frame_ignored (CANMessage.mk 0x551 [1; 2; 3; 4; 5; 6; 7; 8] 8) boot_state).
  reflexivity.
Defined.

(** [(bool)(b & (1 << n))] is bit [n] of [b]. *)
Lemma land_pow2_testbit a n : 0 <= n -> negb (Z.land a (2 ^ n) =? 0) = Z.testbit a n.
Proof.
  intros Hn. destruct (Z.testbit a n) eqn:E.
  - apply negb_true_iff, Z.eqb_neq. intros H0.
    assert (Hb : Z.testbit (Z.land a (2 ^ n)) n = true)
      by (rewrite Z.land_spec, E, Z.pow2_bits_true by lia; reflexivity).
    rewrite H0, Z.bits_0 in Hb. discriminate Hb.
  - apply negb_false_iff, Z.eqb_eq. apply Z.bits_inj'. intros m Hm.
    rewrite Z.land_spec, Z.bits_0, Z.pow2_bits_eqb by lia.
    destruct (Z.eqb_spec n m) as [<-|]; [now rewrite E | apply andb_false_r].
Qed.

Lemma driver_controls_again d0 s :
  driver_controls d0 (driver_controls d0 s) = driver_controls d0 s.
Proof.
  rewrite !driver_controls_eq. cbv zeta.
  generalize (negb (Z.land d0 1 =? 0)) (negb (Z.land d0 8 =? 0)). intros ig so.
  destruct_state s. destruct ig, so, ignition_demand0; reflexivity.
Qed.

(** X9. A driver controls frame (0x500) sets [ignition_demand] to bit 0 and
    [solar_demand] to bit 3 of its first byte; [previous_ignition_demand]
    takes the old [ignition_demand] when the ignition bit changes it and is
    kept otherwise; nothing else changes.  The same frame received again
    changes nothing.  A frame with the ignition bit, received while
    [ignition_demand] is false, leaves [ignition_demand] true and
    [previous_ignition_demand] false, whatever the latter was. *)
Theorem driver_controls_frame (d0 : Z) (rest : list Z) (len : Z) (s : State) :
  let msg := CANMessage.mk DRIVER_CONTROLS_ID (d0 :: rest) len in
  let s' := set_solar_demand (Z.testbit d0 3)
              (set_ignition_demand (Z.testbit d0 0)
                 (set_previous_ignition_demand
                    (if eqb (ignition_demand s) (Z.testbit d0 0)
                     then previous_ignition_demand s else ignition_demand s) s)) in
  CANRecieveRoutine msg s = Some s'
  /\ CANRecieveRoutine msg s' = Some s'
  /\ (ignition_demand s = false -> Z.testbit d0 0 = true ->
      ignition_demand s' = true /\ previous_ignition_demand s' = false).
Proof.
  intros msg s'.
  assert (Hrun : forall s0, CANRecieveRoutine msg s0 = Some (driver_controls d0 s0))
    by reflexivity.
  assert (Hs' : driver_controls d0 s = s').
  { rewrite driver_controls_eq. cbv zeta. subst s'.
    change 1 with (2 ^ 0). change 8 with (2 ^ 3).
    rewrite !land_pow2_testbit by lia. reflexivity. }
  split; [|split].
  - now rewrite Hrun, Hs'.
  - now rewrite Hrun, <- Hs', driver_controls_again.
  - intros Hig Hbit. subst s'. destruct_state s. simpl in Hig. subst.
    rewrite Hbit. split; reflexivity.
Qed.

(** ** What the interrupt routines write *)

Lemma cell_voltage_loop_effect msg (n : nat) : forall i s s',
  for_loop n i (cell_voltage_body msg) s = Some s' ->
  s' = set_cell_voltages (cell_voltages s') s
  /\ length (cell_voltages s') = length (cell_voltages s).
Proof.
  induction n as [|n IH]; intros i s s' H; cbn [for_loop] in H.
  - injection H as <-. split; [now destruct s | reflexivity].
  - destruct (cell_voltage_body msg i s) as [s1|] eqn:E; cbn [mbind option_bind] in H;
      [|discriminate H].
    apply IH in H as [H Hlen]. unfold cell_voltage_body in E. repeat bind_case E.
    injection E as <-.
    match goal with
    | E : array_store _ _ _ = Some _ |- _ =>
        unfold array_store in E; case_bool_decide; [|discriminate E]; injection E as <-
    end.
    split; [rewrite H; reflexivity|].
    rewrite Hlen. cbn. apply length_insert.
Qed.

Lemma cell_temperature_loop_effect msg row (n : nat) : forall i s s',
  for_loop n i (cell_temperature_body msg row) s = Some s' ->
  s' = set_cell_temperatures (cell_temperatures s') s
  /\ map length (cell_temperatures s') = map length (cell_temperatures s).
Proof.
  induction n as [|n IH]; intros i s s' H; cbn [for_loop] in H.
  - injection H as <-. split; [now destruct s | reflexivity].
  - destruct (cell_temperature_body msg row i s) as [s1|] eqn:E; cbn [mbind option_bind] in H;
      [|discriminate H].
    apply IH in H as [H Hlen]. unfold cell_temperature_body in E.
    destruct (array_load (CANMessage.data msg) i) as [b|]; cbn [mbind option_bind] in E;
      [|discriminate E].
    destruct (array_load (cell_temperatures s) row) as [r|] eqn:Er;
      cbn [mbind option_bind] in E; [|discriminate E].
    destruct (array_store r i b) as [r'|] eqn:Er'; cbn [mbind option_bind] in E;
      [|discriminate E].
    destruct (array_store (cell_temperatures s) row r') as [ct|] eqn:Ect;
      cbn [mbind option_bind] in E; [|discriminate E].
    injection E as <-.
    split; [rewrite H; reflexivity|].
    rewrite Hlen. cbn.
    unfold array_store in Er', Ect. repeat case_bool_decide; try discriminate.
    injection Er' as <-. injection Ect as <-.
    unfold array_load in Er. case_bool_decide; [|discriminate Er].
    apply list_eq. intros j. rewrite !list_lookup_fmap.
    destruct (decide (j = Z.to_nat row)) as [->|Hne].
    + rewrite list_lookup_insert_eq by lia. rewrite Er. cbn. now rewrite length_insert.
    + now rewrite list_lookup_insert_ne by congruence.
Qed.

Ltac effect_of H c :=
  next_branch H;
  [ first [ bind_case H; injection H as <-; exact (c _) | injection H as <-; exact c ] |].

Lemma CANRecieveRoutine_effect msg s s' :
  CANRecieveRoutine msg s = Some s' -> irq_effect s s'.
Proof.
  unfold CANRecieveRoutine. intros H.
  next_branch H.
  { destruct (cell_voltage_loop_effect _ _ _ _ _ H) as [-> Hlen].
    exact (irq_cell_voltages s _ Hlen). }
  effect_of H (irq_driver_controls s).
  effect_of H (irq_front_current s).
  effect_of H (irq_front_voltage1 s).
  effect_of H (irq_config s).
  effect_of H (irq_front_temperature s).
  effect_of H (irq_front_power s).
  effect_of H (irq_front_charge s).
  effect_of H (irq_front_energy s).
  effect_of H (irq_rear_current s).
  effect_of H (irq_rear_voltage1 s).
  effect_of H (irq_config s).
  effect_of H (irq_rear_temperature s).
  effect_of H (irq_rear_power s).
  effect_of H (irq_rear_charge s).
  effect_of H (irq_rear_energy s).
  next_branch H.
  { destruct (cell_temperature_loop_effect _ _ _ _ _ _ H) as [-> Hlen].
    exact (irq_cell_temperatures s _ Hlen). }
  next_branch H.
  { destruct (cell_temperature_loop_effect _ _ _ _ _ _ H) as [-> Hlen].
    exact (irq_cell_temperatures s _ Hlen). }
  injection H as <-. exact (irq_ignored s).
Qed.

Lemma interrupt_effect ev s s' : interrupt ev s = Some s' -> irq_effect s s'.
Proof.
  destruct ev as [pin|msg| | |us]; cbn [interrupt]; intros H.
  - discriminate H.
  - destruct (rx_irq_attached s && wfb msg); [|discriminate H].
    eapply CANRecieveRoutine_effect; exact H.
  - destruct (rx_irq_attached s); [|discriminate H]. injection H as <-. exact (irq_sent s).
  - destruct (ticker_attached s); [|discriminate H]. injection H as <-. exact (irq_tick s).
  - destruct (0 <=? us); [|discriminate H]. injection H as <-. exact (irq_elapse s us).
Qed.

Lemma irq_effect_main s s' :
  irq_effect s s' -> main_thread_globals s' = main_thread_globals s.
Proof.
  intros H. destruct H; try reflexivity.
  rewrite driver_controls_eq. reflexivity.
Qed.

Lemma interrupt_main ev s s' :
  interrupt ev s = Some s' -> main_thread_globals s' = main_thread_globals s.
Proof. intros H. apply irq_effect_main. eapply interrupt_effect. exact H. Qed.

(** X10. No interrupt routine (CAN receive, CAN transmit complete, ticker)
    and no passing of time writes an output pin, the BMU struct, the status
    bytes, the contactor byte, [previous_status], [error_flag] or a flag of
    the evaluator: the relays move in the main thread only. *)
Theorem interrupts_leave_outputs (ev : event) (s s' : State) :
  interrupt ev s = Some s' ->
  pins s' = pins s /\ BMU s' = BMU s /\ BMU_status_array s' = BMU_status_array s
  /\ contactor_array s' = contactor_array s /\ previous_status s' = previous_status s
  /\ error_flag s' = error_flag s
  /\ (over_voltage_flag s', under_voltage_flag s', over_temperature_flag s',
      under_temperature_flag s')
     = (over_voltage_flag s, under_voltage_flag s, over_temperature_flag s,
        under_temperature_flag s).
Proof.
  intros H. apply interrupt_main in H. unfold main_thread_globals, owned in H.
  injection H as -> -> -> -> _ _ -> -> -> -> -> -> _ _ _ _.
  repeat split.
Qed.

Lemma interrupts_leave_outputs_witness :
  exists s',
    interrupt (RxIrq (driver_frame 9)) listening_state = Some s'
    /\ ignition_demand s' = true /\ solar_demand s' = true
    /\ pins s' = pins listening_state /\ BMU s' = BMU listening_state.
Proof.
  eexists. split; [vm_compute; reflexivity|].
  split; [reflexivity|]. split; [reflexivity|].
  destruct (interrupts_leave_outputs (RxIrq (driver_frame 9)) listening_state _ eq_refl)
    as (Hp & Hb & _).
  split; [exact Hp | exact Hb].
Defined.

(** ** The precharge and discharge sequences *)

(** X15. [precharge] returns only if the precharge-detect input gets high.
    When it returns, the precharge relay is open again, the discharge relay
    is held open, the main contactor is closed, [precharge_state] is set and
    [discharge_state] cleared, 0.6 s have gone by and no frame has been
    sent. *)
Theorem precharge_sequence (s : State) :
  exec false precharge s = None
  /\ exists s',
       exec true precharge s = Some s'
       /\ (prechg_enable (pins s'), dischg_disable (pins s'), hvdc_enable (pins s'))
          = (false, true, true)
       /\ (precharge_state (BMU s'), discharge_state (BMU s'), currently_precharging s')
          = (true, false, false)
       /\ IVT_timer s' = timer_advance 600000 (IVT_timer s)
       /\ can_tx s' = can_tx s.
Proof.
  destruct_state s. split; [reflexivity|].
  eexists. split; [reflexivity|]. destruct running0; repeat split.
  reduce_goal. f_equal. lia.
Qed.

(** X16. [discharge] always returns: the precharge relay and the main
    contactor are open, the discharge relay is released, [discharge_state]
    is set and [precharge_state] cleared, 0.1 s have gone by and no frame
    has been sent. *)
Theorem discharge_sequence (s : State) (detect : bool) :
  exists s',
    exec detect discharge s = Some s'
    /\ (prechg_enable (pins s'), dischg_disable (pins s'), hvdc_enable (pins s'))
       = (false, false, false)
    /\ (precharge_state (BMU s'), discharge_state (BMU s'), currently_discharging s')
       = (false, true, false)
    /\ IVT_timer s' = timer_advance 100000 (IVT_timer s)
    /\ can_tx s' = can_tx s.
Proof.
  destruct_state s. eexists. split; [reflexivity|]. destruct running0; repeat split.
Qed.

(** ** The frames of one iteration of the main loop *)

Lemma exec_cons_do d f k s : exec d (Do f :: k) s = exec d k (f s).
Proof. reflexivity. Qed.

Lemma exec_cons_if d c body k s :
  exec d (If c body :: k) s = (if c s then exec d body s else Some s) ≫= exec d k.
Proof. reflexivity. Qed.

Lemma exec_app d p : forall k s, exec d (p ++ k) s = exec d p s ≫= exec d k.
Proof.
  induction p as [|i p IH]; intros k s.
  - reflexivity.
  - change (exec_instr d i s ≫= exec d (p ++ k) = (exec_instr d i s ≫= exec d p) ≫= exec d k).
    destruct (exec_instr d i s); cbn [mbind option_bind]; [apply IH | reflexivity].
Qed.

(** A beat sends the heartbeat, then the contactor command. *)
Lemma exec_beat (s : State) :
  exists s',
    exec true beat s = Some s'
    /\ can_tx s' = can_tx s ++ [BMU_status_msg s; contactor_command s]
    /\ beat_view s' = beat_view s.
Proof.
  unfold contactor_command, BMU_status_msg, beat_view, drive_guard.
  destruct_state s.
  destruct ignition_demand0, previous_ignition_demand0, safe_to_drive0, precharge_state0,
    discharge_state0, running0.
  all: eexists; (split; [vm_compute; reflexivity|]).
  all: split; [exact (eq_sym (app_assoc _ [_] [_])) | vm_compute; reflexivity].
Qed.

Lemma exec_loop_tail (s : State) :
  exists s',
    exec true loop_tail s = Some s'
    /\ can_tx s'
       = can_tx s
         ++ (if heartbeat_flag s then [BMU_status_msg s; contactor_command s] else [])
         ++ (if error_flag s && negb (previous_status s =? b0 (BMU_status_array s))
             then [BMU_status_msg s; contactor_command s] else [])
    /\ previous_status s' = b0 (BMU_status_array s)
    /\ heartbeat_flag s' = false.
Proof.
  (* the first test *)
  assert (H1 : exists s1,
            exec true [If heartbeat_flag (Do (set_heartbeat_flag false) :: beat)] s = Some s1
            /\ can_tx s1 = can_tx s
                 ++ (if heartbeat_flag s then [BMU_status_msg s; contactor_command s] else [])
            /\ beat_view s1 = (error_flag s, previous_status s, BMU_status_array s,
                               drive_guard s, false)).
  { rewrite exec_cons_if. destruct (heartbeat_flag s) eqn:Ehb.
    - rewrite exec_cons_do.
      destruct (exec_beat (set_heartbeat_flag false s)) as (s1 & Hrun & Htx & Hv).
      exists s1. rewrite Hrun. split; [reflexivity|]. split; [exact Htx|].
      rewrite Hv. reflexivity.
    - exists s. split; [reflexivity|]. split; [now rewrite app_nil_r|].
      unfold beat_view. now rewrite Ehb. }
  destruct H1 as (s1 & Hrun1 & Htx1 & Hv1).
  assert (Hs1 : BMU_status_msg s1 = BMU_status_msg s /\ contactor_command s1 = contactor_command s
                /\ error_flag s1 = error_flag s /\ previous_status s1 = previous_status s
                /\ BMU_status_array s1 = BMU_status_array s).
  { unfold beat_view in Hv1. injection Hv1 as H1 H2 H3 H4 H5.
    unfold BMU_status_msg, contactor_command. rewrite H1, H2, H3, H4. auto. }
  destruct Hs1 as (Hm1 & Hc1 & He1 & Hp1 & Ha1).
  (* the second test *)
  assert (H2 : exists s2,
            exec true [If error_flag
                         [If (fun s => negb (previous_status s =? b0 (BMU_status_array s)))
                             beat]] s1 = Some s2
            /\ can_tx s2 = can_tx s1
                 ++ (if error_flag s && negb (previous_status s =? b0 (BMU_status_array s))
                     then [BMU_status_msg s; contactor_command s] else [])
            /\ BMU_status_array s2 = BMU_status_array s
            /\ heartbeat_flag s2 = false).
  { rewrite exec_cons_if, He1. destruct (error_flag s).
    - rewrite exec_cons_if, Hp1, Ha1.
      destruct (negb (previous_status s =? b0 (BMU_status_array s))).
      + destruct (exec_beat s1) as (s2 & Hrun & Htx & Hv).
        exists s2. rewrite Hrun. split; [reflexivity|].
        split; [now rewrite Htx, Hm1, Hc1|].
        rewrite Hv1 in Hv. unfold beat_view in Hv. injection Hv as _ _ -> _ ->. auto.
      + exists s1. split; [reflexivity|]. split; [now rewrite app_nil_r|].
        unfold beat_view in Hv1. injection Hv1 as _ _ -> _ ->. auto.
    - exists s1. split; [reflexivity|]. split; [now rewrite app_nil_r|].
      unfold beat_view in Hv1. injection Hv1 as _ _ -> _ ->. auto. }
  destruct H2 as (s2 & Hrun2 & Htx2 & Ha2 & Hhb2).
  exists (set_previous_status (b0 (BMU_status_array s2)) s2).
  split; [|split; [|split]].
  - change loop_tail with
      ([If heartbeat_flag (Do (set_heartbeat_flag false) :: beat)]
       ++ [If error_flag
             [If (fun s => negb (previous_status s =? b0 (BMU_status_array s))) beat]]
       ++ [Do (fun s => set_previous_status (b0 (BMU_status_array s)) s)]).
    rewrite exec_app, Hrun1. cbn [mbind option_bind].
    rewrite exec_app, Hrun2. reflexivity.
  - change (can_tx (set_previous_status (b0 (BMU_status_array s2)) s2)) with (can_tx s2).
    rewrite Htx2, Htx1, <- app_assoc. reflexivity.
  - change (previous_status (set_previous_status (b0 (BMU_status_array s2)) s2))
      with (b0 (BMU_status_array s2)). now rewrite Ha2.
  - exact Hhb2.
Qed.

Lemma check_cells_can_tx s : can_tx (check_cells s) = can_tx s.
Proof.
  rewrite check_cells_eq, check_ivt_temperature_eq, check_pack_voltage_eq,
    check_current_eq, check_charging_eq.
  destruct_state s. reduce_goal. reflexivity.
Qed.

Lemma check_cells_loop_flags s :
  (heartbeat_flag (check_cells s), previous_status (check_cells s))
  = (heartbeat_flag s, previous_status s).
Proof.
  rewrite check_cells_eq, check_ivt_temperature_eq, check_pack_voltage_eq,
    check_current_eq, check_charging_eq.
  destruct_state s. reduce_goal. reflexivity.
Qed.

Lemma update_loop_flags s :
  (heartbeat_flag (update_BMU_status_array s), previous_status (update_BMU_status_array s))
  = (heartbeat_flag s, previous_status s).
Proof. destruct_state s. encoder_field. Qed.

(** X17. One iteration of the main loop, with no interrupt in between and
    the precharge-detect input high, returns.  It sends the heartbeat
    followed by the contactor command (0x34F, one byte: 1 when
    [ignition_demand], not [previous_ignition_demand] and [safe_to_drive],
    else 0) once if [heartbeat_flag] was set, and once more if the encoder
    found an error and status byte 0 differs from [previous_status]; so
    twice when both hold, and nothing otherwise.  It ends with
    [previous_status] equal to status byte 0 and [heartbeat_flag] cleared.
    On an error the contactor command is 0. *)
Theorem loop_iteration_frames (s : State) :
  let s1 := update_BMU_status_array (check_cells s) in
  let changed := negb (previous_status s =? b0 (BMU_status_array s1)) in
  exists s',
    exec true loop_body s = Some s'
    /\ can_tx s'
       = can_tx s
         ++ (if heartbeat_flag s then [BMU_status_msg s1; contactor_command s1] else [])
         ++ (if error_flag s1 && changed then [BMU_status_msg s1; contactor_command s1] else [])
    /\ previous_status s' = b0 (BMU_status_array s1)
    /\ heartbeat_flag s' = false
    /\ (error_flag s1 = true -> contactor_command s1 = CANMessage.mk 0x34F [0] 1).
Proof.
  cbv zeta.
  generalize (check_cells_loop_flags s) (update_loop_flags (check_cells s))
    (check_cells_can_tx s) (update_can_tx (check_cells s))
    (update_BMU (check_cells s)) (update_error_flag (check_cells s)).
  unfold loop_body. rewrite !exec_cons_do. fold loop_tail.
  generalize (update_BMU_status_array (check_cells s)). intros s1.
  generalize (check_cells s). intros s0 Hf0 Hf1 Ht0 Ht1 Hbmu Herr.
  assert (Hhb : heartbeat_flag s1 = heartbeat_flag s).
  { apply (f_equal fst) in Hf0, Hf1. cbn [fst] in Hf0, Hf1. congruence. }
  assert (Hprev : previous_status s1 = previous_status s).
  { apply (f_equal snd) in Hf0, Hf1. cbn [snd] in Hf0, Hf1. congruence. }
  assert (Htx : can_tx s1 = can_tx s) by congruence.
  assert (Hsafe : safe_to_drive (BMU s1) = negb (error_flag s1)).
  { rewrite Hbmu, Herr. reflexivity. }
  destruct (exec_loop_tail s1) as (s' & Hrun & Htx' & Hp' & Hhb').
  exists s'. split; [exact Hrun|].
  rewrite Hhb, Hprev, Htx in Htx'.
  split; [exact Htx'|]. split; [exact Hp'|]. split; [exact Hhb'|].
  intros He. unfold contactor_command, drive_guard. rewrite Hsafe, He.
  now rewrite andb_false_r.
Qed.

(** ** The relays in every state, and at the head of the loop *)

Lemma covered_weaken allowed J L (P : State -> Prop) k :
  covered allowed J L P k ->
  forall P' : State -> Prop,
    stable allowed P' -> (forall s, P' s -> P s) -> covered allowed J L P' k.
Proof.
  induction 1 as [P ? HJ HL|P Q f k ? HJ Hf Hk _|P k ? HJ Hk IH
                 |P Q1 Q2 c body k ? HJ H1 H2 Hb _ Hk _
                 |P Q1 Q2 c b1 b2 k ? HJ H1 H2 Hb1 _ Hb2 _]; intros P' Hst Himp.
  - apply covered_nil; auto.
  - apply covered_do with (Q := Q); auto.
  - apply covered_wait; auto.
  - apply covered_if with (Q1 := Q1) (Q2 := Q2); auto.
  - apply covered_ifelse with (Q1 := Q1) (Q2 := Q2); auto.
Qed.

Section CoveredHead.

Variable allowed : event -> Prop.
Variable J : State -> Prop.
Variable L : State -> Prop.
Hypothesis loop_covered : covered allowed J L L loop_body.

Lemma reachable_machine_inv (P0 : State -> Prop) :
  P0 boot_state -> covered allowed J L P0 main_prologue ->
  forall m, reachable_under allowed m -> machine_inv allowed J L m.
Proof.
  intros HP0 Hc0 m Hm.
  induction Hm as [|m pin Hm IH|m ev s' Hm IH Ha Hi].
  - exists P0. split; assumption.
  - apply machine_inv_main_step; assumption.
  - eapply machine_inv_interrupt; eassumption.
Qed.

(** At the head of [while(1)] the assertion of the loop holds. *)
Lemma covered_at_head (P0 : State -> Prop) :
  P0 boot_state -> covered allowed J L P0 main_prologue ->
  forall m, reachable_under allowed m -> pc m = [] -> L (st m).
Proof.
  intros HP0 Hc0 m Hm Hpc.
  destruct (reachable_machine_inv P0 HP0 Hc0 m Hm) as (P & HP & Hc).
  rewrite Hpc in Hc. inversion Hc; auto.
Qed.

End CoveredHead.

Lemma stable_relay_assert allowed A : stable allowed (relay_assert A).
Proof.
  intros ev s s' _ HA Hi. pose proof (interrupt_main _ _ _ Hi) as Ho.
  unfold main_thread_globals, owned in Ho.
  injection Ho as HB HP _ HS _ _ Hprev He _ _ _ _ _ _ _ _.
  unfold relay_assert, relay_view_of. rewrite HB, HP, HS, Hprev, He. exact HA.
Qed.

Lemma update_previous_status s :
  previous_status (update_BMU_status_array s) = previous_status s.
Proof. destruct_state s. encoder_field. Qed.

Lemma relay_view_check_cells s : relay_view_of (check_cells s) = relay_view_of s.
Proof.
  rewrite check_cells_eq, check_ivt_temperature_eq, check_pack_voltage_eq,
    check_current_eq, check_charging_eq.
  destruct_state s. reduce_goal. reflexivity.
Qed.

Lemma relay_view_update s :
  relay_view_of (update_BMU_status_array s)
  = let e := ivt_timeout s || fault_bits (BMU s) in
    let v := relay_view_of s in
    RV (rv_p v) (rv_d v) (rv_h v) (rv_pe v) (rv_dd v) (negb e) e (negb e) (rv_p5 v).
Proof.
  unfold relay_view_of.
  rewrite update_BMU, update_pins, update_error_flag, update_status0, update_previous_status.
  rewrite testbit_put_bit by lia.
  change (5 =? 5) with true. change (5 <? 8) with true. cbv iota. rewrite andb_true_r.
  cbv zeta. generalize (ivt_timeout s || fault_bits (BMU s)). intros e.
  destruct (BMU s), (pins s). reflexivity.
Qed.

Lemma same_status s :
  negb (previous_status s =? b0 (BMU_status_array s)) = false ->
  Z.testbit (previous_status s) 5 = Z.testbit (b0 (BMU_status_array s)) 5.
Proof. intros H. apply negb_false_iff, Z.eqb_eq in H. now rewrite H. Qed.

Section RelayInvariant.

Abbreviation cov A :=
  (covered any_event (relay_assert relays_ok) (relay_assert at_loop_head) (relay_assert A)).

Ltac split_bools :=
  repeat match goal with
         | |- context [Z.testbit ?x ?k] => generalize (Z.testbit x k); intro
         end;
  repeat match goal with
         | b : bool |- _ => lazymatch goal with |- context [b] => destruct b end
         end.

(** An assertion implies another. *)
Ltac bools :=
  let H := fresh in
  intros [[] [] [] [] [] [] [] [] []]; cbv; intros H; first [ discriminate H | reflexivity ].

(** A step of the main thread that is a single setter, or a test. *)
Ltac vc :=
  let s := fresh "s" in
  intros s; unfold relay_assert, relay_view_of; destruct_state s;
  reduce_goal; split_bools; cbv; intros; first [ discriminate | reflexivity ].

Lemma relay_do A B f k :
  (forall v, A v = true -> relays_ok v = true) ->
  (forall s, relay_assert A s -> relay_assert B (f s)) ->
  cov B k -> cov A (Do f :: k).
Proof.
  intros HJ Hf Hk. apply covered_do with (Q := relay_assert B);
    [apply stable_relay_assert | intros s; apply HJ | exact Hf | exact Hk].
Qed.

Lemma relay_wait A k :
  (forall v, A v = true -> relays_ok v = true) ->
  cov A k -> cov A (WaitDetect :: k).
Proof.
  intros HJ Hk. apply covered_wait;
    [apply stable_relay_assert | intros s; apply HJ | exact Hk].
Qed.

Lemma relay_if A B1 B2 c body k :
  (forall v, A v = true -> relays_ok v = true) ->
  (forall s, relay_assert A s -> c s = true -> relay_assert B1 s) ->
  (forall s, relay_assert A s -> c s = false -> relay_assert B2 s) ->
  cov B1 (body ++ k) -> cov B2 k -> cov A (If c body :: k).
Proof.
  intros HJ H1 H2 Hb Hk.
  apply covered_if with (Q1 := relay_assert B1) (Q2 := relay_assert B2);
    [apply stable_relay_assert | intros s; apply HJ | exact H1 | exact H2 | exact Hb | exact Hk].
Qed.

Lemma relay_ifelse A B1 B2 c body1 body2 k :
  (forall v, A v = true -> relays_ok v = true) ->
  (forall s, relay_assert A s -> c s = true -> relay_assert B1 s) ->
  (forall s, relay_assert A s -> c s = false -> relay_assert B2 s) ->
  cov B1 (body1 ++ k) -> cov B2 (body2 ++ k) -> cov A (IfElse c body1 body2 :: k).
Proof.
  intros HJ H1 H2 Hb1 Hb2.
  apply covered_ifelse with (Q1 := relay_assert B1) (Q2 := relay_assert B2);
    [apply stable_relay_assert | intros s; apply HJ | exact H1 | exact H2 | exact Hb1 | exact Hb2].
Qed.

Lemma relay_weaken A B k :
  (forall v, A v = true -> B v = true) -> cov B k -> cov A k.
Proof.
  intros HAB Hk. apply covered_weaken with (P := relay_assert B);
    [exact Hk | apply stable_relay_assert | intros s; apply HAB].
Qed.

Lemma relay_nil A :
  (forall v, A v = true -> at_loop_head v = true) -> cov A [].
Proof.
  intros HL. apply covered_nil; [apply stable_relay_assert | |intros s; apply HL].
  intros s HA. apply HL in HA. revert HA. unfold relay_assert.
  generalize (relay_view_of s). bools.
Qed.

Ltac same A := apply (relay_do A A); [bools | vc |].
Ltac next A B := apply (relay_do A B); [bools | vc |].

Lemma relay_precharge k :
  cov after_beat k -> cov not_precharged_yet (precharge ++ k).
Proof.
  intros Hk. unfold precharge. cbn [app].
  next not_precharged_yet pre_0.
  same pre_0.
  next pre_0 pre_1.
  next pre_1 pre_2.
  same pre_2.
  apply relay_wait; [bools|].
  next pre_2 pre_3.
  same pre_3.
  next pre_3 pre_4.
  same pre_4.
  next pre_4 after_beat.
  exact Hk.
Qed.

Lemma relay_discharge k :
  cov switched_off k -> cov not_discharged_yet (discharge ++ k).
Proof.
  intros Hk. unfold discharge. cbn [app].
  next not_discharged_yet dis_0.
  same dis_0. same dis_0.
  next dis_0 dis_1.
  same dis_1.
  next dis_1 dis_2.
  same dis_2.
  next dis_2 switched_off.
  exact Hk.
Qed.

Lemma relay_update_relays k :
  cov after_beat k -> cov before_beat (update_relays ++ k).
Proof.
  intros Hk. unfold update_relays. cbn [app].
  apply (relay_ifelse before_beat guard_on before_beat); [bools | vc | vc | |]; cbn [app].
  - same guard_on. same guard_on. same guard_on.
    apply (relay_if guard_on not_precharged_yet after_beat); [bools | vc | vc | | exact Hk].
    apply relay_precharge, Hk.
  - same before_beat. same before_beat.
    apply (relay_if before_beat not_discharged_yet switched_off); [bools | vc | vc | |].
    + apply relay_discharge. same switched_off. same switched_off.
      apply (relay_weaken switched_off after_beat); [bools | exact Hk].
    + same switched_off. same switched_off.
      apply (relay_weaken switched_off after_beat); [bools | exact Hk].
Qed.

Lemma relay_beat k : cov after_beat k -> cov before_beat (beat ++ k).
Proof.
  intros Hk. unfold beat. rewrite <- app_comm_cons.
  same before_beat. apply relay_update_relays, Hk.
Qed.

Lemma relay_loop_body : cov at_loop_head loop_body.
Proof.
  unfold loop_body.
  apply (relay_do at_loop_head at_loop_head);
    [bools | intros s; unfold relay_assert; now rewrite relay_view_check_cells |].
  apply (relay_do at_loop_head after_encoder); [bools | |].
  { intros s. unfold relay_assert. rewrite relay_view_update. cbv zeta.
    generalize (ivt_timeout s || fault_bits (BMU s)) (relay_view_of s). intros e. revert e.
    intros [] [[] [] [] [] [] [] [] [] []]; cbv; intros H; first [discriminate H | reflexivity]. }
  assert (Htail : cov between_tests
            [ If error_flag
                [ If (fun s => negb (previous_status s =? b0 (BMU_status_array s))) beat ];
              Do (fun s => set_previous_status (b0 (BMU_status_array s)) s) ]).
  { apply (relay_if between_tests fault_found after_beat); [bools | vc | vc | |].
    - cbn [app].
      apply (relay_if fault_found before_beat after_beat); [bools | vc | | |].
      + intros s HA Hc. apply same_status in Hc. revert HA.
        unfold relay_assert, relay_view_of. rewrite Hc.
        destruct_state s. reduce_goal. split_bools; cbv; intros;
          first [discriminate | reflexivity].
      + apply relay_beat. next after_beat at_loop_head. apply relay_nil; bools.
      + next after_beat at_loop_head. apply relay_nil; bools.
    - next after_beat at_loop_head. apply relay_nil; bools. }
  apply (relay_if after_encoder before_beat between_tests); [bools | vc | vc | |].
  - rewrite <- app_comm_cons. same before_beat. apply relay_beat.
    apply (relay_weaken after_beat between_tests); [bools | exact Htail].
  - exact Htail.
Qed.

Lemma relay_main_prologue : cov open_all main_prologue.
Proof.
  unfold main_prologue. do 7 same open_all. apply relay_nil; bools.
Qed.

End RelayInvariant.

Lemma relays_ok_reachable m : reachable m -> relay_assert relays_ok (st m).
Proof.
  intros Hm.
  apply (covered_sound any_event (relay_assert relays_ok) (relay_assert at_loop_head)
           relay_loop_body (relay_assert open_all)).
  - reflexivity.
  - exact relay_main_prologue.
  - apply reachable_all, Hm.
Qed.

Lemma at_loop_head_reachable m :
  reachable m -> pc m = [] -> relay_assert at_loop_head (st m).
Proof.
  intros Hm Hpc.
  apply (covered_at_head any_event (relay_assert relays_ok) (relay_assert at_loop_head)
           relay_loop_body (relay_assert open_all)).
  - reflexivity.
  - exact relay_main_prologue.
  - apply reachable_all, Hm.
  - exact Hpc.
Qed.

Ltac each_statement :=
  repeat first [ apply each_nil | apply each_cons_wait | apply each_cons_if
               | apply each_cons_ifelse | apply each_cons_do ].

Lemma stable_status_recorded : stable any_event status_recorded.
Proof.
  intros ev s s' _ H Hi. pose proof (interrupt_main _ _ _ Hi) as Ho.
  unfold main_thread_globals, owned in Ho.
  injection Ho as _ _ _ HS _ _ Hprev _ _ _ _ _ _ _ _ _.
  unfold status_recorded. now rewrite HS, Hprev.
Qed.

Lemma stable_anything : stable any_event anything.
Proof. intros ev s s' _ _ _. exact I. Qed.

Lemma covered_anything p :
  each_do (fun _ => True) p ->
  forall k, covered any_event anything status_recorded anything k ->
            covered any_event anything status_recorded anything (p ++ k).
Proof.
  induction 1 as [|f p Hf Hp IH|p Hp IH|c body p Hb IHb Hp IHp
                 |c b1 b2 p Hb1 IH1 Hb2 IH2 Hp IHp]; intros k Hk; cbn [app].
  - exact Hk.
  - apply covered_do with (Q := anything); auto using stable_anything.
  - apply covered_wait; auto using stable_anything.
  - apply covered_if with (Q1 := anything) (Q2 := anything); auto using stable_anything.
  - apply covered_ifelse with (Q1 := anything) (Q2 := anything); auto using stable_anything.
Qed.

Lemma status_recorded_loop_body :
  covered any_event anything status_recorded status_recorded loop_body.
Proof.
  apply covered_weaken with (P := anything);
    [|exact stable_status_recorded | intros s _; exact I].
  change loop_body with
    ([ Do check_cells; Do update_BMU_status_array;
       If heartbeat_flag (Do (set_heartbeat_flag false) :: beat);
       If error_flag
          [ If (fun s => negb (previous_status s =? b0 (BMU_status_array s))) beat ] ]
     ++ [ Do (fun s => set_previous_status (b0 (BMU_status_array s)) s) ]).
  apply covered_anything.
  - unfold beat, update_relays, precharge, discharge. each_statement; exact I.
  - apply covered_do with (Q := status_recorded);
      [exact stable_anything | intros s _; exact I | intros s _; now destruct s |].
    apply covered_nil; [exact stable_status_recorded | intros s _; exact I | auto].
Qed.

Lemma status_recorded_main_prologue :
  covered any_event anything status_recorded status_recorded main_prologue.
Proof.
  unfold main_prologue.
  do 7 (apply covered_do with (Q := status_recorded);
        [exact stable_status_recorded | intros s _; exact I
        | intros s H; destruct_state s; exact H |]).
  apply covered_nil; [exact stable_status_recorded | intros s _; exact I | auto].
Qed.

Lemma status_recorded_at_head m :
  reachable m -> pc m = [] -> status_recorded (st m).
Proof.
  intros Hm Hpc.
  apply (covered_at_head any_event anything status_recorded
           status_recorded_loop_body status_recorded).
  - reflexivity.
  - exact status_recorded_main_prologue.
  - apply reachable_all, Hm.
  - exact Hpc.
Qed.

(** X18. In every reachable state, whatever interrupts occurred: the
    discharge relay is held open ([dischg_disable] high) whenever the
    precharge relay or the main contactor is closed; [precharge_state] is
    set only with the main contactor closed, the discharge relay held open
    and the precharge relay open; [discharge_state] is set only with the
    three outputs low. *)
Theorem relays_interlocked (m : machine) :
  reachable m ->
  let io := pins (st m) in
  (prechg_enable io = true -> dischg_disable io = true)
  /\ (hvdc_enable io = true -> dischg_disable io = true)
  /\ (precharge_state (BMU (st m)) = true ->
      hvdc_enable io = true /\ dischg_disable io = true /\ prechg_enable io = false)
  /\ (discharge_state (BMU (st m)) = true ->
      hvdc_enable io = false /\ dischg_disable io = false /\ prechg_enable io = false).
Proof.
  intros Hm io. pose proof (relays_ok_reachable m Hm) as H.
  unfold relay_assert, relay_view_of, relays_ok in H. cbn [rv_p rv_d rv_h rv_pe rv_dd] in H.
  subst io. revert H.
  destruct (precharge_state (BMU (st m))), (discharge_state (BMU (st m))),
    (hvdc_enable (pins (st m))), (prechg_enable (pins (st m))),
    (dischg_disable (pins (st m))); cbn; intros H; try discriminate H;
    repeat split; intros; first [ reflexivity | discriminate ].
Qed.

Lemma relays_interlocked_witness :
  hvdc_enable (pins (st (run_from_boot drive_trace))) = true
  /\ dischg_disable (pins (st (run_from_boot drive_trace))) = true.
Proof.
  assert (Hh : hvdc_enable (pins (st (run_from_boot drive_trace))) = true)
    by (vm_compute; reflexivity).
  split; [exact Hh|].
  destruct (relays_interlocked (run_from_boot drive_trace)
              (run_from_boot_reachable drive_trace)) as (_ & H & _).
  exact (H Hh).
Defined.

(** X19. Whenever the main thread is at the head of [while(1)], whatever
    interrupts occurred: the precharge relay is open, [dischg_disable] and
    [precharge_state] follow the main contactor, [previous_status] is status
    byte 0, and if the main contactor is closed then [safe_to_drive] holds,
    [error_flag] is false and bit 5 of status byte 0 is set.  So an
    iteration in which the evaluator finds a fault does not end with the
    main contactor closed. *)
Theorem contactor_closed_only_when_safe (m : machine) :
  reachable m -> pc m = [] ->
  prechg_enable (pins (st m)) = false
  /\ dischg_disable (pins (st m)) = hvdc_enable (pins (st m))
  /\ precharge_state (BMU (st m)) = hvdc_enable (pins (st m))
  /\ previous_status (st m) = b0 (BMU_status_array (st m))
  /\ (hvdc_enable (pins (st m)) = true ->
      safe_to_drive (BMU (st m)) = true /\ error_flag (st m) = false
      /\ Z.testbit (b0 (BMU_status_array (st m))) 5 = true).
Proof.
  intros Hm Hpc. pose proof (at_loop_head_reachable m Hm Hpc) as H.
  pose proof (status_recorded_at_head m Hm Hpc) as Hrec.
  unfold relay_assert, relay_view_of, at_loop_head, relays_at_rest, relays_ok in H.
  cbn [rv_p rv_d rv_h rv_pe rv_dd rv_sf rv_e rv_b5 rv_p5] in H.
  revert H.
  generalize (Z.testbit (b0 (BMU_status_array (st m))) 5)
    (Z.testbit (previous_status (st m)) 5).
  intros b5 p5.
  destruct (precharge_state (BMU (st m))), (discharge_state (BMU (st m))),
    (hvdc_enable (pins (st m))), (prechg_enable (pins (st m))),
    (dischg_disable (pins (st m))), (safe_to_drive (BMU (st m))), (error_flag (st m)),
    b5, p5; cbn; intros H; try discriminate H;
    repeat split; intros; first [ exact Hrec | reflexivity | discriminate ].
Qed.

Lemma contactor_closed_only_when_safe_witness :
  hvdc_enable (pins (st (run_from_boot driving_at_head_trace))) = true
  /\ safe_to_drive (BMU (st (run_from_boot driving_at_head_trace))) = true
  /\ error_flag (st (run_from_boot driving_at_head_trace)) = false.
Proof.
  assert (Hh : hvdc_enable (pins (st (run_from_boot driving_at_head_trace))) = true)
    by (vm_compute; reflexivity).
  assert (Hpc : pc (run_from_boot driving_at_head_trace) = []) by (vm_compute; reflexivity).
  split; [exact Hh|].
  destruct (contactor_closed_only_when_safe (run_from_boot driving_at_head_trace)
              (run_from_boot_reachable driving_at_head_trace) Hpc) as (_ & _ & _ & _ & H).
  destruct (H Hh) as (Hs & He & _). split; [exact Hs | exact He].
Defined.

(** ** What holds of the globals in every state *)

Lemma each_do_app R p : each_do R p -> forall k, each_do R k -> each_do R (p ++ k).
Proof.
  induction 1; intros k' Hk'; cbn [app]; try constructor; auto.
Qed.

Section Invariant.

Variable J : State -> Prop.
Hypothesis J_irq : forall s s', irq_effect s s' -> J s -> J s'.

Lemma stable_invariant : stable any_event J.
Proof. intros ev s s' _ HJ Hi. eapply J_irq; [eapply interrupt_effect; exact Hi | exact HJ]. Qed.

Lemma covered_each_do p :
  each_do (keeps J) p ->
  forall k, covered any_event J J J k -> covered any_event J J J (p ++ k).
Proof.
  induction 1 as [|f p Hf Hp IH|p Hp IH|c body p Hb IHb Hp IHp
                 |c b1 b2 p Hb1 IH1 Hb2 IH2 Hp IHp]; intros k Hk; cbn [app].
  - exact Hk.
  - apply covered_do with (Q := J); auto using stable_invariant.
  - apply covered_wait; auto using stable_invariant.
  - apply covered_if with (Q1 := J) (Q2 := J); auto using stable_invariant.
  - apply covered_ifelse with (Q1 := J) (Q2 := J); auto using stable_invariant.
Qed.

(** An invariant kept by every interrupt routine and by every statement of
    [main] holds in every reachable state. *)
Lemma invariant_reachable :
  J boot_state -> each_do (keeps J) main_prologue -> each_do (keeps J) loop_body ->
  forall m, reachable m -> J (st m).
Proof.
  intros H0 Hpro Hloop m Hm.
  assert (Hnil : covered any_event J J J [])
    by (apply covered_nil; auto using stable_invariant).
  apply (covered_sound any_event J J) with (P0 := J).
  - rewrite <- (app_nil_r loop_body). apply covered_each_do; assumption.
  - exact H0.
  - rewrite <- (app_nil_r main_prologue). apply covered_each_do; assumption.
  - apply reachable_all, Hm.
Qed.

End Invariant.

Lemma globals_ok_view s s' : globals_view s' = globals_view s -> globals_ok s -> globals_ok s'.
Proof.
  unfold globals_view, globals_ok, never_written, arrays_wf.
  intros H. injection H as -> -> -> -> -> -> -> -> -> -> -> -> -> -> -> ->. auto.
Qed.

Lemma globals_ok_view_tx s s' extra :
  globals_view s'
  = (ignition_demand s, previous_ignition_demand s,
     (contactor_state (BMU s), fan1_state (BMU s), fan2_state (BMU s), fan3_state (BMU s),
      fan4_state (BMU s)),
     (voltage2 (ivt_front s), voltage3 (ivt_front s), voltage2 (ivt_rear s),
      voltage3 (ivt_rear s)),
     contactor_array s, BMU_status_array s, can_tx s ++ extra, cell_voltages s,
     cell_temperatures s) ->
  Forall frame_ok extra -> globals_ok s -> globals_ok s'.
Proof.
  unfold globals_view, globals_ok, never_written, arrays_wf.
  intros H Hextra. injection H as -> -> -> -> -> -> -> -> -> -> -> -> -> -> -> ->.
  intros (Hig & Hnw & Hca & Hst & Htx & Hwf).
  split; [exact Hig|]. split; [exact Hnw|]. split; [exact Hca|].
  split; [exact Hst|]. split; [|exact Hwf].
  apply Forall_app. split; assumption.
Qed.

Lemma keeps_same f : (forall s, globals_view (f s) = globals_view s) -> keeps globals_ok f.
Proof. intros H s. apply globals_ok_view, H. Qed.

Lemma small_nonneg_bits b n :
  0 <= n -> 0 <= b -> (forall j, n <= j -> Z.testbit b j = false) -> b < 2 ^ n.
Proof.
  intros Hn Hb Hbits. destruct (Z.eq_dec b 0) as [->|Hb0]; [apply Z.pow_pos_nonneg; lia|].
  apply Z.log2_lt_pow2; [lia|].
  destruct (Z.lt_ge_cases (Z.log2 b) n) as [|Hge]; [assumption|].
  pose proof (Z.bit_log2 b ltac:(lia)) as Hbit. rewrite Hbits in Hbit by lia. discriminate Hbit.
Qed.

Lemma small_bits b n j : 0 <= b < 2 ^ n -> 0 <= n <= j -> Z.testbit b j = false.
Proof.
  intros Hb Hj. rewrite <- (Z.mod_small b (2 ^ n)) by lia.
  apply Z.mod_pow2_bits_high. lia.
Qed.

Lemma put_bit_range k v b n :
  0 <= k < n -> 0 <= b < 2 ^ n -> 0 <= put_bit k v b < 2 ^ n.
Proof.
  intros Hk Hb.
  assert (H0 : 0 <= put_bit k v b).
  { unfold put_bit, set_bit, clear_bit, to_char. destruct v; apply Z.land_nonneg; lia. }
  split; [exact H0|]. apply small_nonneg_bits; [lia | exact H0|].
  intros j Hj. rewrite testbit_put_bit by lia.
  replace (k =? j) with false by (symmetry; apply Z.eqb_neq; lia).
  rewrite (small_bits b n j) by lia. reflexivity.
Qed.

Lemma update_status_ok s :
  never_written s -> status_ok (BMU_status_array s) ->
  status_ok (BMU_status_array (update_BMU_status_array s)).
Proof.
  intros (_ & Hfans & _) (H0 & H1 & _). injection Hfans as Hf1 Hf2 Hf3 Hf4.
  unfold status_ok.
  pose proof (update_status_fans s) as Hb. cbv zeta in Hb.
  destruct Hb as (-> & -> & -> & ->).
  rewrite update_status0, update_status1, Hf1, Hf2, Hf3, Hf4.
  change 64 with (2 ^ 6). change 8 with (2 ^ 3).
  split; [|split; [|repeat split]].
  - repeat (apply put_bit_range; [lia|]). exact H0.
  - repeat (apply put_bit_range; [lia|]). exact H1.
Qed.

Lemma update_cell_arrays s :
  cell_voltages (update_BMU_status_array s) = cell_voltages s
  /\ cell_temperatures (update_BMU_status_array s) = cell_temperatures s
  /\ contactor_array (update_BMU_status_array s) = contactor_array s
  /\ ivt_rear (update_BMU_status_array s) = ivt_rear s.
Proof. destruct_state s. repeat split; encoder_field. Qed.

Lemma keeps_update : keeps globals_ok update_BMU_status_array.
Proof.
  intros s (Hig & Hnw & Hca & Hst & Htx & Hwf).
  pose proof (update_status_ok s Hnw Hst) as Hst'.
  destruct (update_cell_arrays s) as (Hcv & Hct & Hc & Hrear).
  unfold globals_ok, never_written, arrays_wf in *.
  rewrite update_ignition_demand, update_previous_ignition_demand, update_BMU,
    update_ivt_front, update_can_tx, Hcv, Hct, Hc, Hrear.
  split; [|split; [|auto]].
  - destruct (ivt_timeout s || fault_bits (BMU s)), (ignition_demand s),
      (previous_ignition_demand s); first [reflexivity | discriminate Hig].
  - destruct (BMU s). exact Hnw.
Qed.

Lemma globals_view_check_cells s : globals_view (check_cells s) = globals_view s.
Proof.
  rewrite check_cells_eq, check_ivt_temperature_eq, check_pack_voltage_eq,
    check_current_eq, check_charging_eq.
  destruct_state s. reduce_goal. reflexivity.
Qed.

Lemma keeps_contactor_array v : v = 0 \/ v = 1 -> keeps globals_ok (set_contactor_array v).
Proof.
  intros Hv s (Hig & Hnw & Hca & Hst & Htx & Hwf). destruct_state s.
  unfold globals_ok. repeat split; try assumption; apply Hnw || apply Hwf || apply Hst.
Qed.

Lemma keeps_can_send (msg : State -> CANMessage.t) :
  (forall s, globals_ok s -> frame_ok (msg s)) ->
  keeps globals_ok (fun s => can_send (msg s) s).
Proof.
  intros Hmsg s HJ. pose proof (Hmsg s HJ) as Hm.
  destruct HJ as (Hig & Hnw & Hca & Hst & Htx & Hwf).
  generalize dependent (msg s). intros m Hm. destruct_state s.
  unfold globals_ok. split; [exact Hig|]. split; [exact Hnw|]. split; [exact Hca|].
  split; [exact Hst|]. split; [|exact Hwf].
  change (Forall frame_ok (can_tx0 ++ [m])). apply Forall_app. split; [exact Htx|].
  constructor; [exact Hm | constructor].
Qed.

Lemma frame_ok_contactor_msg s : globals_ok s -> frame_ok (contactor_msg s).
Proof.
  intros (_ & _ & Hca & _). unfold frame_ok, contactor_msg.
  destruct Hca as [-> | ->]; auto.
Qed.

Lemma frame_ok_status_msg s : globals_ok s -> frame_ok (BMU_status_msg s).
Proof.
  intros (_ & _ & _ & (H0 & H1 & H2 & H3 & H4 & H5) & _). left.
  exists (b0 (BMU_status_array s)), (b1 (BMU_status_array s)).
  unfold BMU_status_msg. cbv zeta. rewrite H2, H3, H4, H5. auto.
Qed.

Ltac keep_globals :=
  first
    [ apply keeps_same; let s := fresh "s" in intros s; destruct_state s; reflexivity
    | apply keeps_contactor_array; auto
    | apply (keeps_can_send contactor_msg); exact frame_ok_contactor_msg
    | apply (keeps_can_send BMU_status_msg); exact frame_ok_status_msg ].

Lemma globals_beat : each_do (keeps globals_ok) beat.
Proof.
  unfold beat, update_relays, precharge, discharge. each_statement; keep_globals.
Qed.

Lemma globals_loop_body : each_do (keeps globals_ok) loop_body.
Proof.
  unfold loop_body.
  apply each_cons_do; [apply keeps_same, globals_view_check_cells|].
  apply each_cons_do; [exact keeps_update|].
  apply each_cons_if.
  { apply each_cons_do; [keep_globals | exact globals_beat]. }
  apply each_cons_if.
  { apply each_cons_if; [exact globals_beat | apply each_nil]. }
  apply each_cons_do; [keep_globals | apply each_nil].
Qed.

Lemma globals_main_prologue : each_do (keeps globals_ok) main_prologue.
Proof. unfold main_prologue. each_statement; keep_globals. Qed.

Lemma globals_view_config s :
  globals_view (config_IVT s)
  = (ignition_demand s, previous_ignition_demand s,
     (contactor_state (BMU s), fan1_state (BMU s), fan2_state (BMU s), fan3_state (BMU s),
      fan4_state (BMU s)),
     (voltage2 (ivt_front s), voltage3 (ivt_front s), voltage2 (ivt_rear s),
      voltage3 (ivt_rear s)),
     contactor_array s, BMU_status_array s, can_tx s ++ config_frames, cell_voltages s,
     cell_temperatures s).
Proof. unfold globals_view. rewrite config_IVT_can_tx. reflexivity. Qed.

Lemma frame_ok_config : Forall frame_ok config_frames.
Proof.
  apply Forall_forall. intros m Hm. right. right. right. exact Hm.
Qed.

Lemma globals_ok_irq s s' : irq_effect s s' -> globals_ok s -> globals_ok s'.
Proof.
  intros He HJ.
  destruct He as [cv Hcv|ct Hct|d0|w|w|w|w|w|w|w|w|w|w|w|w| | | | |us];
    try (revert HJ; apply globals_ok_view; destruct_state s; reflexivity).
  - (* cell voltages *)
    destruct HJ as (Hig & Hnw & Hca & Hst & Htx & Hwf). destruct_state s.
    unfold globals_ok. repeat split; try assumption; try apply Hnw; try apply Hst;
      try apply Hwf.
    cbn in Hcv |- *. rewrite Hcv. apply Hwf.
  - (* cell temperatures *)
    destruct HJ as (Hig & Hnw & Hca & Hst & Htx & Hcvl & Hrows & Hcols). destruct_state s.
    unfold globals_ok. repeat split; try assumption; try apply Hnw; try apply Hst.
    + cbn in Hct, Hrows |- *. rewrite <- (length_map length), Hct, length_map. exact Hrows.
    + cbn in Hct, Hcols |- *.
      assert (H : Forall (fun n => n = 8%nat) (map length ct))
        by (rewrite Hct; apply Forall_map; exact Hcols).
      apply Forall_map in H. exact H.
  - (* driver controls *)
    destruct HJ as (Hig & Hnw & Hca & Hst & Htx & Hwf).
    rewrite driver_controls_eq. cbv zeta.
    generalize (negb (Z.land d0 1 =? 0)) (negb (Z.land d0 8 =? 0)). intros ig so.
    destruct_state s. unfold globals_ok.
    repeat split; try assumption; try apply Hnw; try apply Hst; try apply Hwf.
    cbn in Hig |- *. destruct ig, ignition_demand0, previous_ignition_demand0;
      first [reflexivity | discriminate Hig].
  - (* configuration of the IVTs *)
    revert HJ. apply (globals_ok_view_tx s _ config_frames);
      [apply globals_view_config | exact frame_ok_config].
Qed.

Lemma globals_ok_boot : globals_ok boot_state.
Proof.
  split; [reflexivity|]. split; [repeat split|]. split; [left; reflexivity|].
  split; [unfold status_ok; cbn; lia|]. split; [constructor | exact boot_arrays_wf].
Qed.

Lemma globals_ok_reachable m : reachable m -> globals_ok (st m).
Proof.
  apply (invariant_reachable globals_ok globals_ok_irq globals_ok_boot
           globals_main_prologue globals_loop_body).
Qed.



(** X21. Every frame the firmware has handed to the CAN peripheral, in any
    reachable state, is a heartbeat 0x400 of six bytes whose bits 6 and 7 of
    byte 0, bits 3 to 7 of byte 1 and bytes 2 to 5 are zero, a contactor
    command 0x34F of one byte 0 or 1, or one of the ten configuration frames
    of the IVTs to 0x411; its length is the number of its payload bytes. *)
Theorem transmitted_frames (m : machine) :
  reachable m ->
  Forall frame_ok (can_tx (st m))
  /\ Forall (fun msg =>
       (CANMessage.id msg = 0x400 \/ CANMessage.id msg = 0x34F \/ CANMessage.id msg = 0x411)
       /\ CANMessage.len msg = Z.of_nat (length (CANMessage.data msg))
       /\ Forall (fun b => 0 <= b < 256) (CANMessage.data msg)) (can_tx (st m)).
Proof.
  intros Hm. destruct (globals_ok_reachable m Hm) as (_ & _ & _ & _ & Htx & _).
  split; [exact Htx|].
  eapply Forall_impl; [|exact Htx]. intros msg Hok. cbv beta.
  destruct Hok as [(a0 & a1 & -> & H0 & H1)|[->|[->|Hin]]].
  - split; [left; reflexivity|]. split; [reflexivity|]. repeat constructor; lia.
  - split; [right; left; reflexivity|]. split; [reflexivity|]. repeat constructor; lia.
  - split; [right; left; reflexivity|]. split; [reflexivity|]. repeat constructor; lia.
  - unfold config_frames in Hin. cbn [In] in Hin.
    repeat (destruct Hin as [<-|Hin];
            [split; [right; right; reflexivity|]; split; [reflexivity|];
             repeat constructor; lia|]).
    contradiction.
Qed.

Lemma transmitted_frames_witness :
  length (can_tx (st (run_from_boot drive_trace))) = 2%nat
  /\ Forall frame_ok (can_tx (st (run_from_boot drive_trace))).
Proof.
  split; [vm_compute; reflexivity|].
  apply (transmitted_frames (run_from_boot drive_trace)).
  apply run_from_boot_reachable.
Defined.

(** X22. No reachable state has [contactor_state] set, a fan state other
    than 0 or a U2 or U3 reading other than 0: the firmware never writes
    them.  Its status bytes have bits 6 and 7 of byte 0, bits 3 to 7 of byte
    1 and bytes 2 to 5 at zero, and its contactor byte is 0 or 1. *)
Theorem unwritten_fields (m : machine) :
  reachable m ->
  never_written (st m) /\ status_ok (BMU_status_array (st m))
  /\ (contactor_array (st m) = 0 \/ contactor_array (st m) = 1).
Proof.
  intros Hm. destruct (globals_ok_reachable m Hm) as (_ & Hnw & Hca & Hst & _). auto.
Qed.

Lemma unwritten_fields_witness :
  contactor_array (st (run_from_boot drive_trace)) = 1
  /\ never_written (st (run_from_boot drive_trace)).
Proof.
  split; [vm_compute; reflexivity|].
  apply (unwritten_fields (run_from_boot drive_trace)).
  apply run_from_boot_reachable.
Defined.

Lemma CANRecieveRoutine_total msg s :
  arrays_wf s -> CANMessage.wf msg -> exists s', CANRecieveRoutine msg s = Some s'.
Proof.
  intros Hwf [Hd Hbytes].
  destruct (ivt_word_Some _ Hd) as [w Hw].
  destruct (array_load_Some (CANMessage.data msg) 0) as [d0 Hd0]; [lia|].
  destruct Hwf as (Hcv & Hct & Hrows).
  unfold CANRecieveRoutine. rewrite Hw, Hd0. cbn [mbind option_bind].
  destruct (_ && _) eqn:Hid.
  { apply andb_true_iff in Hid as [H1 H2]. apply Z.leb_le in H1, H2.
    destruct (cell_voltage_loop msg 4 0 s) as (s' & Hrun & _); try assumption; try lia.
    exists s'. exact Hrun. }
  repeat match goal with
         | |- exists s', (if ?c then Some _ else _) = Some s' =>
             destruct c; [eexists; reflexivity|]
         end.
  destruct (_ =? 1360).
  { destruct (cell_temperature_loop msg 0 8 0 s) as (s' & Hrun & _); try assumption; try lia.
    exists s'. exact Hrun. }
  destruct (_ =? 1378).
  { destruct (cell_temperature_loop msg 1 8 0 s) as (s' & Hrun & _); try assumption; try lia.
    exists s'. exact Hrun. }
  eexists. reflexivity.
Qed.

(** X23. In every reachable state the two cell arrays have the sizes of
    their declarations (32, and 2 rows of 8), and the receive routine, on
    any frame of eight payload bytes, returns: no access of the interrupt
    routine is ever out of range. *)
Theorem receive_never_fails (m : machine) (msg : CANMessage.t) :
  reachable m -> CANMessage.wf msg ->
  arrays_wf (st m) /\ exists s', CANRecieveRoutine msg (st m) = Some s'.
Proof.
  intros Hm Hmsg. destruct (globals_ok_reachable m Hm) as (_ & _ & _ & _ & _ & Hwf).
  split; [exact Hwf | apply CANRecieveRoutine_total; assumption].
Qed.

Lemma receive_never_fails_witness :
  arrays_wf (st (run_from_boot drive_trace))
  /\ exists s', CANRecieveRoutine cells_4_7_frame (st (run_from_boot drive_trace)) = Some s'.
Proof.
  apply (receive_never_fails (run_from_boot drive_trace) cells_4_7_frame).
  - apply run_from_boot_reachable.
  - split; [reflexivity|]. repeat constructor; lia.
Defined.

(** ** What stays once it holds *)

Lemma each_do_main_step R m pin :
  each_do R loop_body -> each_do R (pc m) -> each_do R (pc (main_step pin m)).
Proof.
  intros Hloop Hpc. unfold main_step.
  assert (Hk : each_do R (match pc m with [] => loop_body | k => k end))
    by (destruct (pc m); [exact Hloop | exact Hpc]).
  revert Hk. generalize (match pc m with [] => loop_body | k => k end). intros k Hk.
  destruct Hk as [|f k Hf Hk|k Hk|c body k Hb Hk|c b1 b2 k Hb1 Hb2 Hk]; cbn [pc].
  - exact Hpc.
  - exact Hk.
  - destruct pin; [exact Hk | constructor; exact Hk].
  - destruct (c (st m)); [apply each_do_app|]; assumption.
  - destruct (c (st m)); apply each_do_app; assumption.
Qed.

Lemma each_do_step R ev m m' :
  each_do R loop_body -> each_do R (pc m) -> step ev m = Some m' -> each_do R (pc m').
Proof.
  intros Hloop Hpc Hs.
  destruct ev as [pin|msg| | |us]; cbn [step] in Hs;
    [injection Hs as <-; apply each_do_main_step; assumption|..];
    (destruct (interrupt _ (st m)) as [s'|]; [|discriminate Hs];
     cbn in Hs; injection Hs as <-; exact Hpc).
Qed.

(** What is left of the main thread is made of statements of [main]. *)
Lemma each_do_reachable R :
  each_do R main_prologue -> each_do R loop_body ->
  forall m, reachable m -> each_do R (pc m).
Proof.
  intros Hpro Hloop m. induction 1 as [|m ev m' Hm IH Hs]; [exact Hpro|].
  eapply each_do_step; eassumption.
Qed.

Section CoveredKeeps.

Variable J L P : State -> Prop.
Hypothesis P_stable : stable any_event P.
Hypothesis P_J : forall s, P s -> J s.

(** Statements that keep an assertion, which no interrupt breaks and which
    gives [J], are covered under it. *)
Lemma covered_keeps p :
  each_do (keeps P) p ->
  forall k, covered any_event J L P k -> covered any_event J L P (p ++ k).
Proof.
  induction 1 as [|f p Hf Hp IH|p Hp IH|c body p Hb IHb Hp IHp
                 |c b1 b2 p Hb1 IH1 Hb2 IH2 Hp IHp]; intros k Hk; cbn [app].
  - exact Hk.
  - apply covered_do with (Q := P); auto.
  - apply covered_wait; auto.
  - apply covered_if with (Q1 := P) (Q2 := P); auto.
  - apply covered_ifelse with (Q1 := P) (Q2 := P); auto.
Qed.

End CoveredKeeps.

Section Latch.

Variable K : State -> Prop.
Hypothesis K_irq : forall s s', irq_effect s s' -> K s -> K s'.
Hypothesis K_prologue : each_do (keeps K) main_prologue.
Hypothesis K_loop : each_do (keeps K) loop_body.

Lemma kept_main_step m pin :
  each_do (keeps K) (pc m) -> K (st m) -> K (st (main_step pin m)).
Proof.
  intros Hpc HK. unfold main_step.
  assert (Hk : each_do (keeps K) (match pc m with [] => loop_body | k => k end))
    by (destruct (pc m); [exact K_loop | exact Hpc]).
  revert Hk. generalize (match pc m with [] => loop_body | k => k end). intros k Hk.
  destruct Hk as [|f k Hf Hk|k Hk|c body k Hb Hk|c b1 b2 k Hb1 Hb2 Hk]; cbn [st];
    first [exact HK | apply Hf, HK].
Qed.

Lemma kept_step ev m m' :
  each_do (keeps K) (pc m) -> K (st m) -> step ev m = Some m' -> K (st m').
Proof.
  intros Hpc HK Hs.
  destruct ev as [pin|msg| | |us]; cbn [step] in Hs;
    [injection Hs as <-; apply kept_main_step; assumption|..];
    (destruct (interrupt _ (st m)) as [s'|] eqn:E; [|discriminate Hs];
     cbn in Hs; injection Hs as <-; cbn [st];
     eapply K_irq; [eapply interrupt_effect; exact E | exact HK]).
Qed.

(** What every interrupt routine and every statement of [main] keeps, once
    true, is true in every later state. *)
Lemma kept_for_good evs : forall m m',
  reachable m -> run evs m = Some m' -> K (st m) -> K (st m').
Proof.
  induction evs as [|ev evs IH]; intros m m' Hm Hr HK; cbn [run] in Hr.
  - injection Hr as <-. exact HK.
  - destruct (step ev m) as [m1|] eqn:E; [|discriminate Hr]. cbn in Hr.
    apply (IH m1 m'); [eapply reachable_step; eassumption | exact Hr|].
    apply (kept_step ev m m1); [|exact HK | exact E].
    apply each_do_reachable; assumption.
Qed.

End Latch.

Lemma latched_irq s s' :
  irq_effect s s' ->
  (under_temperature_latched s -> under_temperature_latched s')
  /\ (over_temperature_latched s -> over_temperature_latched s')
  /\ (contactor_indic (pins s) = true -> contactor_indic (pins s') = true).
Proof.
  intros H. pose proof (irq_effect_main _ _ H) as Ho.
  unfold main_thread_globals, owned in Ho.
  injection Ho as HB HP _ _ _ _ _ _ _ _ Hot Hut _ _ _ _.
  unfold under_temperature_latched, over_temperature_latched.
  rewrite HB, HP, Hot, Hut. auto.
Qed.

Lemma latched_check_cells s :
  (under_temperature_latched s -> under_temperature_latched (check_cells s))
  /\ (over_temperature_latched s -> over_temperature_latched (check_cells s)).
Proof.
  unfold under_temperature_latched, over_temperature_latched.
  rewrite check_cells_eq, check_ivt_temperature_eq, check_pack_voltage_eq,
    check_current_eq, check_charging_eq.
  destruct_state s. reduce_goal.
  split; intros (H1 & H2); subst;
    repeat match goal with
           | |- context [if ?c then _ else _] => no_inner_if c; destruct c
           end; split; reflexivity.
Qed.

Lemma update_temperature_flags s :
  over_temperature_flag (update_BMU_status_array s) = over_temperature_flag s
  /\ under_temperature_flag (update_BMU_status_array s) = under_temperature_flag s.
Proof.
  destruct_state s. split; encoder_field.
Qed.

Lemma latched_update s :
  (under_temperature_latched s -> under_temperature_latched (update_BMU_status_array s))
  /\ (over_temperature_latched s -> over_temperature_latched (update_BMU_status_array s)).
Proof.
  unfold under_temperature_latched, over_temperature_latched.
  destruct (update_temperature_flags s) as (-> & ->). rewrite update_BMU.
  destruct (BMU s). auto.
Qed.

Ltac keep_field :=
  let s := fresh "s" in let H := fresh "H" in
  intros s H; destruct_state s; exact H.

Lemma under_temperature_loop_body : each_do (keeps under_temperature_latched) loop_body.
Proof.
  unfold loop_body, beat, update_relays, precharge, discharge.
  apply each_cons_do; [intros s; exact (proj1 (latched_check_cells s))|].
  apply each_cons_do; [intros s; exact (proj1 (latched_update s))|].
  each_statement; keep_field.
Qed.

Lemma over_temperature_loop_body : each_do (keeps over_temperature_latched) loop_body.
Proof.
  unfold loop_body, beat, update_relays, precharge, discharge.
  apply each_cons_do; [intros s; exact (proj2 (latched_check_cells s))|].
  apply each_cons_do; [intros s; exact (proj2 (latched_update s))|].
  each_statement; keep_field.
Qed.

(** X24. A temperature fault is permanent.  From any reachable state in
    which [under_temperature_flag] and the under-temperature bit of the BMU
    struct are set, every later state has them set, whatever the IVTs report
    and whatever interrupts occur; the same for the over-temperature flag
    and bit. *)
Theorem temperature_fault_is_permanent (m : machine) (evs : list event) (m' : machine) :
  reachable m -> run evs m = Some m' ->
  (under_temperature_latched (st m) -> under_temperature_latched (st m'))
  /\ (over_temperature_latched (st m) -> over_temperature_latched (st m')).
Proof.
  intros Hm Hr. split.
  - apply (kept_for_good under_temperature_latched) with (evs := evs) (m := m);
      try assumption.
    + intros s s' H. apply latched_irq, H.
    + unfold main_prologue. each_statement; keep_field.
    + exact under_temperature_loop_body.
  - apply (kept_for_good over_temperature_latched) with (evs := evs) (m := m);
      try assumption.
    + intros s s' H. apply latched_irq, H.
    + unfold main_prologue. each_statement; keep_field.
    + exact over_temperature_loop_body.
Qed.

Lemma temperature_fault_is_permanent_witness :
  under_temperature_latched
    (st (run_from_boot (mains 8 ++ healthy_readings ++ mains 20))).
Proof.
  assert (Hr : run (healthy_readings ++ mains 20) (run_from_boot (mains 8))
               = Some (run_from_boot (mains 8 ++ healthy_readings ++ mains 20)))
    by (vm_compute; reflexivity).
  destruct (temperature_fault_is_permanent (run_from_boot (mains 8))
              (healthy_readings ++ mains 20) _ (run_from_boot_reachable _) Hr) as (H & _).
  apply H. vm_compute. auto.
Defined.

Section LockOut.

Abbreviation cov := (covered any_event locked_out locked_out).

Lemma stable_locked_out : stable any_event locked_out.
Proof.
  intros ev s s' _ H Hi. pose proof (interrupt_main _ _ _ Hi) as Ho.
  unfold main_thread_globals, owned in Ho.
  injection Ho as HB HP _ _ _ _ _ _ _ _ Hot Hut _ _ _ _.
  unfold locked_out, under_temperature_latched, over_temperature_latched.
  rewrite HB, HP, Hot, Hut. exact H.
Qed.

Lemma stable_locked_out_unsafe : stable any_event locked_out_unsafe.
Proof.
  intros ev s s' Ha (H & Hs) Hi. split; [exact (stable_locked_out ev s s' Ha H Hi)|].
  pose proof (interrupt_main _ _ _ Hi) as Ho.
  unfold main_thread_globals, owned in Ho.
  injection Ho as HB _ _ _ _ _ _ _ _ _ _ _ _ _ _ _. rewrite HB. exact Hs.
Qed.

Lemma stable_unreachable : stable any_event unreachable.
Proof. intros ev s s' _ H. destruct H. Qed.

Lemma lock_unreachable p :
  each_do (fun _ => True) p ->
  forall k, cov unreachable k -> cov unreachable (p ++ k).
Proof.
  intros Hp. apply covered_keeps; [exact stable_unreachable | intros s [] |].
  clear -Hp.
  induction Hp; constructor; auto; intros s [].
Qed.

Lemma lock_each_do p :
  each_do (keeps locked_out_unsafe) p ->
  forall k, cov locked_out_unsafe k -> cov locked_out_unsafe (p ++ k).
Proof.
  apply covered_keeps; [exact stable_locked_out_unsafe | intros s H; apply H].
Qed.

Ltac keep_lock :=
  let s := fresh "s" in let H := fresh "H" in
  intros s H; destruct_state s;
  unfold locked_out_unsafe, locked_out, under_temperature_latched,
    over_temperature_latched in *;
  cbn in *; tauto.

Lemma lock_beat k : cov locked_out_unsafe k -> cov locked_out_unsafe (beat ++ k).
Proof.
  intros Hk. unfold beat, update_relays. cbn [app].
  apply covered_do with (Q := locked_out_unsafe);
    [exact stable_locked_out_unsafe | intros s H; apply H | keep_lock |].
  apply covered_ifelse with (Q1 := unreachable) (Q2 := locked_out_unsafe);
    [exact stable_locked_out_unsafe | intros s H; apply H | | auto | |].
  - intros s (_ & Hs) Hg. unfold drive_guard in Hg. rewrite Hs, andb_false_r in Hg.
    discriminate Hg.
  - apply lock_unreachable.
    + unfold precharge. each_statement; exact I.
    + apply covered_weaken with (P := locked_out_unsafe);
        [exact Hk | exact stable_unreachable | intros s []].
  - apply lock_each_do; [|exact Hk].
    unfold discharge. each_statement; keep_lock.
Qed.

Lemma locked_out_check_cells s : locked_out s -> locked_out (check_cells s).
Proof.
  intros (Ht & Hh & Hp). unfold locked_out. rewrite check_cells_pins.
  split; [|split; [exact Hh | exact Hp]].
  destruct Ht as [Ht | Ht];
    [left; exact (proj1 (latched_check_cells s) Ht)
    | right; exact (proj2 (latched_check_cells s) Ht)].
Qed.

Lemma locked_out_update s : locked_out s -> locked_out_unsafe (update_BMU_status_array s).
Proof.
  intros (Ht & Hh & Hp). unfold locked_out_unsafe, locked_out.
  rewrite update_pins, update_BMU.
  split; [split; [|split]|].
  - destruct Ht as [Ht | Ht];
      [left; exact (proj1 (latched_update s) Ht) | right; exact (proj2 (latched_update s) Ht)].
  - destruct (pins s). exact Hh.
  - destruct (pins s). exact Hp.
  - assert (Hf : fault_bits (BMU s) = true).
    { unfold fault_bits. destruct Ht as [(_ & ->) | (_ & ->)];
        rewrite ?orb_true_r; reflexivity. }
    rewrite Hf, orb_true_r. destruct (BMU s). reflexivity.
Qed.

Lemma locked_out_loop_body : cov locked_out loop_body.
Proof.
  assert (HJ : forall s, locked_out_unsafe s -> locked_out s) by (intros s H; apply H).
  assert (Hend : cov locked_out_unsafe
                   [Do (fun s => set_previous_status (b0 (BMU_status_array s)) s)]).
  { apply covered_do with (Q := locked_out_unsafe);
      [exact stable_locked_out_unsafe | exact HJ | keep_lock |].
    apply covered_nil; [exact stable_locked_out_unsafe | exact HJ | exact HJ]. }
  unfold loop_body.
  apply covered_do with (Q := locked_out);
    [exact stable_locked_out | auto | exact locked_out_check_cells |].
  apply covered_do with (Q := locked_out_unsafe);
    [exact stable_locked_out | auto | exact locked_out_update |].
  assert (Hrest : cov locked_out_unsafe
            [ If error_flag
                [ If (fun s => negb (previous_status s =? b0 (BMU_status_array s))) beat ];
              Do (fun s => set_previous_status (b0 (BMU_status_array s)) s) ]).
  { apply covered_if with (Q1 := locked_out_unsafe) (Q2 := locked_out_unsafe);
      [exact stable_locked_out_unsafe | exact HJ | auto | auto | | exact Hend].
    cbn [app].
    apply covered_if with (Q1 := locked_out_unsafe) (Q2 := locked_out_unsafe);
      [exact stable_locked_out_unsafe | exact HJ | auto | auto | | exact Hend].
    apply lock_beat, Hend. }
  apply covered_if with (Q1 := locked_out_unsafe) (Q2 := locked_out_unsafe);
    [exact stable_locked_out_unsafe | exact HJ | auto | auto | | exact Hrest].
  cbn [app].
  apply covered_do with (Q := locked_out_unsafe);
    [exact stable_locked_out_unsafe | exact HJ | keep_lock |].
  apply lock_beat, Hrest.
Qed.

Lemma locked_out_run evs : forall m m',
  machine_inv any_event locked_out locked_out m -> run evs m = Some m' ->
  machine_inv any_event locked_out locked_out m'.
Proof.
  induction evs as [|ev evs IH]; intros m m' Hinv Hr; cbn [run] in Hr.
  - injection Hr as <-. exact Hinv.
  - destruct (step ev m) as [m1|] eqn:E; [|discriminate Hr]. cbn in Hr.
    apply (IH m1 m'); [|exact Hr].
    destruct ev as [pin|msg| | |us]; cbn [step] in E;
      [injection E as <-; apply machine_inv_main_step;
       [exact locked_out_loop_body | exact Hinv]|..];
      (destruct (interrupt _ (st m)) as [s'|] eqn:Ei; [|discriminate E];
       cbn in E; injection E as <-;
       eapply machine_inv_interrupt; [exact I | exact Hinv | exact Ei]).
Qed.

End LockOut.

(** X25. From the head of [while(1)] with a temperature fault latched and
    the precharge relay and the main contactor open, neither closes again:
    every later state has [hvdc_enable] and [prechg_enable] low and the
    fault latched, and a pass of the encoder there leaves [safe_to_drive]
    false.  This is the state after a boot whose first pass of [check_cells]
    runs before the rear IVT has reported a temperature: healthy readings
    and the ignition that follow do not close the contactor. *)
Theorem temperature_fault_locks_out (m : machine) (evs : list event) (m' : machine) :
  pc m = [] -> locked_out (st m) -> run evs m = Some m' ->
  locked_out (st m')
  /\ safe_to_drive (BMU (update_BMU_status_array (st m'))) = false.
Proof.
  intros Hpc Hl Hr.
  assert (Hinv : machine_inv any_event locked_out locked_out m).
  { exists locked_out. split; [exact Hl|]. rewrite Hpc.
    apply covered_nil; [exact stable_locked_out | auto | auto]. }
  destruct (locked_out_run evs m m' Hinv Hr) as (P & HP & Hc).
  assert (Hl' : locked_out (st m')) by (eapply covered_holds; eassumption).
  split; [exact Hl' | apply (locked_out_update _ Hl')].
Qed.

Lemma temperature_fault_locks_out_witness :
  let s := st (run_from_boot (silent_boot_trace ++ readings_after_boot)) in
  (ivt_timeout s = false /\ over_current (BMU s) = false /\ under_voltage (BMU s) = false
   /\ over_voltage (BMU s) = false /\ temperature (ivt_rear s) = 250)
  /\ locked_out s.
Proof.
  split; [vm_compute; repeat split; reflexivity|].
  apply (temperature_fault_locks_out (run_from_boot silent_boot_trace) readings_after_boot).
  - vm_compute. reflexivity.
  - vm_compute. auto.
  - vm_compute. reflexivity.
Defined.

Lemma stable_pins (P : DigitalOuts -> Prop) : stable any_event (fun s => P (pins s)).
Proof.
  intros ev s s' _ H Hi. pose proof (interrupt_main _ _ _ Hi) as Ho.
  unfold main_thread_globals, owned in Ho.
  injection Ho as _ HP _ _ _ _ _ _ _ _ _ _ _ _ _ _. rewrite HP. exact H.
Qed.

Lemma stable_indicator_ok : stable any_event indicator_ok.
Proof.
  exact (stable_pins (fun io => hvdc_enable io = true \/ prechg_enable io = true ->
                                contactor_indic io = true)).
Qed.

Lemma stable_indicator_lit : stable any_event indicator_lit.
Proof. exact (stable_pins (fun io => contactor_indic io = true)). Qed.

Lemma indicator_lit_ok s : indicator_lit s -> indicator_ok s.
Proof. intros H _. exact H. Qed.

Ltac keep_indicator :=
  let s := fresh "s" in let H := fresh "H" in
  intros s H; destruct_state s; unfold indicator_ok, indicator_lit in *;
  cbn in *; first [exact H | reflexivity | intuition discriminate].

Section Indicator.

Abbreviation cov := (covered any_event indicator_ok indicator_ok).

Lemma indicator_beat k : cov indicator_ok k -> cov indicator_ok (beat ++ k).
Proof.
  intros Hk. unfold beat, update_relays. cbn [app].
  apply covered_do with (Q := indicator_ok);
    [exact stable_indicator_ok | auto | keep_indicator |].
  apply covered_ifelse with (Q1 := indicator_ok) (Q2 := indicator_ok);
    [exact stable_indicator_ok | auto | auto | auto | |].
  - cbn [app].
    apply covered_do with (Q := indicator_ok);
      [exact stable_indicator_ok | auto | keep_indicator |].
    apply covered_do with (Q := indicator_lit);
      [exact stable_indicator_ok | auto | keep_indicator |].
    apply (covered_keeps indicator_ok indicator_ok indicator_lit stable_indicator_lit
             indicator_lit_ok
             [ Do (fun s => can_send (contactor_msg s) s);
               If (fun s => negb (precharge_state (BMU s))) precharge ]).
    + unfold precharge. each_statement; keep_indicator.
    + apply covered_weaken with (P := indicator_ok);
        [exact Hk | exact stable_indicator_lit | exact indicator_lit_ok].
  - apply (covered_keeps indicator_ok indicator_ok indicator_ok stable_indicator_ok);
      [auto | | exact Hk].
    unfold discharge. each_statement; keep_indicator.
Qed.

Lemma indicator_check_cells s : indicator_ok s -> indicator_ok (check_cells s).
Proof.
  unfold indicator_ok, indicator_lit. rewrite check_cells_pins. destruct (pins s). auto.
Qed.

Lemma indicator_update s : indicator_ok s -> indicator_ok (update_BMU_status_array s).
Proof.
  unfold indicator_ok, indicator_lit. rewrite update_pins. destruct (pins s). auto.
Qed.

Lemma indicator_loop_body : cov indicator_ok loop_body.
Proof.
  assert (Hend : cov indicator_ok
                   [Do (fun s => set_previous_status (b0 (BMU_status_array s)) s)]).
  { apply covered_do with (Q := indicator_ok);
      [exact stable_indicator_ok | auto | keep_indicator |].
    apply covered_nil; [exact stable_indicator_ok | auto | auto]. }
  assert (Hrest : cov indicator_ok
            [ If error_flag
                [ If (fun s => negb (previous_status s =? b0 (BMU_status_array s))) beat ];
              Do (fun s => set_previous_status (b0 (BMU_status_array s)) s) ]).
  { apply covered_if with (Q1 := indicator_ok) (Q2 := indicator_ok);
      [exact stable_indicator_ok | auto | auto | auto | | exact Hend].
    cbn [app].
    apply covered_if with (Q1 := indicator_ok) (Q2 := indicator_ok);
      [exact stable_indicator_ok | auto | auto | auto | | exact Hend].
    apply indicator_beat, Hend. }
  unfold loop_body.
  apply covered_do with (Q := indicator_ok);
    [exact stable_indicator_ok | auto | exact indicator_check_cells |].
  apply covered_do with (Q := indicator_ok);
    [exact stable_indicator_ok | auto | exact indicator_update |].
  apply covered_if with (Q1 := indicator_ok) (Q2 := indicator_ok);
    [exact stable_indicator_ok | auto | auto | auto | | exact Hrest].
  cbn [app].
  apply covered_do with (Q := indicator_ok);
    [exact stable_indicator_ok | auto | keep_indicator |].
  apply indicator_beat, Hrest.
Qed.

Lemma indicator_main_prologue : cov indicator_ok main_prologue.
Proof.
  rewrite <- (app_nil_r main_prologue).
  apply (covered_keeps indicator_ok indicator_ok indicator_ok stable_indicator_ok); [auto | |].
  - unfold main_prologue. each_statement; keep_indicator.
  - apply covered_nil; [exact stable_indicator_ok | auto | auto].
Qed.

Lemma indicator_ok_reachable m : reachable m -> indicator_ok (st m).
Proof.
  intros Hm.
  apply (covered_sound any_event indicator_ok indicator_ok indicator_loop_body indicator_ok).
  - intros [H | H]; discriminate H.
  - exact indicator_main_prologue.
  - apply reachable_all, Hm.
Qed.

End Indicator.

Lemma indicator_lit_loop_body : each_do (keeps indicator_lit) loop_body.
Proof.
  unfold loop_body, beat, update_relays, precharge, discharge.
  apply each_cons_do;
    [intros s; unfold indicator_lit; rewrite check_cells_pins; destruct (pins s); auto|].
  apply each_cons_do;
    [intros s; unfold indicator_lit; rewrite update_pins; destruct (pins s); auto|].
  each_statement; keep_indicator.
Qed.

(** X26. In every reachable state the contactor indicator is lit while
    the main contactor or the precharge relay is closed.  It is never
    switched off: once lit it is lit in every later state, also after
    [discharge] has opened the main contactor. *)
Theorem contactor_indicator (m : machine) :
  reachable m ->
  (hvdc_enable (pins (st m)) = true \/ prechg_enable (pins (st m)) = true ->
   contactor_indic (pins (st m)) = true)
  /\ (forall evs m', run evs m = Some m' ->
       contactor_indic (pins (st m)) = true -> contactor_indic (pins (st m')) = true).
Proof.
  intros Hm. split; [exact (indicator_ok_reachable m Hm)|].
  intros evs m' Hr.
  apply (kept_for_good indicator_lit) with (evs := evs) (m := m); try assumption.
  - intros s s' H. apply latched_irq, H.
  - unfold main_prologue. each_statement; keep_indicator.
  - exact indicator_lit_loop_body.
Qed.

Lemma contactor_indicator_witness :
  let s := st (run_from_boot (drive_trace ++ ignition_off_beat)) in
  hvdc_enable (pins s) = false /\ contactor_indic (pins s) = true.
Proof.
  split; [vm_compute; reflexivity|].
  assert (Hr : run ignition_off_beat (run_from_boot drive_trace)
               = Some (run_from_boot (drive_trace ++ ignition_off_beat)))
    by (vm_compute; reflexivity).
  destruct (contactor_indicator (run_from_boot drive_trace) (run_from_boot_reachable _))
    as (_ & H).
  apply (H _ _ Hr). vm_compute. reflexivity.
Defined.

(** ** The indicators *)












(** ** Waiting for the precharge-detect input *)

Lemma irq_effect_can_tx s s' :
  irq_effect s s' -> can_tx s' = can_tx s \/ can_tx s' = can_tx s ++ config_frames.
Proof.
  intros H.
  destruct H as [cv Hcv|ct Hct|d0|w|w|w|w|w|w|w|w|w|w|w|w| | | | |us];
    try (left; destruct_state s; reflexivity).
  - left. rewrite driver_controls_eq. reflexivity.
  - right. apply config_IVT_can_tx.
Qed.

(** X28. While the main thread is at [while(!prechg_detect);] and the
    input stays low, it stays there: whatever interrupts occur (new
    readings, the ticker, time passing), the outputs, the BMU struct and the
    status bytes do not change, and the only frames sent are the ten
    configuration frames of the IVTs, once for each configuration request
    received.  No heartbeat is sent and no fault is evaluated meanwhile. *)
Theorem precharge_wait_blocks (m : machine) (k : prog) (evs : list event) (m' : machine) :
  pc m = WaitDetect :: k -> Forall detect_low evs -> run evs m = Some m' ->
  pc m' = WaitDetect :: k
  /\ pins (st m') = pins (st m) /\ BMU (st m') = BMU (st m)
  /\ BMU_status_array (st m') = BMU_status_array (st m)
  /\ exists n, can_tx (st m') = can_tx (st m) ++ concat (repeat config_frames n).
Proof.
  intros Hpc Hlow. revert m Hpc.
  induction Hlow as [|ev evs Hev Hlow IH]; intros m Hpc Hr; cbn [run] in Hr.
  - injection Hr as <-. split; [exact Hpc|]. do 3 (split; [reflexivity|]).
    exists 0%nat. cbn. now rewrite app_nil_r.
  - destruct (step ev m) as [m1|] eqn:E; [|discriminate Hr]. cbn in Hr.
    assert (H1 : pc m1 = WaitDetect :: k
                 /\ main_thread_globals (st m1) = main_thread_globals (st m)
                 /\ (can_tx (st m1) = can_tx (st m)
                     \/ can_tx (st m1) = can_tx (st m) ++ config_frames)).
    { destruct ev as [pin|msg| | |us]; cbn [step] in E.
      - destruct pin; [exfalso; apply Hev; reflexivity|].
        injection E as <-. unfold main_step. rewrite Hpc. cbn [pc st]. auto.
      - destruct (interrupt _ (st m)) as [s'|] eqn:Ei; [|discriminate E].
        cbn in E. injection E as <-. cbn [pc st].
        pose proof (interrupt_effect _ _ _ Ei) as He.
        split; [exact Hpc|]. split; [apply irq_effect_main, He | apply irq_effect_can_tx, He].
      - destruct (interrupt _ (st m)) as [s'|] eqn:Ei; [|discriminate E].
        cbn in E. injection E as <-. cbn [pc st].
        pose proof (interrupt_effect _ _ _ Ei) as He.
        split; [exact Hpc|]. split; [apply irq_effect_main, He | apply irq_effect_can_tx, He].
      - destruct (interrupt _ (st m)) as [s'|] eqn:Ei; [|discriminate E].
        cbn in E. injection E as <-. cbn [pc st].
        pose proof (interrupt_effect _ _ _ Ei) as He.
        split; [exact Hpc|]. split; [apply irq_effect_main, He | apply irq_effect_can_tx, He].
      - destruct (interrupt _ (st m)) as [s'|] eqn:Ei; [|discriminate E].
        cbn in E. injection E as <-. cbn [pc st].
        pose proof (interrupt_effect _ _ _ Ei) as He.
        split; [exact Hpc|]. split; [apply irq_effect_main, He | apply irq_effect_can_tx, He]. }
    destruct H1 as (Hpc1 & Hg & Htx).
    destruct (IH m1 Hpc1 Hr) as (Hpc' & Hp & Hb & Hs & n & Hn).
    unfold main_thread_globals, owned in Hg.
    injection Hg as HB HP _ HS _ _ _ _ _ _ _ _ _ _ _ _.
    split; [exact Hpc'|]. split; [congruence|]. split; [congruence|]. split; [congruence|].
    destruct Htx as [Htx | Htx].
    + exists n. rewrite Hn, Htx. reflexivity.
    + exists (S n). rewrite Hn, Htx. cbn [repeat concat]. now rewrite app_assoc.
Qed.

Lemma precharge_wait_blocks_witness :
  let s := st (run_from_boot (waiting_trace ++ fault_while_waiting)) in
  (prechg_enable (pins s) = true /\ hvdc_enable (pins s) = false)
  /\ (heartbeat_flag s = true /\ voltage1 (ivt_front s) = 70000)
  /\ can_tx s = can_tx (st (run_from_boot waiting_trace)).
Proof.
  assert (Hr : run fault_while_waiting (run_from_boot waiting_trace)
               = Some (run_from_boot (waiting_trace ++ fault_while_waiting)))
    by (vm_compute; reflexivity).
  assert (Hpc : exists k, pc (run_from_boot waiting_trace) = WaitDetect :: k)
    by (eexists; vm_compute; reflexivity).
  destruct Hpc as (k & Hpc).
  assert (Hlow : Forall detect_low fault_while_waiting)
    by (repeat constructor; discriminate).
  destruct (precharge_wait_blocks _ k _ _ Hpc Hlow Hr) as (_ & Hp & _).
  split; [rewrite Hp; vm_compute; split; reflexivity|].
  split; vm_compute; [split; reflexivity | reflexivity].
Defined.
